(** * Infinite Messaging Tree: placement, store, tiers and node lifecycle

    A shallow embedding of the JavaScript sources of the messaging tree
    ([utils/hash.js], [utils/storage.js], [ui/Yearfruit.js], the two
    variants of [scene/Nodes.js], [ui/Composer.js] and [main.js]) together
    with the properties that the specification states about them.

    JavaScript values are modelled as follows.
    - Strings are sequences of UTF-16 code units ([jsstring]).
    - Integers that the code keeps in the exact range of a double (hash
      values, counts, thresholds, time values) are [Z].
    - Other numbers are elements of an abstract type with the operations of
      the host ([JSNumber]): nothing is assumed about [Math.sin] and its
      relatives beyond their being functions.
    - A call that can throw, or that reads or writes mutable state, is a
      function from the state to a [completion]. *)

From Stdlib Require Import ZArith QArith Qminmax Qround Lia Ascii String.
From stdpp Require Import base option list gmap strings.

Local Open Scope Z_scope.

(** ** JavaScript strings *)

(** A string is the list of its UTF-16 code units. *)
Abbreviation jsstring := (list N).

(** The code units of an ASCII literal. *)
Fixpoint js (s : string) : jsstring :=
  match s with
  | EmptyString => []
  | String a rest => N_of_ascii a :: js rest
  end.

(** [str.charCodeAt(i)] yields a 16-bit unit. *)
Definition wf_string (s : jsstring) : Prop := Forall (λ c, (c < 65536)%N) s.

(** ** Completions: state passing with exceptions *)

(** The result of running a piece of JavaScript from a state: it returns a
    value in a new state, or it throws, leaving the state reached so far. *)
Inductive completion (S A : Type) : Type :=
  | Normal (a : A) (s : S)
  | Abrupt (s : S).
Arguments Normal {S A} a s.
Arguments Abrupt {S A} s.

Definition JS (S A : Type) : Type := S → completion S A.

Definition ret {S A} (a : A) : JS S A := λ s, Normal a s.
Definition throw {S A} : JS S A := λ s, Abrupt s.
Definition bind {S A B} (m : JS S A) (k : A → JS S B) : JS S B :=
  λ s, match m s with
       | Normal a s' => k a s'
       | Abrupt s' => Abrupt s'
       end.
(** [try { m } catch (error) { h }] *)
Definition try_catch {S A} (m : JS S A) (h : JS S A) : JS S A :=
  λ s, match m s with
       | Normal a s' => Normal a s'
       | Abrupt s' => h s'
       end.
Definition get {S} : JS S S := λ s, Normal s s.
Definition put {S} (s : S) : JS S () := λ _, Normal () s.

Declare Scope js_scope.
Delimit Scope js_scope with js.
Notation "'let*' x := m 'in' k" := (bind m (λ x, k))
  (at level 10, x pattern, m at level 100, k at level 200) : js_scope.

Definition completes {S A} (c : completion S A) : Prop :=
  match c with Normal _ _ => True | Abrupt _ => False end.

Definition value_of {S A} (c : completion S A) : option A :=
  match c with Normal a _ => Some a | Abrupt _ => None end.

Definition state_of {S A} (c : completion S A) : S :=
  match c with Normal _ s => s | Abrupt s => s end.

(** ** Numbers *)

(** The numeric operations of the host on IEEE doubles.  [of_Z] is the
    conversion of an (exactly representable) integer, [lit] the value of a
    decimal literal; [truthy] is [ToBoolean] (false on zero and NaN). *)
Class JSNumber (F : Type) : Type := {
  of_Z : Z → F;
  lit : Q → F;
  NaN : F;
  fadd : F → F → F;
  fsub : F → F → F;
  fmul : F → F → F;
  fdiv : F → F → F;
  frem : F → F → F;
  flt : F → F → bool;
  truthy : F → bool;
  Math_PI : F;
  Math_sin : F → F;
  Math_cos : F → F;
  Math_acos : F → F;
  Math_floor : F → F;
  Math_sqrt : F → F;
  Math_min : F → F → F;
}.

Infix "+." := fadd (at level 50, left associativity).
Infix "-." := fsub (at level 50, left associativity).
Infix "*." := fmul (at level 40, left associativity).
Infix "/." := fdiv (at level 40, left associativity).
Infix "%." := frem (at level 40, left associativity).

Record Vec3 (F : Type) : Type := mkVec3 { x : F; y : F; z : F }.
Arguments mkVec3 {F} x y z.
Arguments x {F} v.
Arguments y {F} v.
Arguments z {F} v.

(** ** 32-bit integer operators *)

Definition ToInt32 (n : Z) : Z := (n + 2 ^ 31) mod 2 ^ 32 - 2 ^ 31.

(** [a << b] *)
Definition shl (a b : Z) : Z := ToInt32 (Z.shiftl (ToInt32 a) (Z.land b 31)).

(** [a & b] *)
Definition band (a b : Z) : Z := Z.land (ToInt32 a) (ToInt32 b).

(** * utils/hash.js *)
Module Hash.

(** [hashCode(str)]: the loop body, then the loop, then [Math.abs]. *)
Definition hash_step (hash : Z) (char : N) : Z :=
  let hash := (shl hash 5 - hash) + Z.of_N char in
  band hash hash.

Definition hashCode (str : jsstring) : Z :=
  Z.abs (fold_left hash_step str 0).

Definition TREE_PARTS : list jsstring :=
  [js "trunk"; js "branch"; js "leaf"; js "root"].

Definition DEFAULT_TREE_PART : jsstring := js "trunk".

(** [arr[i]] for a number [i]: [undefined] outside the array. *)
Definition index {A} (arr : list A) (i : Z) : option A :=
  if decide (0 ≤ i) then arr !! Z.to_nat i else None.

Record Placement (F : Type) : Type := mkPlacement {
  treePart : option jsstring;
  position : Vec3 F;
  glowIntensity : F;
}.
Arguments mkPlacement {F} treePart position glowIntensity.
Arguments treePart {F} p.
Arguments position {F} p.
Arguments glowIntensity {F} p.

Section Placement.
Context {F : Type} `{JSNumber F}.

(** The state is the list of the variables [s] captured by the closures that
    [seededRandom] has returned so far; a closure is the index of its
    variable.

    [seededRandom(seed)]: a new closure over a new variable [s = seed]. *)
Definition seededRandom (seed : Z) : JS (list F) nat :=
  λ cells, Normal (length cells) (cells ++ [of_Z seed]).

(** Calling the closure: [s = Math.sin(s * 9999) * 10000;
    return s - Math.floor(s)]. *)
Definition call (rand : nat) : JS (list F) F :=
  λ cells,
    match cells !! rand with
    | Some s =>
        let s := Math_sin (s *. of_Z 9999) *. of_Z 10000 in
        Normal (s -. Math_floor s) (<[rand := s]> cells)
    | None => Abrupt cells
    end.

Local Open Scope js_scope.

Definition getPositionForTreePart
    (treePart : option jsstring) (rand : nat) (seed : Z) : JS (list F) (Vec3 F) :=
  if decide (treePart = Some (js "trunk")) then
    let angle := (of_Z seed *. lit 0.618) %. (Math_PI *. of_Z 2) in
    let* r := call rand in
    let height := of_Z 1 +. r *. of_Z 6 in
    let radius := lit 1.2 +. (height /. of_Z 8) *. lit (-0.3) in
    ret {| x := Math_cos angle *. radius;
           y := height;
           z := Math_sin angle *. radius |}
  else if decide (treePart = Some (js "branch")) then
    let branchAngle := (of_Z seed *. lit 0.718) %. (Math_PI *. of_Z 2) in
    let* r1 := call rand in
    let branchLength := of_Z 1 +. r1 *. of_Z 3 in
    let* r2 := call rand in
    let height := of_Z 5 +. r2 *. of_Z 3 in
    ret {| x := Math_cos branchAngle *. branchLength;
           y := height;
           z := Math_sin branchAngle *. branchLength |}
  else if decide (treePart = Some (js "leaf")) then
    let theta := (of_Z seed *. lit 0.618) %. (Math_PI *. of_Z 2) in
    let* r1 := call rand in
    let phi := Math_acos (of_Z 1 -. of_Z 2 *. r1) in
    let* r2 := call rand in
    let canopyRadius := of_Z 4 +. r2 *. of_Z 2 in
    ret {| x := canopyRadius *. Math_sin phi *. Math_cos theta;
           y := of_Z 8 +. canopyRadius *. Math_cos phi *. lit 0.6;
           z := canopyRadius *. Math_sin phi *. Math_sin theta |}
  else if decide (treePart = Some (js "root")) then
    let rootAngle := (of_Z seed *. lit 0.818) %. (Math_PI *. of_Z 2) in
    let* r1 := call rand in
    let rootLength := of_Z 2 +. r1 *. of_Z 2 in
    let* r2 := call rand in
    ret {| x := Math_cos rootAngle *. rootLength;
           y := lit (-0.1) +. r2 *. lit 0.5;
           z := Math_sin rootAngle *. rootLength |}
  else
    ret {| x := of_Z 0; y := of_Z 5; z := of_Z 0 |}.

Definition getMessagePlacement (userName messageId : jsstring)
    : JS (list F) (Placement F) :=
  let seed := hashCode (userName ++ messageId) in
  let* rand := seededRandom seed in
  let partIndex := Z.rem seed (Z.of_nat (length TREE_PARTS)) in
  let treePart := index TREE_PARTS partIndex in
  let* position := getPositionForTreePart treePart rand seed in
  let* r := call rand in
  let glowIntensity := lit 0.5 +. r *. lit 0.5 in
  ret {| treePart := treePart;
         position := position;
         glowIntensity := glowIntensity |}.

(** [getNodePosition] of the inscription variant (deprecated wrapper). *)
Definition getNodePosition (userName messageId : jsstring) : JS (list F) (Vec3 F) :=
  let* placement := getMessagePlacement userName messageId in
  ret (position placement).

End Placement.
End Hash.

(** * Messages *)
Module Msg.

(** A message object.  The two variants of the application store different
    fields next to the common ones; a field the object lacks is [None]
    ([undefined] when read). *)
Record Message (F : Type) : Type := mkMessage {
  message_id : jsstring;
  userName : jsstring;
  message : jsstring;
  timestamp : jsstring;
  emotion : option jsstring;
  node_position : option (Vec3 F);
  treePart : option jsstring;
  position : option (Vec3 F);
  glowIntensity : option F;
}.
Arguments mkMessage {F}.
Arguments message_id {F} m.
Arguments userName {F} m.
Arguments message {F} m.
Arguments timestamp {F} m.
Arguments emotion {F} m.
Arguments node_position {F} m.
Arguments treePart {F} m.
Arguments position {F} m.
Arguments glowIntensity {F} m.

End Msg.
Abbreviation Message := Msg.Message.

(** * Dates (ECMA-262, Date objects) *)
Module Date.

Definition msPerDay : Z := 86400000.

Definition Day (t : Z) : Z := t / msPerDay.

Definition DayFromYear (y : Z) : Z :=
  365 * (y - 1970) + (y - 1969) / 4 - (y - 1901) / 100 + (y - 1601) / 400.

(** The time value of the start of year [y]: 1 January, 00:00:00.000. *)
Definition TimeFromYear (y : Z) : Z := msPerDay * DayFromYear y.

(** The standard defines [YearFromTime(t)] as the largest integer [y] with
    [TimeFromYear(y) ≤ t].  It is computed here from the mean length of a
    year and corrected by at most one; [YearFromTime_spec] below shows that
    the result is the year of the standard. *)
Definition YearFromTime (t : Z) : Z :=
  let d := Day t in
  let y := 1970 + (400 * d) / 146097 in
  if decide (d < DayFromYear y) then y - 1
  else if decide (DayFromYear (y + 1) ≤ d) then y + 1
  else y.

Section Host.
(** The host: [Date_parse s] is the time value of [new Date(s)], [None] for
    an invalid date (NaN); [LocalTZA t] is the offset of local time at [t]. *)
Variable Date_parse : jsstring → option Z.
Variable LocalTZA : Z → Z.

Definition LocalTime (t : Z) : Z := t + LocalTZA t.

(** [new Date(s).getFullYear()], [None] for NaN. *)
Definition getFullYear (s : jsstring) : option Z :=
  match Date_parse s with
  | Some t => Some (YearFromTime (LocalTime t))
  | None => None
  end.

End Host.
End Date.

(** * utils/storage.js *)
Module Storage.

Definition STORAGE_KEY : jsstring := js "infinite_messaging_tree_messages".
Definition SETTINGS_KEY : jsstring := js "infinite_messaging_tree_settings".

(** The browser's [localStorage]: the stored strings, and whether the page
    may access the storage at all (when it may not, every access throws). *)
Record LocalStorage : Type := mkLocalStorage {
  items : gmap jsstring jsstring;
  accessible : bool;
}.

(** The result of [calculateTier]. *)
Record Tier : Type := mkTier {
  tier : jsstring;
  color : jsstring;
  emoji : jsstring;
}.

Section Store.
Context {F : Type}.
(** The host: the quota policy of the storage ([setItem] throws when the
    value does not fit), [JSON.stringify] and [JSON.parse] on message arrays
    ([None] when they throw), and the date functions.  A text that parses
    is taken to hold a message array, which is all that [saveMessage] ever
    writes under the key. *)
Variable quota_ok : gmap jsstring jsstring → jsstring → jsstring → bool.
Variable JSON_stringify : list (Message F) → option jsstring.
Variable JSON_parse : jsstring → option (list (Message F)).
Variable Date_parse : jsstring → option Z.
Variable LocalTZA : Z → Z.

Local Open Scope js_scope.

Definition getItem (key : jsstring) : JS LocalStorage (option jsstring) :=
  λ st, if accessible st then Normal (items st !! key) st else Abrupt st.

Definition setItem (key value : jsstring) : JS LocalStorage () :=
  λ st,
    if accessible st && quota_ok (items st) key value
    then Normal () {| items := <[key := value]> (items st);
                      accessible := accessible st |}
    else Abrupt st.

Definition removeItem (key : jsstring) : JS LocalStorage () :=
  λ st,
    if accessible st
    then Normal () {| items := delete key (items st);
                      accessible := accessible st |}
    else Abrupt st.

(** A host function that may throw but leaves the storage alone. *)
Definition host {A} (r : option A) : JS LocalStorage A :=
  match r with Some a => ret a | None => throw end.

(** [getAllMessages()]; [console.error] in the handler is not modelled.
    The empty string is falsy, as is [null]. *)
Definition getAllMessages : JS LocalStorage (list (Message F)) :=
  try_catch
    (let* data := getItem STORAGE_KEY in
     match data with
     | Some (c :: text) => host (JSON_parse (c :: text))
     | Some [] | None => ret []
     end)
    (ret []).

Definition saveMessage (message : Message F) : JS LocalStorage bool :=
  try_catch
    (let* messages := getAllMessages in
     let messages := messages ++ [message] in
     let* text := host (JSON_stringify messages) in
     let* _ := setItem STORAGE_KEY text in
     ret true)
    (ret false).

(** [Array.prototype.find]: the first element that satisfies the test. *)
Fixpoint find {A} (test : A → bool) (arr : list A) : option A :=
  match arr with
  | [] => None
  | a :: arr => if test a then Some a else find test arr
  end.

(** [getMessageById(messageId)]; [None] is [null]. *)
Definition getMessageById (messageId : jsstring)
    : JS LocalStorage (option (Message F)) :=
  let* messages := getAllMessages in
  ret (find (λ m, bool_decide (Msg.message_id m = messageId)) messages).

Definition getMessageCount : JS LocalStorage Z :=
  let* messages := getAllMessages in
  ret (Z.of_nat (length messages)).

(** [Array.prototype.filter]: the elements that satisfy the test, in order. *)
Fixpoint filter {A} (test : A → bool) (arr : list A) : list A :=
  match arr with
  | [] => []
  | a :: arr => if test a then a :: filter test arr else filter test arr
  end.

(** [msgYear === year]; NaN is equal to nothing. *)
Definition strict_eq (msgYear : option Z) (year : Z) : bool :=
  match msgYear with
  | Some n => bool_decide (n = year)
  | None => false
  end.

Definition getMessagesForYear (year : Z)
    : JS LocalStorage (list (Message F)) :=
  let* messages := getAllMessages in
  ret (filter
         (λ m,
            let msgYear := Date.getFullYear Date_parse LocalTZA (Msg.timestamp m) in
            strict_eq msgYear year)
         messages).

Definition clearAllMessages : JS LocalStorage () :=
  removeItem STORAGE_KEY.

End Store.

Definition calculateTier (count : Z) : Tier :=
  if count >=? 100000000 then
    {| tier := js "White"; color := js "#FFFFFF";
       emoji := [0xD83C; 0xDF4F]%N |}
  else if count >=? 10000000 then
    {| tier := js "Runic"; color := js "#9B59B6";
       emoji := [0xD83D; 0xDD2E]%N |}
  else if count >=? 1000000 then
    {| tier := js "Gold"; color := js "#FFD700";
       emoji := [0xD83C; 0xDF1F]%N |}
  else if count >=? 100000 then
    {| tier := js "Silver"; color := js "#C0C0C0";
       emoji := [0x26AA]%N |}
  else
    {| tier := js "Red"; color := js "#FF6B6B";
       emoji := [0xD83C; 0xDF4E]%N |}.

End Storage.

(** * JSON values *)
Module JSON.

(** What [JSON.parse] can return.  The properties of an object are its own
    properties, each key once. *)
#[warnings="-register-all"]
Inductive Value (F : Type) : Type :=
  | Null
  | Boolean (b : bool)
  | Number (n : F)
  | String (s : jsstring)
  | Array (elements : list (Value F))
  | Object (properties : list (jsstring * Value F)).
Arguments Null {F}.
Arguments Boolean {F} b.
Arguments Number {F} n.
Arguments String {F} s.
Arguments Array {F} elements.
Arguments Object {F} properties.

Fixpoint own {A} (key : jsstring) (properties : list (jsstring * A))
    : option A :=
  match properties with
  | [] => None
  | (k, v) :: properties =>
      if decide (k = key) then Some v else own key properties
  end.

Section Access.
Context {F : Type} `{JSNumber F} {S : Type}.

(** [value.key] for a key that no prototype defines, such as [message_id]
    and [timestamp]; [None] is [undefined].  Reading a property of [null]
    throws a TypeError; a boolean, a number, a string or an array has no
    such property. *)
Definition property (value : Value F) (key : jsstring)
    : JS S (option (Value F)) :=
  match value with
  | Null => throw
  | Object properties => ret (own key properties)
  | Boolean _ | Number _ | String _ | Array _ => ret None
  end.

(** [value.length] *)
Definition length_of (value : Value F) : JS S (option (Value F)) :=
  match value with
  | Null => throw
  | Array elements => ret (Some (Number (of_Z (Z.of_nat (length elements)))))
  | String s => ret (Some (Number (of_Z (Z.of_nat (length s)))))
  | Object properties => ret (own (js "length") properties)
  | Boolean _ | Number _ => ret None
  end.

End Access.

Section Messages.
Context {F : Type}.

(** [{ x, y, z }] *)
Definition of_Vec3 (v : Vec3 F) : Value F :=
  Object [(js "x", Number (x v)); (js "y", Number (y v));
          (js "z", Number (z v))].

(** A property that the object has only when the field is there. *)
Definition optional {A} (key : jsstring) (value : A → Value F)
    (field : option A) : list (jsstring * Value F) :=
  match field with
  | Some a => [(key, value a)]
  | None => []
  end.

(** The JSON value of a message object. *)
Definition of_message (m : Message F) : Value F :=
  Object
    ([(js "message_id", String (Msg.message_id m));
      (js "userName", String (Msg.userName m));
      (js "message", String (Msg.message m));
      (js "timestamp", String (Msg.timestamp m))]
     ++ optional (js "emotion") String (Msg.emotion m)
     ++ optional (js "node_position") of_Vec3 (Msg.node_position m)
     ++ optional (js "treePart") String (Msg.treePart m)
     ++ optional (js "position") of_Vec3 (Msg.position m)
     ++ optional (js "glowIntensity") Number (Msg.glowIntensity m)).

(** The message object that a JSON value is, when it is an object with the
    four strings that every message has. *)
Definition string_of (value : option (Value F)) : option jsstring :=
  match value with
  | Some (String s) => Some s
  | _ => None
  end.

Definition number_of (value : option (Value F)) : option F :=
  match value with
  | Some (Number n) => Some n
  | _ => None
  end.

Definition Vec3_of (value : option (Value F)) : option (Vec3 F) :=
  match value with
  | Some (Object properties) =>
      match number_of (own (js "x") properties),
            number_of (own (js "y") properties),
            number_of (own (js "z") properties) with
      | Some x, Some y, Some z => Some (mkVec3 x y z)
      | _, _, _ => None
      end
  | _ => None
  end.

Definition to_message (value : Value F) : option (Message F) :=
  match value with
  | Object properties =>
      match string_of (own (js "message_id") properties),
            string_of (own (js "userName") properties),
            string_of (own (js "message") properties),
            string_of (own (js "timestamp") properties) with
      | Some message_id, Some userName, Some message, Some timestamp =>
          Some {| Msg.message_id := message_id;
                  Msg.userName := userName;
                  Msg.message := message;
                  Msg.timestamp := timestamp;
                  Msg.emotion := string_of (own (js "emotion") properties);
                  Msg.node_position :=
                    Vec3_of (own (js "node_position") properties);
                  Msg.treePart :=
                    string_of (own (js "treePart") properties);
                  Msg.position := Vec3_of (own (js "position") properties);
                  Msg.glowIntensity :=
                    number_of (own (js "glowIntensity") properties) |}
      | _, _, _, _ => None
      end
  | _ => None
  end.

End Messages.
End JSON.

(** * utils/storage.js on whatever text the storage holds

    [Storage] above takes the text under the key of the messages to hold a
    message array.  Here the text is arbitrary: [JSON.parse] returns any
    JSON value, and the functions do with it what the code does. *)
Module JSONStorage.
Section Store.
Context {F : Type} `{JSNumber F}.
(** The host: the quota policy of the storage, [JSON.stringify] and
    [JSON.parse] ([None] when they throw), the time value of
    [new Date(value)] for a property value ([None] for an invalid date;
    the argument [None] is [undefined]), and the offset of local time. *)
Variable quota_ok : gmap jsstring jsstring → jsstring → jsstring → bool.
Variable JSON_stringify : JSON.Value F → option jsstring.
Variable JSON_parse : jsstring → option (JSON.Value F).
Variable new_Date : option (JSON.Value F) → option Z.
Variable LocalTZA : Z → Z.

Local Open Scope js_scope.

(** [getAllMessages()]: what [JSON.parse] returns is returned as it is. *)
Definition getAllMessages : JS Storage.LocalStorage (JSON.Value F) :=
  try_catch
    (let* data := Storage.getItem Storage.STORAGE_KEY in
     match data with
     | Some (c :: text) => Storage.host (JSON_parse (c :: text))
     | Some [] | None => ret (JSON.Array [])
     end)
    (ret (JSON.Array [])).

(** [messages.push(message)]: of the JSON values only an array has a method
    [push]; on any other the call throws a TypeError. *)
Definition push (messages message : JSON.Value F)
    : JS Storage.LocalStorage (JSON.Value F) :=
  match messages with
  | JSON.Array elements => ret (JSON.Array (elements ++ [message]))
  | _ => throw
  end.

Definition saveMessage (message : JSON.Value F)
    : JS Storage.LocalStorage bool :=
  try_catch
    (let* messages := getAllMessages in
     let* messages := push messages message in
     let* text := Storage.host (JSON_stringify messages) in
     let* _ := Storage.setItem quota_ok Storage.STORAGE_KEY text in
     ret true)
    (ret false).

(** [m.message_id === messageId], for a string [messageId] *)
Definition has_id (messageId : jsstring) (id : option (JSON.Value F))
    : bool :=
  match id with
  | Some (JSON.String s) => bool_decide (s = messageId)
  | _ => false
  end.

(** [elements.find(m => m.message_id === messageId)]: the callback runs on
    the elements in order, up to the first that satisfies it. *)
Fixpoint find (messageId : jsstring) (elements : list (JSON.Value F))
    : JS Storage.LocalStorage (option (JSON.Value F)) :=
  match elements with
  | [] => ret None
  | m :: elements =>
      let* id := JSON.property m (js "message_id") in
      if has_id messageId id then ret (Some m) else find messageId elements
  end.

(** [getMessageById(messageId)]: only an array has a method [find]; an
    element found is an object, hence truthy. *)
Definition getMessageById (messageId : jsstring)
    : JS Storage.LocalStorage (JSON.Value F) :=
  let* messages := getAllMessages in
  match messages with
  | JSON.Array elements =>
      let* found := find messageId elements in
      ret (default JSON.Null found)
  | _ => throw
  end.

(** [getMessageCount()]; [None] is [undefined]. *)
Definition getMessageCount
    : JS Storage.LocalStorage (option (JSON.Value F)) :=
  let* messages := getAllMessages in
  JSON.length_of messages.

(** [new Date(timestamp).getFullYear()], [None] for NaN. *)
Definition getFullYear (timestamp : option (JSON.Value F)) : option Z :=
  match new_Date timestamp with
  | Some t => Some (Date.YearFromTime (Date.LocalTime LocalTZA t))
  | None => None
  end.

(** [elements.filter(m => new Date(m.timestamp).getFullYear() === year)] *)
Fixpoint filter (year : Z) (elements : list (JSON.Value F))
    : JS Storage.LocalStorage (list (JSON.Value F)) :=
  match elements with
  | [] => ret []
  | m :: elements =>
      let* timestamp := JSON.property m (js "timestamp") in
      let msgYear := getFullYear timestamp in
      let* kept := filter year elements in
      ret (if Storage.strict_eq msgYear year then m :: kept else kept)
  end.

Definition getMessagesForYear (year : Z)
    : JS Storage.LocalStorage (list (JSON.Value F)) :=
  let* messages := getAllMessages in
  match messages with
  | JSON.Array elements => filter year elements
  | _ => throw
  end.

Definition clearAllMessages : JS Storage.LocalStorage () :=
  Storage.removeItem Storage.STORAGE_KEY.

End Store.
End JSONStorage.

(** * ui/Yearfruit.js *)
Module Yearfruit.

Record TierInfo : Type := mkTierInfo {
  tier : jsstring;
  threshold : Z;
  emoji : jsstring;
}.

Definition getTierInfo : list TierInfo :=
  [ {| tier := js "Red"; threshold := 0; emoji := [0xD83C; 0xDF4E]%N |};
    {| tier := js "Silver"; threshold := 100000; emoji := [0x26AA]%N |};
    {| tier := js "Gold"; threshold := 1000000; emoji := [0xD83C; 0xDF1F]%N |};
    {| tier := js "Runic"; threshold := 10000000;
       emoji := [0xD83D; 0xDD2E]%N |};
    {| tier := js "White"; threshold := 100000000;
       emoji := [0xD83C; 0xDF4F]%N |} ].

(** The result of [getProgressToNextTier]; [nextTier = None] is [null].
    [progress] is the exact quotient, of which the double that the code
    computes is the correctly rounded value. *)
Record Progress : Type := mkProgress {
  currentTier : jsstring;
  nextTier : option jsstring;
  progress : Q;
  remaining : Z;
}.

(** The loop [for (i = 0; i < tiers.length - 1; i++)] over the pairs
    [tiers[i]], [tiers[i + 1]]: the first pair with
    [count < tiers[i + 1].threshold] returns. *)
Fixpoint scan (count : Z) (tiers : list TierInfo) : option Progress :=
  match tiers with
  | cur :: (nxt :: _) as rest =>
      if decide (count < threshold nxt) then
        let current := threshold cur in
        let next := threshold nxt in
        let progress := (inject_Z (count - current) / inject_Z (next - current))%Q in
        Some {| currentTier := tier cur;
                nextTier := Some (tier nxt);
                progress := Qmin (Qmax progress 0) 1;
                remaining := next - count |}
      else scan count rest
  | _ => None
  end.

(** [tiers[tiers.length - 1].tier] *)
Definition last_tier (tiers : list TierInfo) : option jsstring :=
  tier <$> last tiers.

(** The body of [getProgressToNextTier] after [count] has been read. *)
Definition progressFor (count : Z) : option Progress :=
  let tiers := getTierInfo in
  match scan count tiers with
  | Some p => Some p
  | None =>
      cur ← last_tier tiers;
      Some {| currentTier := cur;
              nextTier := None;
              progress := 1;
              remaining := 0 |}
  end.

Section Store.
Context {F : Type}.
Variable JSON_parse : jsstring → option (list (Message F)).

Definition getProgressToNextTier : JS Storage.LocalStorage (option Progress) :=
  bind (Storage.getMessageCount JSON_parse) (λ count, ret (progressFor count)).

End Store.
End Yearfruit.

(** * The first version of utils/hash.js: positions in the canopy *)
Module Canopy.
Section Position.
Context {F : Type} `{JSNumber F}.
Local Open Scope js_scope.

Definition getNodePosition (userName messageId : jsstring)
    : JS (list F) (Vec3 F) :=
  let seed := Hash.hashCode (userName ++ messageId) in
  let* rand := Hash.seededRandom seed in
  let canopyCenter := {| x := of_Z 0; y := of_Z 8; z := of_Z 0 |} in
  let canopyRadius := of_Z 6 in
  let goldenAngle := Math_PI *. (of_Z 3 -. Math_sqrt (of_Z 5)) in
  let theta := of_Z seed *. goldenAngle in
  let* r1 := Hash.call rand in
  let phi := Math_acos (of_Z 1 -. of_Z 2 *. r1) in
  let* r2 := Hash.call rand in
  let r := canopyRadius *. (lit 0.6 +. r2 *. lit 0.4) in
  ret {| x := x canopyCenter +. r *. Math_sin phi *. Math_cos theta;
         y := y canopyCenter +. r *. Math_cos phi *. lit 0.8;
         z := z canopyCenter +. r *. Math_sin phi *. Math_sin theta |}.

End Position.
End Canopy.

(** * The scene objects shared by the two variants of scene/Nodes.js *)
Module Scene.

(** Calls of the geometry constructors of three.js, with their arguments.
    An argument that the code passes unchanged from a configuration object
    may be [undefined] ([None]). *)
Inductive Geometry (F : Type) : Type :=
  | IcosahedronGeometry (radius : option F) (detail : Z)
  | SphereGeometry (radius : option F) (widthSegments heightSegments : Z)
  | LatheGeometry (points : list (F * F)) (segments : Z)
  | ConeGeometry (radius height : F) (radialSegments : Z)
  | TorusGeometry (radius tube : F) (radialSegments tubularSegments : Z)
  | DodecahedronGeometry (radius : option F) (detail : Z)
  | OctahedronGeometry (radius : option F) (detail : Z)
  | BoxGeometry (width height depth : F)
  | CapsuleGeometry (radius length : F) (capSegments radialSegments : Z).
Arguments IcosahedronGeometry {F}.
Arguments SphereGeometry {F}.
Arguments LatheGeometry {F}.
Arguments ConeGeometry {F}.
Arguments TorusGeometry {F}.
Arguments DodecahedronGeometry {F}.
Arguments OctahedronGeometry {F}.
Arguments BoxGeometry {F}.
Arguments CapsuleGeometry {F}.

(** The uniforms of the shader material (the shader sources are constants).
    [glowIntensity] exists in the inscription variant only. *)
Record Material (F : Type) : Type := mkMaterial {
  time_uniform : F;
  baseColor : option Z;
  emissiveColor : option Z;
  pulsePhase : F;
  glowIntensity : option F;
  birthTime : F;
  currentTime : F;
}.
Arguments mkMaterial {F}.
Arguments birthTime {F} m.

(** [new THREE.PointLight(color, intensity, distance)] *)
Record PointLight (F : Type) : Type := mkPointLight {
  light_color : option Z;
  light_intensity : F;
  light_distance : F;
}.
Arguments mkPointLight {F}.

Record UserData (F : Type) : Type := mkUserData {
  messageId : jsstring;
  message : Message F;
  originalPosition : Vec3 F;
  swayPhase : F;
  swayAmplitude : F;
}.
Arguments mkUserData {F}.
Arguments messageId {F} u.

Record Mesh (F : Type) : Type := mkMesh {
  geometry : Geometry F;
  material : Material F;
  position : Vec3 F;
  scale : F;
  userData : option (UserData F);
  children : list (PointLight F);
}.
Arguments mkMesh {F}.
Arguments geometry {F} m.
Arguments material {F} m.
Arguments position {F} m.
Arguments scale {F} m.
Arguments userData {F} m.
Arguments children {F} m.

(** Everything a [NodeSystem] call can read or change.  A mesh is referred
    to by its index in [objects], the meshes constructed so far. *)
Record World (F : Type) : Type := mkWorld {
  cells : list F;
  random_calls : nat;
  clock_reads : nat;
  frames : list (nat * F);
  objects : list (Mesh F);
  scene : list nat;
  nodes : gmap jsstring (Message F);
  meshes : gmap jsstring nat;
  time : F;
}.
Arguments mkWorld {F}.
Arguments cells {F} w.
Arguments random_calls {F} w.
Arguments clock_reads {F} w.
Arguments frames {F} w.
Arguments objects {F} w.
Arguments scene {F} w.
Arguments nodes {F} w.
Arguments meshes {F} w.
Arguments time {F} w.

Section Host.
Context {F : Type} `{JSNumber F}.
(** The host: the values that successive calls of [Math.random()] and of
    [performance.now()] return. *)
Variable Math_random_stream : nat → F.
Variable performance_now_stream : nat → F.

Local Open Scope js_scope.

Definition Math_random : JS (World F) F :=
  λ w, Normal (Math_random_stream (random_calls w))
         {| cells := cells w; random_calls := S (random_calls w);
            clock_reads := clock_reads w; frames := frames w;
            objects := objects w; scene := scene w; nodes := nodes w;
            meshes := meshes w; time := time w |}.

Definition performance_now : JS (World F) F :=
  λ w, Normal (performance_now_stream (clock_reads w))
         {| cells := cells w; random_calls := random_calls w;
            clock_reads := S (clock_reads w); frames := frames w;
            objects := objects w; scene := scene w; nodes := nodes w;
            meshes := meshes w; time := time w |}.

(** Code of utils/hash.js run in the world. *)
Definition with_cells {A} (m : JS (list F) A) : JS (World F) A :=
  λ w,
    let world c :=
      {| cells := c; random_calls := random_calls w;
         clock_reads := clock_reads w; frames := frames w;
         objects := objects w; scene := scene w; nodes := nodes w;
         meshes := meshes w; time := time w |} in
    match m (cells w) with
    | Normal a c => Normal a (world c)
    | Abrupt c => Abrupt (world c)
    end.

(** [new THREE.Mesh(...)]: the new object and its reference. *)
Definition new_Mesh (mesh : Mesh F) : JS (World F) nat :=
  λ w, Normal (length (objects w))
         {| cells := cells w; random_calls := random_calls w;
            clock_reads := clock_reads w; frames := frames w;
            objects := objects w ++ [mesh]; scene := scene w;
            nodes := nodes w; meshes := meshes w; time := time w |}.

(** [mesh.scale.setScalar(s)] *)
Definition setScalar (mesh : nat) (s : F) : JS (World F) () :=
  λ w,
    match objects w !! mesh with
    | Some o =>
        let o := {| geometry := geometry o; material := material o;
                    position := position o; scale := s;
                    userData := userData o; children := children o |} in
        Normal ()
          {| cells := cells w; random_calls := random_calls w;
             clock_reads := clock_reads w; frames := frames w;
             objects := <[mesh := o]> (objects w); scene := scene w;
             nodes := nodes w; meshes := meshes w; time := time w |}
    | None => Abrupt w
    end.

(** [requestAnimationFrame(animate)] for the [animate] of a birth. *)
Definition requestAnimationFrame (mesh : nat) (startTime : F)
    : JS (World F) () :=
  λ w, Normal ()
         {| cells := cells w; random_calls := random_calls w;
            clock_reads := clock_reads w;
            frames := frames w ++ [(mesh, startTime)];
            objects := objects w; scene := scene w; nodes := nodes w;
            meshes := meshes w; time := time w |}.

(** [this.scene.add(mesh); this.meshes.set(id, mesh);
    this.nodes.set(id, node)] *)
Definition register (id : jsstring) (mesh : nat) (node : Message F)
    : JS (World F) () :=
  λ w, Normal ()
         {| cells := cells w; random_calls := random_calls w;
            clock_reads := clock_reads w; frames := frames w;
            objects := objects w; scene := scene w ++ [mesh];
            nodes := <[id := node]> (nodes w);
            meshes := <[id := mesh]> (meshes w); time := time w |}.

(** The closure [animate] of [animateBirth], run once. *)
Definition animate (mesh : nat) (startTime : F) : JS (World F) () :=
  let startScale := lit 0.1 in
  let endScale := lit 1.0 in
  let duration := of_Z 1200 in
  let* now := performance_now in
  let elapsed := now -. startTime in
  let progress := Math_min (elapsed /. duration) (of_Z 1) in
  let overshoot := lit 1.1 in
  let scale :=
    if flt progress (lit 0.7) then
      startScale +.
        (endScale *. overshoot -. startScale) *. (progress /. lit 0.7)
    else
      let t := (progress -. lit 0.7) /. lit 0.3 in
      endScale *. overshoot -. (endScale *. overshoot -. endScale) *. t in
  let* _ := setScalar mesh scale in
  if flt progress (of_Z 1) then requestAnimationFrame mesh startTime
  else ret ().

Definition animateBirth (mesh : nat) : JS (World F) () :=
  let startScale := lit 0.1 in
  let* startTime := performance_now in
  let* _ := setScalar mesh startScale in
  animate mesh startTime.

(** [this.meshes.get(messageId)] *)
Definition getNodeByMessageId (messageId : jsstring)
    : JS (World F) (option nat) :=
  λ w, Normal (meshes w !! messageId) w.

End Host.
End Scene.

(** [ToNumber] of a possibly undefined number: [undefined] becomes NaN. *)
Definition num {F : Type} `{JSNumber F} (v : option F) : F := default NaN v.

(** * scene/Nodes.js, emotion variant *)
Module EmotionNodes.
Import Scene.

(** What reading [EMOTION_CONFIG[emotion]] yields, seen through the
    properties the code reads from it. *)
Record Config (F : Type) : Type := mkConfig {
  color : option Z;
  emissive : option Z;
  type : option jsstring;
  geometry : option jsstring;
  scale : option F;
}.
Arguments mkConfig {F}.
Arguments color {F} c.
Arguments emissive {F} c.
Arguments type {F} c.
Arguments geometry {F} c.
Arguments scale {F} c.

(** The names that every object inherits from [Object.prototype]. *)
Definition Object_prototype : list jsstring :=
  [ js "constructor"; js "__defineGetter__"; js "__defineSetter__";
    js "hasOwnProperty"; js "__lookupGetter__"; js "__lookupSetter__";
    js "isPrototypeOf"; js "propertyIsEnumerable"; js "toString";
    js "valueOf"; js "__proto__"; js "toLocaleString" ].

Section NodeSystem.
Context {F : Type} `{JSNumber F}.
Variable Math_random_stream : nat → F.
Variable performance_now_stream : nat → F.

Local Open Scope js_scope.

Definition EMOTION_CONFIG : list (jsstring * Config F) :=
  [ (js "joy",
     {| color := Some 0x90EE90; emissive := Some 0x4CAF50;
        type := Some (js "leaf"); geometry := Some (js "icosahedron");
        scale := Some (lit 0.3) |});
    (js "love",
     {| color := Some 0xFFB6C1; emissive := Some 0xFF69B4;
        type := Some (js "blossom"); geometry := Some (js "sphere");
        scale := Some (lit 0.35) |});
    (js "sadness",
     {| color := Some 0xC0C0C0; emissive := Some 0x808080;
        type := Some (js "droplet"); geometry := Some (js "teardrop");
        scale := Some (lit 0.25) |});
    (js "anger",
     {| color := Some 0x8B0000; emissive := Some 0xFF0000;
        type := Some (js "bud"); geometry := Some (js "cone");
        scale := Some (lit 0.28) |});
    (js "confusion",
     {| color := Some 0xDDA0DD; emissive := Some 0x9932CC;
        type := Some (js "curl"); geometry := Some (js "torus");
        scale := Some (lit 0.25) |});
    (js "secret",
     {| color := Some 0xFFD700; emissive := Some 0xFFA500;
        type := Some (js "fruit"); geometry := Some (js "dodecahedron");
        scale := Some (lit 0.35) |});
    (js "excitement",
     {| color := Some 0xFFFF00; emissive := Some 0xFFD700;
        type := Some (js "spark"); geometry := Some (js "octahedron");
        scale := Some (lit 0.3) |}) ].

Fixpoint own {A} (key : jsstring) (object : list (jsstring * A)) : option A :=
  match object with
  | [] => None
  | (k, v) :: object => if decide (k = key) then Some v else own key object
  end.

(** [EMOTION_CONFIG[emotion]]: the property key of a missing emotion is
    ["undefined"]; a name found on [Object.prototype] only yields a built-in
    that has none of the configuration properties; [None] is [undefined]. *)
Definition config_of (emotion : option jsstring) : option (Config F) :=
  let key := default (js "undefined") emotion in
  match own key EMOTION_CONFIG with
  | Some config => Some config
  | None =>
      if decide (key ∈ Object_prototype)
      then Some {| color := None; emissive := None; type := None;
                   geometry := None; scale := None |}
      else None
  end.

(** The points of the teardrop profile, [i = 0 .. 10]. *)
Definition teardropPoints : list (F * F) :=
  (λ i : Z,
     let t := of_Z i /. of_Z 10 in
     let r := Math_sin (t *. Math_PI) *. lit 0.15
                *. (of_Z 1 -. t *. lit 0.5) in
     (r, t *. lit 0.4 -. lit 0.2)) <$> seqZ 0 11.

(** [createGeometry(emotion)]: reading [config.geometry] throws when
    [config] is [undefined]. *)
Definition createGeometry (emotion : option jsstring)
    : JS (World F) (Geometry F) :=
  match config_of emotion with
  | None => throw
  | Some config =>
      let g := geometry config in
      if decide (g = Some (js "icosahedron")) then
        ret (IcosahedronGeometry (scale config) 1)
      else if decide (g = Some (js "sphere")) then
        ret (SphereGeometry (scale config) 16 16)
      else if decide (g = Some (js "teardrop")) then
        ret (LatheGeometry teardropPoints 12)
      else if decide (g = Some (js "cone")) then
        ret (ConeGeometry (num (scale config) *. lit 0.6)
               (num (scale config) *. lit 1.2) 8)
      else if decide (g = Some (js "torus")) then
        ret (TorusGeometry (num (scale config) *. lit 0.6)
               (num (scale config) *. lit 0.2) 8 16)
      else if decide (g = Some (js "dodecahedron")) then
        ret (DodecahedronGeometry (scale config) 0)
      else if decide (g = Some (js "octahedron")) then
        ret (OctahedronGeometry (scale config) 0)
      else
        ret (SphereGeometry (scale config) 16 16)
  end.

(** [createMaterial(emotion)]: [config.color] is read before
    [Math.random()] is called. *)
Definition createMaterial (emotion : option jsstring)
    : JS (World F) (Material F) :=
  match config_of emotion with
  | None => throw
  | Some config =>
      let* r := Math_random Math_random_stream in
      ret {| time_uniform := of_Z 0;
             baseColor := color config;
             emissiveColor := emissive config;
             pulsePhase := r *. Math_PI *. of_Z 2;
             glowIntensity := None;
             birthTime := of_Z 0;
             currentTime := of_Z 0 |}
  end.

(** [addNode(message)]; the result is the new mesh, or [None] for the
    [undefined] of the early return. *)
Definition addNode (message : Message F) : JS (World F) (option nat) :=
  let message_id := Msg.message_id message in
  let userName := Msg.userName message in
  let emotion := Msg.emotion message in
  let node_position := Msg.node_position message in
  let* w := get in
  if decide (is_Some (meshes w !! message_id)) then ret None
  else
    let* position :=
      match node_position with
      | Some p => ret p
      | None => with_cells (Canopy.getNodePosition userName message_id)
      end in
    let* geometry := createGeometry emotion in
    let* material := createMaterial emotion in
    let* w := get in
    let material :=
      {| time_uniform := time_uniform _ material;
         baseColor := baseColor _ material;
         emissiveColor := emissiveColor _ material;
         pulsePhase := pulsePhase _ material;
         glowIntensity := glowIntensity _ material;
         birthTime := time w;
         currentTime := currentTime _ material |} in
    let* r1 := Math_random Math_random_stream in
    let* r2 := Math_random Math_random_stream in
    let userData :=
      {| messageId := message_id;
         message := message;
         originalPosition := position;
         swayPhase := r1 *. Math_PI *. of_Z 2;
         swayAmplitude := lit 0.01 +. r2 *. lit 0.02 |} in
    match config_of emotion with
    | None => throw
    | Some config =>
        let glow := {| light_color := emissive config;
                       light_intensity := lit 0.3;
                       light_distance := of_Z 2 |} in
        let* mesh :=
          new_Mesh {| Scene.geometry := geometry;
                      material := material;
                      position := position;
                      Scene.scale := of_Z 1;
                      userData := Some userData;
                      children := [glow] |} in
        let* _ := register message_id mesh message in
        let* _ := animateBirth performance_now_stream mesh in
        ret (Some mesh)
    end.

(** [loadNodes(messages)]: [forEach] stops at the first call that throws. *)
Fixpoint loadNodes (messages : list (Message F)) : JS (World F) () :=
  match messages with
  | [] => ret ()
  | message :: messages =>
      let* _ := addNode message in
      loadNodes messages
  end.

End NodeSystem.
End EmotionNodes.

(** * scene/Nodes.js, inscription variant *)
Module InscriptionNodes.
Import Scene.

Section NodeSystem.
Context {F : Type} `{JSNumber F}.
Variable Math_random_stream : nat → F.
Variable performance_now_stream : nat → F.

Local Open Scope js_scope.

Definition MESSAGE_CONFIG_color : Z := 0xffd700.
Definition MESSAGE_CONFIG_emissive : Z := 0xffa500.
Definition MESSAGE_CONFIG_scale : F := lit 0.25.

(** [createGeometry(treePart)]: the [switch] has a [default] case. *)
Definition createGeometry (treePart : option jsstring) : Geometry F :=
  let scale := MESSAGE_CONFIG_scale in
  if decide (treePart = Some (js "trunk")) then
    BoxGeometry (scale *. lit 1.5) (scale *. of_Z 2) (scale *. lit 0.3)
  else if decide (treePart = Some (js "branch")) then
    CapsuleGeometry (scale *. lit 0.3) (scale *. lit 1.2) 4 8
  else if decide (treePart = Some (js "leaf")) then
    SphereGeometry (Some scale) 8 8
  else if decide (treePart = Some (js "root")) then
    TorusGeometry (scale *. lit 0.6) (scale *. lit 0.2) 6 12
  else
    SphereGeometry (Some scale) 16 16.

(** [createMaterial(glowIntensity = 1.0)] *)
Definition createMaterial (glowIntensity : option F)
    : JS (World F) (Material F) :=
  let glowIntensity := default (lit 1.0) glowIntensity in
  let* r := Math_random Math_random_stream in
  ret {| time_uniform := of_Z 0;
         baseColor := Some MESSAGE_CONFIG_color;
         emissiveColor := Some MESSAGE_CONFIG_emissive;
         pulsePhase := r *. Math_PI *. of_Z 2;
         Scene.glowIntensity := Some glowIntensity;
         birthTime := of_Z 0;
         currentTime := of_Z 0 |}.

(** [a || b] on strings: the empty string and [undefined] are falsy. *)
Definition or_string (a b : option jsstring) : option jsstring :=
  match a with
  | Some (c :: s) => Some (c :: s)
  | Some [] | None => b
  end.

(** [a || b] on numbers: zero, NaN and [undefined] are falsy. *)
Definition or_number (a b : option F) : option F :=
  match a with
  | Some v => if truthy v then Some v else b
  | None => b
  end.

(** [a || b] on objects: only [undefined] is falsy. *)
Definition or_object {A} (a b : option A) : option A :=
  match a with
  | Some v => Some v
  | None => b
  end.

(** [{ ...message, treePart: part }] *)
Definition with_treePart (message : Message F) (part : option jsstring)
    : Message F :=
  {| Msg.message_id := Msg.message_id message;
     Msg.userName := Msg.userName message;
     Msg.message := Msg.message message;
     Msg.timestamp := Msg.timestamp message;
     Msg.emotion := Msg.emotion message;
     Msg.node_position := Msg.node_position message;
     Msg.treePart := part;
     Msg.position := Msg.position message;
     Msg.glowIntensity := Msg.glowIntensity message |}.

(** [addNode(message)]; the placement object is the triple of its
    properties [position], [treePart] and [glowIntensity]. *)
Definition addNode (message : Message F) : JS (World F) (option nat) :=
  let message_id := Msg.message_id message in
  let userName := Msg.userName message in
  let treePart := Msg.treePart message in
  let position := Msg.position message in
  let glowIntensity := Msg.glowIntensity message in
  let* w := get in
  if decide (is_Some (meshes w !! message_id)) then ret None
  else
    let* placement :=
      match position with
      | Some _ => ret (position, treePart, glowIntensity)
      | None =>
          let* p :=
            with_cells (Hash.getMessagePlacement userName message_id) in
          ret (Some (Hash.position p), Hash.treePart p,
               Some (Hash.glowIntensity p))
      end in
    let '(placement_position, placement_treePart, placement_glowIntensity) :=
      placement in
    let part := or_string treePart placement_treePart in
    let pos := or_object position placement_position in
    let intensity := or_number glowIntensity placement_glowIntensity in
    let geometry := createGeometry part in
    let* material := createMaterial intensity in
    let* w := get in
    let material :=
      {| time_uniform := time_uniform _ material;
         baseColor := baseColor _ material;
         emissiveColor := emissiveColor _ material;
         pulsePhase := pulsePhase _ material;
         Scene.glowIntensity := Scene.glowIntensity _ material;
         birthTime := time w;
         currentTime := currentTime _ material |} in
    match pos with
    | None => throw
    | Some pos =>
        let* r1 := Math_random Math_random_stream in
        let* r2 := Math_random Math_random_stream in
        let userData :=
          {| messageId := message_id;
             Scene.message := with_treePart message part;
             originalPosition := pos;
             swayPhase := r1 *. Math_PI *. of_Z 2;
             swayAmplitude := lit 0.01 +. r2 *. lit 0.02 |} in
        let glow := {| light_color := Some MESSAGE_CONFIG_emissive;
                       light_intensity := num intensity *. lit 0.3;
                       light_distance := of_Z 2 |} in
        let* mesh :=
          new_Mesh {| Scene.geometry := geometry;
                      Scene.material := material;
                      Scene.position := pos;
                      Scene.scale := of_Z 1;
                      userData := Some userData;
                      children := [glow] |} in
        let* _ := register message_id mesh (with_treePart message part) in
        let* _ := animateBirth performance_now_stream mesh in
        ret (Some mesh)
    end.

Fixpoint loadNodes (messages : list (Message F)) : JS (World F) () :=
  match messages with
  | [] => ret ()
  | message :: messages =>
      let* _ := addNode message in
      loadNodes messages
  end.

End NodeSystem.
End InscriptionNodes.

(** * Vocabulary of the properties *)

(** The position of a tier name in the ascending table of
    [Yearfruit.getTierInfo]. *)
Fixpoint rank_in (name : jsstring) (tiers : list Yearfruit.TierInfo)
    : option nat :=
  match tiers with
  | [] => None
  | info :: tiers =>
      if decide (Yearfruit.tier info = name) then Some O
      else S <$> rank_in name tiers
  end.

Definition rank (name : jsstring) : option nat :=
  rank_in name Yearfruit.getTierInfo.

(** [t1] is at most [t2] in the order of the table. *)
Definition tier_le (t1 t2 : Storage.Tier) : Prop :=
  ∃ r1 r2 : nat,
    rank (Storage.tier t1) = Some r1 ∧
    rank (Storage.tier t2) = Some r2 ∧
    (r1 ≤ r2)%nat.

(** A message whose timestamp lies in calendar year [year] of local time:
    from 1 January [year], 00:00:00.000, up to but excluding 1 January of
    the next year. *)
Definition falls_in_year {F : Type}
    (Date_parse : jsstring → option Z) (LocalTZA : Z → Z)
    (year : Z) (m : Message F) : Prop :=
  match Date_parse (Msg.timestamp m) with
  | Some t =>
      Date.TimeFromYear year ≤ Date.LocalTime LocalTZA t
        < Date.TimeFromYear (year + 1)
  | None => False
  end.

#[global] Instance falls_in_year_dec {F : Type} Date_parse LocalTZA year
    (m : Message F) : Decision (falls_in_year Date_parse LocalTZA year m).
Proof. unfold falls_in_year. destruct (Date_parse _); apply _. Defined.

(** The persisted message sequence: what the storage holds under the key
    of the messages, read as a message array (empty when there is none). *)
Definition persisted {F : Type}
    (JSON_parse : jsstring → option (list (Message F)))
    (st : Storage.LocalStorage) : list (Message F) :=
  if Storage.accessible st then
    match Storage.items st !! Storage.STORAGE_KEY with
    | Some (c :: text) => default [] (JSON_parse (c :: text))
    | Some [] | None => []
    end
  else [].

(** A run of [saveMessage] calls, one per message, with their results. *)
Fixpoint saveAll {F : Type}
    (quota_ok : gmap jsstring jsstring → jsstring → jsstring → bool)
    (JSON_stringify : list (Message F) → option jsstring)
    (JSON_parse : jsstring → option (list (Message F)))
    (messages : list (Message F)) : JS Storage.LocalStorage (list bool) :=
  match messages with
  | [] => ret []
  | m :: messages =>
      bind (Storage.saveMessage quota_ok JSON_stringify JSON_parse m)
        (λ ok,
           bind (saveAll quota_ok JSON_stringify JSON_parse messages)
             (λ oks, ret (ok :: oks)))
  end.

(** The messages of a run whose call returned [true]. *)
Fixpoint accepted {A} (messages : list A) (oks : list bool) : list A :=
  match messages, oks with
  | m :: messages, ok :: oks =>
      if ok then m :: accepted messages oks else accepted messages oks
  | _, _ => []
  end.

(** [n] calls of the same operation, with the result of the last. *)
Fixpoint repeat_call {S A} (n : nat) (first : A) (m : JS S A) : JS S A :=
  match n with
  | O => ret first
  | S n => bind m (λ a, repeat_call n a m)
  end.

(** The live nodes for a message id: the meshes in the scene that carry
    it. *)
Definition live_nodes {F : Type} (w : Scene.World F) (id : jsstring)
    : list nat :=
  List.filter
    (λ mesh,
       match Scene.objects w !! mesh with
       | Some o =>
           match Scene.userData o with
           | Some u => bool_decide (Scene.messageId u = id)
           | None => false
           end
       | None => false
       end)
    (Scene.scene w).

(** Two worlds with the same nodes: the same scene and maps, and the same
    user data on the meshes. *)
Definition same_nodes {F : Type} (w w' : Scene.World F) : Prop :=
  Scene.scene w' = Scene.scene w ∧
  Scene.meshes w' = Scene.meshes w ∧
  Scene.nodes w' = Scene.nodes w ∧
  Scene.userData <$> Scene.objects w' = Scene.userData <$> Scene.objects w.

(** The invariant of a [NodeSystem]: the scene refers to constructed
    meshes, and the live nodes of an id are the mesh that [meshes] records
    for it, if any. *)
Definition consistent {F : Type} (w : Scene.World F) : Prop :=
  (∀ mesh, mesh ∈ Scene.scene w → (mesh < length (Scene.objects w))%nat) ∧
  (∀ id, live_nodes w id
         = match Scene.meshes w !! id with
           | Some mesh => [mesh]
           | None => []
           end).

(** The keys of [EMOTION_CONFIG]. *)
Definition emotions : list jsstring :=
  [ js "joy"; js "love"; js "sadness"; js "anger"; js "confusion";
    js "secret"; js "excitement" ].

(** After a call of [addNode] for [m] that returned [r] and left the world
    [w1], the id of [m] has exactly one live node, and further calls of
    [addNode] with this id, however many, return [undefined] and leave
    [w1] as it is: no mesh, no map entry, no random draw, no clock read. *)
Definition exactly_one_node {F : Type}
    (addNode : Message F → JS (Scene.World F) (option nat))
    (m : Message F) (r : option nat) (w1 : Scene.World F) : Prop :=
  consistent w1 ∧
  ∃ mesh,
    Scene.meshes w1 !! Msg.message_id m = Some mesh ∧
    live_nodes w1 (Msg.message_id m) = [mesh] ∧
    (∀ m', Msg.message_id m' = Msg.message_id m →
           addNode m' w1 = Normal None w1) ∧
    (∀ n, repeat_call n r (addNode m) w1
          = Normal (match n with O => r | S _ => None end) w1).

(** ** Hosts used in examples *)
Module Example.

(** A host whose numbers are integers. *)
Definition numbers : JSNumber Z :=
  {| of_Z := id;
     lit := Qfloor;
     NaN := 0;
     fadd := Z.add;
     fsub := Z.sub;
     fmul := Z.mul;
     fdiv := Z.div;
     frem := Z.rem;
     flt := Z.ltb;
     truthy := λ n, negb (n =? 0);
     Math_PI := 3;
     Math_sin := λ n, n mod 7;
     Math_cos := λ n, n mod 5;
     Math_acos := λ n, n mod 3;
     Math_floor := id;
     Math_sqrt := Z.sqrt;
     Math_min := Z.min |}.

#[global] Instance Vec3_eq_dec {F} `{EqDecision F} : EqDecision (Vec3 F).
Proof. solve_decision. Defined.

#[global] Instance Vec3_countable {F} `{Countable F} : Countable (Vec3 F).
Proof.
  apply (inj_countable' (λ v, (x v, y v, z v))
           (λ t, let '(a, b, c) := t in mkVec3 a b c)).
  by intros [].
Defined.

#[global] Instance Message_eq_dec {F} `{EqDecision F} : EqDecision (Message F).
Proof. solve_decision. Defined.

#[global] Instance Message_countable {F} `{Countable F} : Countable (Message F).
Proof.
  apply (inj_countable'
           (λ m, (Msg.message_id m, Msg.userName m, Msg.message m,
                  Msg.timestamp m, Msg.emotion m, Msg.node_position m,
                  Msg.treePart m, Msg.position m, Msg.glowIntensity m))
           (λ t, let '(a, b, c, d, e, f, g, h, i) := t in
                 Msg.mkMessage a b c d e f g h i)).
  by intros [].
Defined.

(** A serialisation of message arrays into one-unit strings, with its
    inverse; it stands for [JSON.stringify] and [JSON.parse]. *)
Definition stringify (messages : list (Message Z)) : option jsstring :=
  Some [N.pos (encode messages)].

Definition parse (text : jsstring) : option (list (Message Z)) :=
  match text with
  | [N.pos p] => decode p
  | _ => None
  end.

(** A storage without quota, and one that accepts nothing. *)
Definition unlimited (_ : gmap jsstring jsstring) (_ _ : jsstring) : bool :=
  true.
Definition full (_ : gmap jsstring jsstring) (_ _ : jsstring) : bool :=
  false.

Definition empty_storage : Storage.LocalStorage :=
  {| Storage.items := ∅; Storage.accessible := true |}.

(** The storage that holds the serialisation of [messages]. *)
Definition storage_of (messages : list (Message Z)) : Storage.LocalStorage :=
  {| Storage.items :=
       {[ Storage.STORAGE_KEY := [N.pos (encode messages)] ]};
     Storage.accessible := true |}.

Definition blocked_storage : Storage.LocalStorage :=
  {| Storage.items := ∅; Storage.accessible := false |}.

Definition corrupt_storage : Storage.LocalStorage :=
  {| Storage.items := {[ Storage.STORAGE_KEY := js "[{" ]};
     Storage.accessible := true |}.

(** Time values are written as their decimal digits; the zone is UTC. *)
Definition Date_parse (s : jsstring) : option Z :=
  if decide (s = js "2024-12-31T23:59:59.000Z") then Some 1735689599000
  else if decide (s = js "2025-01-01T00:00:00.000Z") then Some 1735689600000
  else None.

Definition UTC (_ : Z) : Z := 0.

Definition message (id text : string) (time : string) : Message Z :=
  {| Msg.message_id := js id;
     Msg.userName := js "Alice";
     Msg.message := js text;
     Msg.timestamp := js time;
     Msg.emotion := None;
     Msg.node_position := None;
     Msg.treePart := None;
     Msg.position := None;
     Msg.glowIntensity := None |}.

Definition old_message : Message Z :=
  message "m1" "first" "2024-12-31T23:59:59.000Z".
Definition new_message : Message Z :=
  message "m1" "second" "2025-01-01T00:00:00.000Z".

(** A message of the emotion variant. *)
Definition emotion_message (id : string) (emotion : option string)
    : Message Z :=
  {| Msg.message_id := js id;
     Msg.userName := js "Alice";
     Msg.message := js "hi";
     Msg.timestamp := js "2025-01-01T00:00:00.000Z";
     Msg.emotion := js <$> emotion;
     Msg.node_position := None;
     Msg.treePart := None;
     Msg.position := None;
     Msg.glowIntensity := None |}.

Definition Math_random_stream (n : nat) : Z := Z.of_nat n.
Definition performance_now_stream (n : nat) : Z := 16 * Z.of_nat n.

Definition empty_world : Scene.World Z :=
  {| Scene.cells := []; Scene.random_calls := 0; Scene.clock_reads := 0;
     Scene.frames := []; Scene.objects := []; Scene.scene := [];
     Scene.nodes := ∅; Scene.meshes := ∅; Scene.time := 0 |}.

End Example.

(** The persisted value: what [JSON.parse] makes of the text under the key
    of the messages; the empty array when there is no text, when the
    storage cannot be read, or when the text is not JSON. *)
Definition persisted_value {F : Type}
    (JSON_parse : jsstring → option (JSON.Value F))
    (st : Storage.LocalStorage) : JSON.Value F :=
  if Storage.accessible st then
    match Storage.items st !! Storage.STORAGE_KEY with
    | Some (c :: text) => default (JSON.Array []) (JSON_parse (c :: text))
    | Some [] | None => JSON.Array []
    end
  else JSON.Array [].

(** The storage holds a message array, as far as the two readings of
    [JSON.parse] are concerned: where the one finds messages, the other
    finds the array of their JSON values, and where the one fails so does
    the other. *)
Definition message_store {F : Type}
    (parse_messages : jsstring → option (list (Message F)))
    (JSON_parse : jsstring → option (JSON.Value F))
    (st : Storage.LocalStorage) : Prop :=
  ∀ text,
    Storage.items st !! Storage.STORAGE_KEY = Some text →
    match parse_messages text with
    | Some l => JSON_parse text = Some (JSON.Array (JSON.of_message <$> l))
    | None => JSON_parse text = None
    end.

(** The value survives serialisation: the text that [JSON.stringify]
    makes of it is not empty and [JSON.parse] reads the value back. *)
Definition round_trip {F : Type}
    (JSON_stringify : JSON.Value F → option jsstring)
    (JSON_parse : jsstring → option (JSON.Value F))
    (v : JSON.Value F) : Prop :=
  ∀ text, JSON_stringify v = Some text →
          text ≠ [] ∧ JSON_parse text = Some v.

(** ** Hosts used in the examples on stored JSON values *)
Module JSONExample.

(** [JSON.parse] and [JSON.stringify] on the four values of the examples;
    any other text counts as malformed, any other value as not
    serialisable. *)
Definition parse (text : jsstring) : option (JSON.Value Z) :=
  if decide (text = js "null") then Some JSON.Null
  else if decide (text = js "[]") then Some (JSON.Array [])
  else if decide (text = js "[null]") then Some (JSON.Array [JSON.Null])
  else if decide (text = js "[1]") then Some (JSON.Array [JSON.Number 1])
  else None.

Definition stringify (value : JSON.Value Z) : option jsstring :=
  match value with
  | JSON.Null => Some (js "null")
  | JSON.Array [] => Some (js "[]")
  | JSON.Array [JSON.Null] => Some (js "[null]")
  | JSON.Array [JSON.Number 1] => Some (js "[1]")
  | _ => None
  end.

(** [new Date(value)] on primitive values: [undefined] gives an invalid
    date, [null] the time 0, a number itself, a string what
    [Example.Date_parse] makes of it. *)
Definition new_Date (value : option (JSON.Value Z)) : option Z :=
  match value with
  | Some JSON.Null => Some 0
  | Some (JSON.Boolean b) => Some (if b then 1 else 0)
  | Some (JSON.Number t) => Some t
  | Some (JSON.String s) => Example.Date_parse s
  | Some (JSON.Array _) | Some (JSON.Object _) | None => None
  end.

(** The storage that holds [text] under the key of the messages. *)
Definition storage_with (text : string) : Storage.LocalStorage :=
  {| Storage.items := {[ Storage.STORAGE_KEY := js text ]};
     Storage.accessible := true |}.

End JSONExample.

(** ** Vocabulary of the further properties *)

(** The polynomial in 31 with the code units as coefficients, by Horner's
    rule: [c0 * 31^(n-1) + c1 * 31^(n-2) + ... + c(n-1)]. *)
Definition poly31 (str : jsstring) : Z :=
  fold_left (λ h c, 31 * h + Z.of_N c) str 0.

(** ** utils/storage.js: the settings *)
Module Settings.
Section Store.
Context {F : Type}.
(** The host: the quota policy, and [JSON.stringify] and [JSON.parse]
    ([None] when they throw). *)
Variable quota_ok : gmap jsstring jsstring → jsstring → jsstring → bool.
Variable JSON_stringify : JSON.Value F → option jsstring.
Variable JSON_parse : jsstring → option (JSON.Value F).

Local Open Scope js_scope.

(** [{ weather: 'clear', autoWeather: false }] *)
Definition defaults : JSON.Value F :=
  JSON.Object [(js "weather", JSON.String (js "clear"));
               (js "autoWeather", JSON.Boolean false)].

(** [getSettings()]; [console.error] in the handler is not modelled. *)
Definition getSettings : JS Storage.LocalStorage (JSON.Value F) :=
  try_catch
    (let* data := Storage.getItem Storage.SETTINGS_KEY in
     match data with
     | Some (c :: text) => Storage.host (JSON_parse (c :: text))
     | Some [] | None => ret defaults
     end)
    (ret defaults).

(** [saveSettings(settings)], for settings that are a JSON value *)
Definition saveSettings (settings : JSON.Value F)
    : JS Storage.LocalStorage () :=
  try_catch
    (let* text := Storage.host (JSON_stringify settings) in
     Storage.setItem quota_ok Storage.SETTINGS_KEY text)
    (ret ()).

End Store.
End Settings.

(** ** ui/Yearfruit.js: what [update] shows *)
Module YearfruitDisplay.
Section Store.
Context {F : Type}.
Variable JSON_parse : jsstring → option (list (Message F)).
Variable Date_parse : jsstring → option Z.
Variable LocalTZA : Z → Z.

Local Open Scope js_scope.

(** The first three statements of [update()]: the messages of
    [this.currentYear], their number, and the tier of that number, which the
    rest of the method writes into the page. *)
Definition update_tier (currentYear : Z)
    : JS Storage.LocalStorage (Z * Storage.Tier) :=
  let* yearMessages :=
    Storage.getMessagesForYear JSON_parse Date_parse LocalTZA currentYear in
  let count := Z.of_nat (length yearMessages) in
  let tier := Storage.calculateTier count in
  ret (count, tier).

End Store.
End YearfruitDisplay.

(** The persisted settings: what [JSON.parse] makes of the text under the
    key of the settings (the defaults when there is none). *)
Definition persisted_settings {F : Type}
    (JSON_parse : jsstring → option (JSON.Value F))
    (st : Storage.LocalStorage) : JSON.Value F :=
  if Storage.accessible st then
    match Storage.items st !! Storage.SETTINGS_KEY with
    | Some (c :: text) =>
        default Settings.defaults (JSON_parse (c :: text))
    | Some [] | None => Settings.defaults
    end
  else Settings.defaults.

(** ** scene/Nodes.js: the pointer (both variants) *)
Module Hover.

(** A pending timeout of [onMouseMove]: its id, the time at which it is
    due, and what its callback has captured: the mesh and the coordinates of
    the event. *)
Record Timer (F : Type) : Type := mkTimer {
  timer_id : nat;
  due : Z;
  target : nat;
  clientX : F;
  clientY : F;
}.
Arguments mkTimer {F}.
Arguments timer_id {F} t.
Arguments due {F} t.
Arguments target {F} t.
Arguments clientX {F} t.
Arguments clientY {F} t.

(** A call of [this.onNodeHover]: with a message and coordinates, or with
    [null]. *)
Inductive Call (F : Type) : Type :=
  | Label (message : Message F) (x y : F)
  | Hide.
Arguments Label {F}.
Arguments Hide {F}.

(** The fields of the [NodeSystem] that [onMouseMove] uses, the pending
    timeouts of the page with its clock (in milliseconds), and the calls of
    [onNodeHover] made so far. *)
Record Pointer (F : Type) : Type := mkPointer {
  hoveredNode : option nat;
  hoverTimeout : option nat;
  onNodeHover : bool;
  timers : list (Timer F);
  timers_set : nat;
  now : Z;
  calls : list (Call F);
}.
Arguments mkPointer {F}.
Arguments hoveredNode {F} p.
Arguments hoverTimeout {F} p.
Arguments onNodeHover {F} p.
Arguments timers {F} p.
Arguments timers_set {F} p.
Arguments now {F} p.
Arguments calls {F} p.

Section Pointer.
Context {F : Type}.

(** The state after the constructor; [registered] tells whether the
    application has set [onNodeHover]. *)
Definition initial (registered : bool) : Pointer F :=
  {| hoveredNode := None; hoverTimeout := None; onNodeHover := registered;
     timers := []; timers_set := 0; now := 0; calls := [] |}.

(** [clearTimeout(id)]: nothing happens for [null] or an id that is not
    pending. *)
Definition clearTimeout (id : option nat) (timers : list (Timer F))
    : list (Timer F) :=
  match id with
  | Some id => List.filter (λ t, negb (Nat.eqb (timer_id t) id)) timers
  | None => timers
  end.

(** [if (this.hoverTimeout)]: [null] and 0 are falsy. *)
Definition is_set (id : option nat) : bool :=
  match id with
  | Some (S _) => true
  | Some O | None => false
  end.

(** [onMouseMove(event)].  [hit] is the object of the first intersection
    that the raycaster reports for the pointer, if there is one. *)
Definition onMouseMove (hit : option nat) (x y : F) (p : Pointer F)
    : Pointer F :=
  match hit with
  | Some mesh =>
      if decide (hoveredNode p = Some mesh) then p
      else
        let pending :=
          if is_set (hoverTimeout p)
          then clearTimeout (hoverTimeout p) (timers p)
          else timers p in
        let id := S (timers_set p) in
        {| hoveredNode := Some mesh;
           hoverTimeout := Some id;
           onNodeHover := onNodeHover p;
           timers := pending ++ [ {| timer_id := id; due := now p + 250;
                                     target := mesh;
                                     clientX := x; clientY := y |} ];
           timers_set := id;
           now := now p;
           calls := calls p |}
  | None =>
      match hoveredNode p with
      | Some _ =>
          {| hoveredNode := None;
             hoverTimeout := hoverTimeout p;
             onNodeHover := onNodeHover p;
             timers := clearTimeout (hoverTimeout p) (timers p);
             timers_set := timers_set p;
             now := now p;
             calls := if onNodeHover p then calls p ++ [Hide] else calls p |}
      | None => p
      end
  end.

(** The callback of a timeout: [this.onNodeHover(mesh.userData.message,
    event.clientX, event.clientY)] when [onNodeHover] is set and the mesh
    carries a message. *)
Definition reveal (w : Scene.World F) (registered : bool) (t : Timer F)
    : list (Call F) :=
  if registered then
    match Scene.objects w !! target t with
    | Some o =>
        match Scene.userData o with
        | Some u => [Label (Scene.message F u) (clientX t) (clientY t)]
        | None => []
        end
    | None => []
    end
  else [].

(** [elapsed] milliseconds pass: the timeouts that are due run, in the
    order in which they were set. *)
Definition elapse (w : Scene.World F) (elapsed : Z) (p : Pointer F)
    : Pointer F :=
  let now := now p + elapsed in
  let ready := List.filter (λ t, due t <=? now) (timers p) in
  let waiting := List.filter (λ t, negb (due t <=? now)) (timers p) in
  {| hoveredNode := hoveredNode p;
     hoverTimeout := hoverTimeout p;
     onNodeHover := onNodeHover p;
     timers := waiting;
     timers_set := timers_set p;
     now := now;
     calls := calls p ++ concat (reveal w (onNodeHover p) <$> ready) |}.

Inductive Event : Type :=
  | MouseMove (hit : option nat) (x y : F)
  | Elapse (elapsed : Z).

Definition step (w : Scene.World F) (p : Pointer F) (e : Event)
    : Pointer F :=
  match e with
  | MouseMove hit x y => onMouseMove hit x y p
  | Elapse elapsed => elapse w elapsed p
  end.

Definition run (w : Scene.World F) (p : Pointer F) (events : list Event)
    : Pointer F :=
  fold_left (step w) events p.

(** The pointer stays on [mesh]: time passes, or the mouse moves over the
    same mesh. *)
Definition stays_on (mesh : nat) (e : Event) : Prop :=
  match e with
  | MouseMove hit _ _ => hit = Some mesh
  | Elapse elapsed => 0 ≤ elapsed
  end.

(** The time that passes during the events. *)
Definition duration (events : list Event) : Z :=
  foldr (λ e total,
           match e with
           | Elapse elapsed => elapsed + total
           | MouseMove _ _ _ => total
           end) 0 events.

(** No mouse event among the events. *)
Definition idle (e : Event) : Prop :=
  match e with
  | MouseMove _ _ _ => False
  | Elapse elapsed => 0 ≤ elapsed
  end.

(** At most one timeout is pending; it is the one that [hoverTimeout]
    names, and it is for the hovered mesh. *)
Definition at_most_one_pending (p : Pointer F) : Prop :=
  timers p = [] ∨
  ∃ t, timers p = [t] ∧
       hoverTimeout p = Some (timer_id t) ∧
       hoveredNode p = Some (target t) ∧
       (0 < timer_id t)%nat.

End Pointer.
End Hover.

(** A call of [addNode] for [m] from [w] that returned [r] and left [w1]
    has not touched the nodes of other ids, and [getNodeByMessageId] finds
    the node of [m]. *)
Definition others_untouched {F : Type} (m : Message F)
    (w : Scene.World F) (r : option nat) (w1 : Scene.World F) : Prop :=
  (∀ mesh, r = Some mesh →
           Scene.meshes w !! Msg.message_id m = None ∧
           Scene.getNodeByMessageId (Msg.message_id m) w1
           = Normal (Some mesh) w1) ∧
  (r = None → w1 = w) ∧
  (∀ id, id ≠ Msg.message_id m →
         Scene.getNodeByMessageId id w1 = Normal (Scene.meshes w !! id) w1 ∧
         Scene.nodes w1 !! id = Scene.nodes w !! id ∧
         live_nodes w1 id = live_nodes w id).

(** ** ui/Composer.js and main.js (inscription variant) *)
Module Composer.

(** The code units that [String.prototype.trim] removes: the white space
    and the line terminators of ECMA-262. *)
Definition WhiteSpace : list N :=
  [ 0x9; 0xA; 0xB; 0xC; 0xD; 0x20; 0xA0; 0x1680;
    0x2000; 0x2001; 0x2002; 0x2003; 0x2004; 0x2005; 0x2006; 0x2007;
    0x2008; 0x2009; 0x200A; 0x2028; 0x2029; 0x202F; 0x205F; 0x3000;
    0xFEFF ]%N.

Fixpoint trimStart (s : jsstring) : jsstring :=
  match s with
  | c :: rest => if decide (c ∈ WhiteSpace) then trimStart rest else s
  | [] => []
  end.

Definition trim (s : jsstring) : jsstring :=
  reverse (trimStart (reverse (trimStart s))).

(** [s.substring(2, 8)] *)
Definition substring_2_8 (s : jsstring) : jsstring := take 6 (drop 2 s).

Inductive Element : Type := NameInput | MessageTextarea | SubmitButton.

(** The calls of [showError] and [showSuccessAnimation]. *)
Inductive Feedback : Type :=
  | ShowError (element : Element) (message : jsstring)
  | ShowSuccess.

(** What the composer and its callback in main.js work on: the two inputs
    of the form, the storage, the world of the [NodeSystem], the number of
    times the date has been read, and the feedback shown so far. *)
Record App (F : Type) : Type := mkApp {
  nameInput : jsstring;
  messageTextarea : jsstring;
  localStorage : Storage.LocalStorage;
  world : Scene.World F;
  date_reads : nat;
  feedback : list Feedback;
}.
Arguments mkApp {F}.
Arguments nameInput {F} a.
Arguments messageTextarea {F} a.
Arguments localStorage {F} a.
Arguments world {F} a.
Arguments date_reads {F} a.
Arguments feedback {F} a.

Section Composer.
Context {F : Type} `{JSNumber F}.
(** The host: the storage and its codec ([parse_messages] is [JSON.parse]
    on a text that holds a message array, as in [Storage]), the random
    numbers and the clock of the animations, the dates that successive
    reads yield (time values), and the conversions of numbers and dates to
    text. *)
Variable quota_ok : gmap jsstring jsstring → jsstring → jsstring → bool.
Variable JSON_stringify : JSON.Value F → option jsstring.
Variable JSON_parse : jsstring → option (JSON.Value F).
Variable parse_messages : jsstring → option (list (Message F)).
Variable Math_random_stream : nat → F.
Variable performance_now_stream : nat → F.
Variable Date_now_stream : nat → Z.
Variable integer_toString36 : Z → jsstring.
Variable number_toString36 : F → jsstring.
Variable toISOString : Z → jsstring.

Local Open Scope js_scope.

(** Code of the scene and of utils/hash.js run in the application. *)
Definition in_world {A} (m : JS (Scene.World F) A) : JS (App F) A :=
  λ a,
    let app w :=
      {| nameInput := nameInput a; messageTextarea := messageTextarea a;
         localStorage := localStorage a; world := w;
         date_reads := date_reads a; feedback := feedback a |} in
    match m (world a) with
    | Normal r w => Normal r (app w)
    | Abrupt w => Abrupt (app w)
    end.

(** Code of utils/storage.js run in the application. *)
Definition in_storage {A} (m : JS Storage.LocalStorage A) : JS (App F) A :=
  λ a,
    let app st :=
      {| nameInput := nameInput a; messageTextarea := messageTextarea a;
         localStorage := st; world := world a;
         date_reads := date_reads a; feedback := feedback a |} in
    match m (localStorage a) with
    | Normal r st => Normal r (app st)
    | Abrupt st => Abrupt (app st)
    end.

(** [Date.now()] and the time value of [new Date()]. *)
Definition read_date : JS (App F) Z :=
  λ a, Normal (Date_now_stream (date_reads a))
         {| nameInput := nameInput a; messageTextarea := messageTextarea a;
            localStorage := localStorage a; world := world a;
            date_reads := S (date_reads a); feedback := feedback a |}.

Definition show (f : Feedback) : JS (App F) () :=
  λ a, Normal ()
         {| nameInput := nameInput a; messageTextarea := messageTextarea a;
            localStorage := localStorage a; world := world a;
            date_reads := date_reads a; feedback := feedback a ++ [f] |}.

(** [this.messageTextarea.value = ''] *)
Definition clear_textarea : JS (App F) () :=
  λ a, Normal ()
         {| nameInput := nameInput a; messageTextarea := [];
            localStorage := localStorage a; world := world a;
            date_reads := date_reads a; feedback := feedback a |}.

(** [generateMessageId()] of utils/hash.js *)
Definition generateMessageId : JS (App F) jsstring :=
  let* now := read_date in
  let timestamp := integer_toString36 now in
  let* r := in_world (Scene.Math_random Math_random_stream) in
  let randomPart := substring_2_8 (number_toString36 r) in
  ret (timestamp ++ js "-" ++ randomPart).

(** [handleSubmit()]; the timers of [showError] and
    [showSuccessAnimation], which restore the styles, are not modelled. *)
Definition handleSubmit
    (onMessageSubmit : option (Message F → JS (App F) ()))
    : JS (App F) () :=
  let* a := get in
  let userName := trim (nameInput a) in
  let messageText := trim (messageTextarea a) in
  match userName, messageText with
  | [], _ => show (ShowError NameInput (js "Please enter your name"))
  | _ :: _, [] =>
      show (ShowError MessageTextarea (js "Please enter a message"))
  | _ :: _, _ :: _ =>
      let* messageId := generateMessageId in
      let* date := read_date in
      let timestamp := toISOString date in
      let* placement :=
        in_world
          (Scene.with_cells (Hash.getMessagePlacement userName messageId)) in
      let message :=
        {| Msg.message_id := messageId;
           Msg.userName := userName;
           Msg.message := messageText;
           Msg.timestamp := timestamp;
           Msg.emotion := None;
           Msg.node_position := None;
           Msg.treePart := Hash.treePart placement;
           Msg.position := Some (Hash.position placement);
           Msg.glowIntensity := Some (Hash.glowIntensity placement) |} in
      let* saved :=
        in_storage
          (JSONStorage.saveMessage quota_ok JSON_stringify JSON_parse
             (JSON.of_message message)) in
      if saved then
        let* _ :=
          match onMessageSubmit with
          | Some callback => callback message
          | None => ret ()
          end in
        let* _ := clear_textarea in
        show ShowSuccess
      else
        show (ShowError SubmitButton (js "Failed to save message"))
  end.

(** [onNewMessage(message)] of main.js; [console.log] is not modelled. *)
Definition onNewMessage (message : Message F) : JS (App F) () :=
  let* _ :=
    in_world
      (InscriptionNodes.addNode Math_random_stream performance_now_stream
         message) in
  ret ().

(** [loadExistingMessages()] of main.js, for a storage that holds a
    message array: [getAllMessages] as [Storage] has it. *)
Definition loadExistingMessages : JS (App F) () :=
  let* messages := in_storage (Storage.getAllMessages parse_messages) in
  in_world
    (InscriptionNodes.loadNodes Math_random_stream performance_now_stream
       messages).

End Composer.
End Composer.

(** Two states of the application that differ only in what the hosts have
    handed out (random numbers, dates, closures): the same form, the same
    storage, the same feedback and the same nodes. *)
Definition same_app {F : Type} (a a' : Composer.App F) : Prop :=
  Composer.nameInput a' = Composer.nameInput a ∧
  Composer.messageTextarea a' = Composer.messageTextarea a ∧
  Composer.localStorage a' = Composer.localStorage a ∧
  Composer.feedback a' = Composer.feedback a ∧
  same_nodes (Composer.world a) (Composer.world a').

(** ** Hosts used in the examples of the further properties *)
Module MoreExamples.

(** A settings object. *)
Definition settings (weather : string) (autoWeather : bool)
    : JSON.Value Z :=
  JSON.Object [(js "weather", JSON.String (js weather));
               (js "autoWeather", JSON.Boolean autoWeather)].

(** A serialisation of settings objects, with its inverse; it stands for
    [JSON.stringify] and [JSON.parse] on settings. *)
Definition settings_stringify (value : JSON.Value Z) : option jsstring :=
  match value with
  | JSON.Object [(k1, JSON.String w); (k2, JSON.Boolean b)] =>
      if bool_decide (k1 = js "weather" ∧ k2 = js "autoWeather")
      then Some ((if b then 1 else 0)%N :: w)
      else None
  | _ => None
  end.

Definition settings_parse (text : jsstring) : option (JSON.Value Z) :=
  match text with
  | f :: w =>
      if (f <=? 1)%N
      then Some (JSON.Object [(js "weather", JSON.String w);
                              (js "autoWeather", JSON.Boolean (f =? 1)%N)])
      else None
  | [] => None
  end.

(** [JSON.parse] on the texts that [Example.stringify] writes: the array
    of the JSON values of the messages. *)
Definition parse_json (text : jsstring) : option (JSON.Value Z) :=
  (λ l, JSON.Array (JSON.of_message <$> l)) <$> Example.parse text.

(** [JSON.stringify] on an array of message objects: the text that
    [Example.stringify] writes for the messages; any other value counts as
    not serialisable. *)
Definition stringify_json (value : JSON.Value Z) : option jsstring :=
  match value with
  | JSON.Array elements =>
      mapM JSON.to_message elements ≫= Example.stringify
  | _ => None
  end.

(** The clock stands at the second instant that [Example.Date_parse] knows;
    [toISOString] is the inverse of [Example.Date_parse] there. *)
Definition Date_now_stream (_ : nat) : Z := 1735689600000.

Definition toISOString (t : Z) : jsstring :=
  if decide (t = 1735689599000) then js "2024-12-31T23:59:59.000Z"
  else js "2025-01-01T00:00:00.000Z".

(** [toString(36)] of a non-negative integer; the numbers of
    [Example.numbers] are integers. *)
Definition digit36 (d : Z) : N :=
  if d <? 10 then Z.to_N (48 + d) else Z.to_N (87 + d).

Fixpoint digits36 (fuel : nat) (n : Z) (acc : jsstring) : jsstring :=
  match fuel with
  | O => acc
  | S fuel =>
      let acc := digit36 (n mod 36) :: acc in
      if n / 36 =? 0 then acc else digits36 fuel (n / 36) acc
  end.

Definition toString36 (n : Z) : jsstring := digits36 64 n [].

(** The application with a form filled as given, over the empty world. *)
Definition app (name text : string) (st : Storage.LocalStorage)
    : Composer.App Z :=
  {| Composer.nameInput := js name;
     Composer.messageTextarea := js text;
     Composer.localStorage := st;
     Composer.world := Example.empty_world;
     Composer.date_reads := 0;
     Composer.feedback := [] |}.

End MoreExamples.

(** * Laws of completions *)

Lemma bind_Normal {S A B} (m : JS S A) (k : A → JS S B) s a s' :
  m s = Normal a s' → bind m k s = k a s'.
Proof. intros E. unfold bind. by rewrite E. Qed.

Lemma bind_Abrupt {S A B} (m : JS S A) (k : A → JS S B) s s' :
  m s = Abrupt s' → bind m k s = Abrupt s'.
Proof. intros E. unfold bind. by rewrite E. Qed.

Lemma Normal_inj {S A} (a b : A) (s s' : S) :
  Normal a s = Normal b s' → a = b ∧ s = s'.
Proof. by intros [= -> ->]. Qed.

Lemma bind_assoc {S A B C} (m : JS S A) (k : A → JS S B) (k' : B → JS S C)
    s :
  bind (bind m k) k' s = bind m (λ a, bind (k a) k') s.
Proof. unfold bind. by destruct (m s). Qed.

Lemma try_catch_Normal {S A} (m h : JS S A) s a s' :
  m s = Normal a s' → try_catch m h s = Normal a s'.
Proof. intros E. unfold try_catch. by rewrite E. Qed.

Lemma try_catch_Abrupt {S A} (m h : JS S A) s s' :
  m s = Abrupt s' → try_catch m h s = h s'.
Proof. intros E. unfold try_catch. by rewrite E. Qed.

(** * Properties of utils/hash.js *)
Section HashFacts.
Context {F : Type} `{JSNumber F}.

Lemma ToInt32_range n : - 2 ^ 31 ≤ ToInt32 n < 2 ^ 31.
Proof. unfold ToInt32. pose proof (Z.mod_pos_bound (n + 2 ^ 31) (2 ^ 32)). lia. Qed.

Lemma ToInt32_id n : - 2 ^ 31 ≤ n < 2 ^ 31 → ToInt32 n = n.
Proof.
  intros Hn. unfold ToInt32.
  rewrite Z.mod_small by lia. lia.
Qed.

(** [hash & hash] is the conversion of [hash] to a 32-bit integer. *)
Lemma band_diag n : band n n = ToInt32 n.
Proof. unfold band. apply Z.land_diag. Qed.

Lemma hashCode_nonneg str : 0 ≤ Hash.hashCode str.
Proof. unfold Hash.hashCode. apply Z.abs_nonneg. Qed.

(** The accumulator is a 32-bit integer throughout the loop, so the result
    lies between [0] and [2^31]. *)
Lemma hash_loop_range str h :
  - 2 ^ 31 ≤ h < 2 ^ 31 →
  - 2 ^ 31 ≤ fold_left Hash.hash_step str h < 2 ^ 31.
Proof.
  revert h. induction str as [|c str IH]; intros h Hh; simpl; [done|].
  apply IH. unfold Hash.hash_step. rewrite band_diag. apply ToInt32_range.
Qed.

Lemma hashCode_range str : 0 ≤ Hash.hashCode str ≤ 2 ^ 31.
Proof.
  unfold Hash.hashCode.
  pose proof (hash_loop_range str 0 ltac:(lia)). lia.
Qed.

(** The sums of the loop body stay within the integers that a double
    represents exactly, so that computing them in [Z] loses nothing. *)
Lemma hash_step_exact h c :
  - 2 ^ 31 ≤ h < 2 ^ 31 → (c < 65536)%N →
  - 2 ^ 53 < shl h 5 - h + Z.of_N c < 2 ^ 53.
Proof.
  intros Hh Hc. unfold shl.
  pose proof (ToInt32_range (Z.shiftl (ToInt32 h) (Z.land 5 31))). lia.
Qed.

(** [seed % TREE_PARTS.length] selects one of the four parts. *)
Lemma partIndex_lookup seed :
  0 ≤ seed →
  Z.rem seed (Z.of_nat (length Hash.TREE_PARTS)) = seed mod 4 ∧
  ∃ part, Hash.index Hash.TREE_PARTS (seed mod 4) = Some part ∧
          part ∈ Hash.TREE_PARTS.
Proof.
  intros Hseed. split.
  - apply Z.rem_mod_nonneg; simpl; lia.
  - pose proof (Z.mod_pos_bound seed 4 ltac:(lia)) as Hr.
    unfold Hash.index. rewrite decide_True by lia.
    destruct (Hash.TREE_PARTS !! Z.to_nat (seed mod 4)) as [part|] eqn:Hp.
    + exists part. split; [done|]. by eapply list_elem_of_lookup_2.
    + apply lookup_ge_None in Hp. simpl in Hp. lia.
Qed.

(** Two closure stores agree on two closures when the captured variables
    hold the same number. *)
Definition agree (r1 : nat) (c1 : list F) (r2 : nat) (c2 : list F) : Prop :=
  ∃ s, c1 !! r1 = Some s ∧ c2 !! r2 = Some s.

Lemma seededRandom_agree seed (c1 c2 : list F) :
  ∃ r1 c1' r2 c2',
    Hash.seededRandom seed c1 = Normal r1 c1' ∧
    Hash.seededRandom seed c2 = Normal r2 c2' ∧
    agree r1 c1' r2 c2'.
Proof.
  unfold Hash.seededRandom. do 4 eexists. split; [done|]. split; [done|].
  exists (of_Z seed). split; apply list_lookup_middle; done.
Qed.

Lemma call_agree r1 (c1 : list F) r2 c2 :
  agree r1 c1 r2 c2 →
  ∃ v c1' c2',
    Hash.call r1 c1 = Normal v c1' ∧
    Hash.call r2 c2 = Normal v c2' ∧
    agree r1 c1' r2 c2'.
Proof.
  intros (s & H1 & H2). unfold Hash.call. rewrite H1, H2.
  do 3 eexists. split; [done|]. split; [done|].
  eexists. split; apply list_lookup_insert_eq; by eapply lookup_lt_Some.
Qed.

(** One draw on each side of two stores that agree. *)
Ltac draw Hag :=
  let v := fresh "v" in
  let E1 := fresh "E1" in
  let E2 := fresh "E2" in
  destruct (call_agree _ _ _ _ Hag) as (v & ? & ? & E1 & E2 & ?);
  rewrite (bind_Normal _ _ _ _ _ E1), (bind_Normal _ _ _ _ _ E2);
  clear E1 E2 Hag.

Lemma getPositionForTreePart_agree part seed r1 (c1 : list F) r2 c2 :
  agree r1 c1 r2 c2 →
  ∃ v c1' c2',
    Hash.getPositionForTreePart part r1 seed c1 = Normal v c1' ∧
    Hash.getPositionForTreePart part r2 seed c2 = Normal v c2' ∧
    agree r1 c1' r2 c2'.
Proof.
  intros Hag. unfold Hash.getPositionForTreePart.
  repeat case_decide.
  - draw Hag. unfold ret. eauto 7.
  - draw Hag. match goal with Hag' : agree _ _ _ _ |- _ => draw Hag' end.
    unfold ret. eauto 7.
  - draw Hag. match goal with Hag' : agree _ _ _ _ |- _ => draw Hag' end.
    unfold ret. eauto 7.
  - draw Hag. match goal with Hag' : agree _ _ _ _ |- _ => draw Hag' end.
    unfold ret. eauto 7.
  - unfold ret. eauto 7.
Qed.

(** From any two closure stores, [getMessagePlacement] returns the same
    placement. *)
Lemma getMessagePlacement_agree userName messageId (c1 c2 : list F) :
  ∃ p c1' c2',
    Hash.getMessagePlacement userName messageId c1 = Normal p c1' ∧
    Hash.getMessagePlacement userName messageId c2 = Normal p c2' ∧
    Hash.treePart p =
      Hash.index Hash.TREE_PARTS
        (Z.rem (Hash.hashCode (userName ++ messageId))
           (Z.of_nat (length Hash.TREE_PARTS))).
Proof.
  unfold Hash.getMessagePlacement.
  set (seed := Hash.hashCode (userName ++ messageId)).
  destruct (seededRandom_agree seed c1 c2)
    as (r1 & c1' & r2 & c2' & E1 & E2 & Hag).
  rewrite (bind_Normal _ _ _ _ _ E1), (bind_Normal _ _ _ _ _ E2).
  clear E1 E2.
  set (part := Hash.index _ _).
  destruct (getPositionForTreePart_agree part seed _ _ _ _ Hag)
    as (pos & d1 & d2 & E1 & E2 & Hag').
  rewrite (bind_Normal _ _ _ _ _ E1), (bind_Normal _ _ _ _ _ E2).
  clear E1 E2.
  draw Hag'. unfold ret. eauto 7.
Qed.

(** The canopy position of the first version is equally independent of the
    store. *)
Lemma getNodePosition_agree userName messageId (c1 c2 : list F) :
  ∃ p c1' c2',
    Canopy.getNodePosition userName messageId c1 = Normal p c1' ∧
    Canopy.getNodePosition userName messageId c2 = Normal p c2'.
Proof.
  unfold Canopy.getNodePosition.
  set (seed := Hash.hashCode (userName ++ messageId)).
  destruct (seededRandom_agree seed c1 c2)
    as (r1 & c1' & r2 & c2' & E1 & E2 & Hag).
  rewrite (bind_Normal _ _ _ _ _ E1), (bind_Normal _ _ _ _ _ E2).
  clear E1 E2.
  draw Hag. match goal with Hag' : agree _ _ _ _ |- _ => draw Hag' end.
  unfold ret. eauto 7.
Qed.

(** C1. Placement determinism: the placement that
    [getMessagePlacement(userName, messageId)] returns (tree part, position
    and glow intensity) is fixed by the two strings.  Whatever closures
    earlier calls have created and advanced, the call returns, and it
    returns the same placement; in particular a second call made after the
    first returns what the first returned. *)
Theorem getMessagePlacement_deterministic (userName messageId : jsstring) :
  ∃ p : Hash.Placement F,
    (∀ cells : list F,
       ∃ cells', Hash.getMessagePlacement userName messageId cells
                 = Normal p cells') ∧
    (∀ cells : list F,
       (let* p1 := Hash.getMessagePlacement userName messageId in
        let* p2 := Hash.getMessagePlacement userName messageId in
        ret (p1, p2))%js cells
       = Normal (p, p)
           (state_of
              (Hash.getMessagePlacement userName messageId
                 (state_of
                    (Hash.getMessagePlacement userName messageId cells))))).
Proof.
  destruct (getMessagePlacement_agree userName messageId [] [])
    as (p & c0 & _ & E0 & _ & _).
  assert (Hany : ∀ cells : list F,
             ∃ cells', Hash.getMessagePlacement userName messageId cells
                       = Normal p cells').
  { intros cells.
    destruct (getMessagePlacement_agree userName messageId [] cells)
      as (q & d0 & cells' & D0 & D & _).
    rewrite E0 in D0. injection D0 as <- <-. eauto. }
  exists p. split; [exact Hany|].
  intros cells. destruct (Hany cells) as (cells' & E).
  destruct (Hany cells') as (cells'' & E').
  unfold bind. rewrite E. simpl. rewrite E'. reflexivity.
Qed.

End HashFacts.

(** C2. The category is a function of the seed alone:
    [getMessagePlacement(userName, messageId).treePart] is the element at
    index [hashCode(userName + messageId) mod 4] of
    [['trunk', 'branch', 'leaf', 'root']].  The numeric operations, and with
    them every value drawn from the seeded stream, are arbitrary here: with
    two different hosts and from two different closure stores the tree part
    is the same. *)
Theorem treePart_from_seed (userName messageId : jsstring) :
  ∃ part : jsstring,
    Hash.TREE_PARTS = [js "trunk"; js "branch"; js "leaf"; js "root"] ∧
    Hash.index Hash.TREE_PARTS
      (Hash.hashCode (userName ++ messageId) mod 4) = Some part ∧
    ∀ (F : Type) (numbers : JSNumber F) (cells : list F),
      ∃ p cells',
        Hash.getMessagePlacement userName messageId cells = Normal p cells' ∧
        Hash.treePart p = Some part.
Proof.
  destruct (partIndex_lookup (Hash.hashCode (userName ++ messageId))
              (hashCode_nonneg _)) as (Hrem & part & Hpart & _).
  exists part. split; [reflexivity|]. split; [exact Hpart|].
  intros F numbers cells.
  destruct (getMessagePlacement_agree userName messageId cells cells)
    as (p & c1 & _ & E & _ & Hp).
  exists p, c1. split; [exact E|].
  rewrite Hp, Hrem. exact Hpart.
Qed.

(** * Properties of the tier calculator *)

Lemma calculateTier_cases count :
  (count < 100000 ∧ Storage.tier (Storage.calculateTier count) = js "Red") ∨
  (100000 ≤ count < 1000000 ∧
   Storage.tier (Storage.calculateTier count) = js "Silver") ∨
  (1000000 ≤ count < 10000000 ∧
   Storage.tier (Storage.calculateTier count) = js "Gold") ∨
  (10000000 ≤ count < 100000000 ∧
   Storage.tier (Storage.calculateTier count) = js "Runic") ∨
  (100000000 ≤ count ∧
   Storage.tier (Storage.calculateTier count) = js "White").
Proof.
  unfold Storage.calculateTier.
  destruct (Z.geb_spec count 100000000); [right; right; right; right; split; [lia|done]|].
  destruct (Z.geb_spec count 10000000); [right; right; right; left; split; [lia|done]|].
  destruct (Z.geb_spec count 1000000); [right; right; left; split; [lia|done]|].
  destruct (Z.geb_spec count 100000); [right; left; split; [lia|done]|].
  left. split; [lia|done].
Qed.

(** The tier of a count is the last entry of the threshold table whose
    threshold the count has reached. *)
Lemma calculateTier_table count :
  0 ≤ count →
  ∃ (i : nat) info,
    Yearfruit.getTierInfo !! i = Some info ∧
    Yearfruit.tier info = Storage.tier (Storage.calculateTier count) ∧
    Yearfruit.threshold info ≤ count ∧
    ∀ (j : nat) later, (i < j)%nat → Yearfruit.getTierInfo !! j = Some later →
                       count < Yearfruit.threshold later.
Proof.
  intros Hcount.
  destruct (calculateTier_cases count)
    as [[Hc ->]|[[Hc ->]|[[Hc ->]|[[Hc ->]|[Hc ->]]]]].
  - exists 0%nat. eexists. split; [reflexivity|]. simpl. repeat split; [lia|].
    intros [|[|[|[|[|j]]]]] later Hj E; simpl in E; try lia;
      try (injection E as <-; simpl; lia); done.
  - exists 1%nat. eexists. split; [reflexivity|]. simpl. repeat split; [lia|].
    intros [|[|[|[|[|j]]]]] later Hj E; simpl in E; try lia;
      try (injection E as <-; simpl; lia); done.
  - exists 2%nat. eexists. split; [reflexivity|]. simpl. repeat split; [lia|].
    intros [|[|[|[|[|j]]]]] later Hj E; simpl in E; try lia;
      try (injection E as <-; simpl; lia); done.
  - exists 3%nat. eexists. split; [reflexivity|]. simpl. repeat split; [lia|].
    intros [|[|[|[|[|j]]]]] later Hj E; simpl in E; try lia;
      try (injection E as <-; simpl; lia); done.
  - exists 4%nat. eexists. split; [reflexivity|]. simpl. repeat split; [lia|].
    intros [|[|[|[|[|j]]]]] later Hj E; simpl in E; try lia; done.
Qed.

(** C4. Tier thresholds and monotonicity: a larger count never has a lower
    tier in the order Red, Silver, Gold, Runic, White of the threshold
    table, and the tier changes exactly at the thresholds: 0 and 99999 are
    Red, 100000 is Silver, 1000000 is Gold, 10000000 is Runic, 100000000 is
    White, and the count just below each threshold still has the tier
    before. *)
Theorem calculateTier_monotone_thresholds (count1 count2 : Z) :
  count1 ≤ count2 →
  tier_le (Storage.calculateTier count1) (Storage.calculateTier count2) ∧
  Storage.tier (Storage.calculateTier 0) = js "Red" ∧
  Storage.tier (Storage.calculateTier 99999) = js "Red" ∧
  Storage.tier (Storage.calculateTier 100000) = js "Silver" ∧
  Storage.tier (Storage.calculateTier 999999) = js "Silver" ∧
  Storage.tier (Storage.calculateTier 1000000) = js "Gold" ∧
  Storage.tier (Storage.calculateTier 9999999) = js "Gold" ∧
  Storage.tier (Storage.calculateTier 10000000) = js "Runic" ∧
  Storage.tier (Storage.calculateTier 99999999) = js "Runic" ∧
  Storage.tier (Storage.calculateTier 100000000) = js "White".
Proof.
  intros Hle. split; [|repeat split].
  unfold tier_le.
  destruct (calculateTier_cases count1)
    as [[H1 ->]|[[H1 ->]|[[H1 ->]|[[H1 ->]|[H1 ->]]]]];
  destruct (calculateTier_cases count2)
    as [[H2 ->]|[[H2 ->]|[[H2 ->]|[[H2 ->]|[H2 ->]]]]];
  try lia;
  do 2 eexists; (split; [reflexivity|]); (split; [reflexivity|]); lia.
Qed.

Lemma Q_clamp_bounds (q : Q) : (0 <= Qmin (Qmax q 0) 1 <= 1)%Q.
Proof.
  split.
  - apply Q.min_glb; [apply Q.le_max_r|discriminate].
  - apply Q.le_min_r.
Qed.

Lemma Q_clamp_inside (a b : Z) :
  0 ≤ a < b →
  (Qmin (Qmax (inject_Z a / inject_Z b) 0) 1 == inject_Z a / inject_Z b)%Q.
Proof.
  intros Hab.
  assert (Hb : (0 < inject_Z b)%Q).
  { change 0%Q with (inject_Z 0). rewrite <- Zlt_Qlt. lia. }
  assert (H0 : (0 <= inject_Z a / inject_Z b)%Q).
  { apply Qle_shift_div_l; [exact Hb|]. rewrite Qmult_0_l.
    change 0%Q with (inject_Z 0). rewrite <- Zle_Qle. lia. }
  assert (H1 : (inject_Z a / inject_Z b <= 1)%Q).
  { apply Qle_shift_div_r; [exact Hb|]. rewrite Qmult_1_l.
    rewrite <- Zle_Qle. lia. }
  rewrite (Q.max_l _ _ H0). apply Q.min_l. exact H1.
Qed.

(** C9. Progress to the next tier, as a function of the count that
    [getProgressToNextTier] reads: the result names the current tier (the
    tier of [calculateTier]) and the next one, a fraction between 0 and 1
    and the count still missing.  Below the last threshold the fraction is
    the linear interpolation [(count - current) / (next - current)] between
    the thresholds around the count; from 100000000 on there is no next
    tier, the fraction is 1 and nothing remains. *)
Theorem getProgressToNextTier_spec (count : Z) :
  0 ≤ count →
  ∃ p : Yearfruit.Progress,
    Yearfruit.progressFor count = Some p ∧
    Yearfruit.currentTier p = Storage.tier (Storage.calculateTier count) ∧
    (0 <= Yearfruit.progress p <= 1)%Q ∧
    (count < 100000000 →
     ∃ (i : nat) cur nxt,
       Yearfruit.getTierInfo !! i = Some cur ∧
       Yearfruit.getTierInfo !! S i = Some nxt ∧
       Yearfruit.threshold cur ≤ count < Yearfruit.threshold nxt ∧
       Yearfruit.currentTier p = Yearfruit.tier cur ∧
       Yearfruit.nextTier p = Some (Yearfruit.tier nxt) ∧
       (Yearfruit.progress p ==
          inject_Z (count - Yearfruit.threshold cur)
          / inject_Z (Yearfruit.threshold nxt - Yearfruit.threshold cur))%Q ∧
       Yearfruit.remaining p = Yearfruit.threshold nxt - count) ∧
    (100000000 ≤ count →
     Yearfruit.nextTier p = None ∧
     Yearfruit.progress p = 1%Q ∧
     Yearfruit.remaining p = 0).
Proof.
  intros Hcount.
  unfold Yearfruit.progressFor, Yearfruit.getTierInfo.
  cbn [Yearfruit.scan Yearfruit.threshold Yearfruit.tier].
  destruct (calculateTier_cases count)
    as [[Hc ->]|[[Hc ->]|[[Hc ->]|[[Hc ->]|[Hc ->]]]]].
  - rewrite decide_True by lia.
    eexists. split; [reflexivity|]. cbn [Yearfruit.currentTier
      Yearfruit.nextTier Yearfruit.progress Yearfruit.remaining].
    split; [reflexivity|]. split; [apply Q_clamp_bounds|]. split; [|lia].
    intros _. exists 0%nat. do 2 eexists.
    split; [reflexivity|]. split; [reflexivity|]. simpl.
    repeat split; try lia. apply Q_clamp_inside. lia.
  - rewrite decide_False, decide_True by lia.
    eexists. split; [reflexivity|]. cbn [Yearfruit.currentTier
      Yearfruit.nextTier Yearfruit.progress Yearfruit.remaining].
    split; [reflexivity|]. split; [apply Q_clamp_bounds|]. split; [|lia].
    intros _. exists 1%nat. do 2 eexists.
    split; [reflexivity|]. split; [reflexivity|]. simpl.
    repeat split; try lia. apply Q_clamp_inside. lia.
  - rewrite !decide_False, decide_True by lia.
    eexists. split; [reflexivity|]. cbn [Yearfruit.currentTier
      Yearfruit.nextTier Yearfruit.progress Yearfruit.remaining].
    split; [reflexivity|]. split; [apply Q_clamp_bounds|]. split; [|lia].
    intros _. exists 2%nat. do 2 eexists.
    split; [reflexivity|]. split; [reflexivity|]. simpl.
    repeat split; try lia. apply Q_clamp_inside. lia.
  - rewrite !decide_False, decide_True by lia.
    eexists. split; [reflexivity|]. cbn [Yearfruit.currentTier
      Yearfruit.nextTier Yearfruit.progress Yearfruit.remaining].
    split; [reflexivity|]. split; [apply Q_clamp_bounds|]. split; [|lia].
    intros _. exists 3%nat. do 2 eexists.
    split; [reflexivity|]. split; [reflexivity|]. simpl.
    repeat split; try lia. apply Q_clamp_inside. lia.
  - rewrite !decide_False by lia.
    eexists. split; [reflexivity|]. cbn [Yearfruit.currentTier
      Yearfruit.nextTier Yearfruit.progress Yearfruit.remaining].
    split; [reflexivity|]. split; [split; discriminate|]. split; [lia|].
    intros _. done.
Qed.

(** * Properties of the date functions *)

Lemma DayFromYear_step y :
  365 ≤ Date.DayFromYear (y + 1) - Date.DayFromYear y ≤ 366.
Proof. unfold Date.DayFromYear. Z.div_mod_to_equations. lia. Qed.

Lemma DayFromYear_mono y y' :
  y < y' → Date.DayFromYear y < Date.DayFromYear y'.
Proof. unfold Date.DayFromYear. Z.div_mod_to_equations. lia. Qed.

Lemma TimeFromYear_Day y t :
  Date.TimeFromYear y ≤ t ↔ Date.DayFromYear y ≤ Date.Day t.
Proof.
  unfold Date.TimeFromYear, Date.Day, Date.msPerDay.
  generalize (Date.DayFromYear y). intros d.
  Z.div_mod_to_equations. lia.
Qed.

(** The year that [YearFromTime] computes starts at or before [t], and the
    next year starts after [t]. *)
Lemma YearFromTime_bounds t :
  Date.TimeFromYear (Date.YearFromTime t) ≤ t
    < Date.TimeFromYear (Date.YearFromTime t + 1).
Proof.
  assert (Hday : Date.DayFromYear (Date.YearFromTime t) ≤ Date.Day t
                 < Date.DayFromYear (Date.YearFromTime t + 1)).
  { unfold Date.YearFromTime. generalize (Date.Day t). intros d. cbv zeta.
    assert (Hlow : Date.DayFromYear (1970 + 400 * d / 146097 - 1) ≤ d).
    { unfold Date.DayFromYear. Z.div_mod_to_equations. lia. }
    assert (Hhigh : d < Date.DayFromYear (1970 + 400 * d / 146097 + 2)).
    { unfold Date.DayFromYear. Z.div_mod_to_equations. lia. }
    repeat case_decide.
    - replace (1970 + 400 * d / 146097 - 1 + 1)
        with (1970 + 400 * d / 146097) by lia. lia.
    - replace (1970 + 400 * d / 146097 + 1 + 1)
        with (1970 + 400 * d / 146097 + 2) by lia. lia.
    - lia. }
  split.
  - apply TimeFromYear_Day. lia.
  - apply Z.nle_gt. rewrite TimeFromYear_Day. lia.
Qed.

(** [YearFromTime(t)] is the year of the standard: the largest [y] with
    [TimeFromYear(y) ≤ t]. *)
Lemma YearFromTime_largest t y :
  Date.TimeFromYear y ≤ t ↔ y ≤ Date.YearFromTime t.
Proof.
  pose proof (YearFromTime_bounds t) as [Hlo Hhi].
  rewrite TimeFromYear_Day in Hlo. apply Z.nle_gt in Hhi.
  rewrite TimeFromYear_Day in Hhi. rewrite TimeFromYear_Day.
  split; intros Hy.
  - destruct (decide (y ≤ Date.YearFromTime t)) as [|Hgt]; [done|].
    pose proof (DayFromYear_mono (Date.YearFromTime t) y ltac:(lia)).
    destruct (decide (y = Date.YearFromTime t + 1)) as [->|]; [lia|].
    pose proof (DayFromYear_mono (Date.YearFromTime t + 1) y ltac:(lia)).
    lia.
  - destruct (decide (y = Date.YearFromTime t)) as [->|]; [lia|].
    pose proof (DayFromYear_mono y (Date.YearFromTime t) ltac:(lia)). lia.
Qed.

Lemma YearFromTime_spec t y :
  Date.YearFromTime t = y ↔
  Date.TimeFromYear y ≤ t < Date.TimeFromYear (y + 1).
Proof.
  split.
  - intros <-. apply YearFromTime_bounds.
  - intros [Hlo Hhi]. apply YearFromTime_largest in Hlo.
    apply Z.nle_gt in Hhi. rewrite YearFromTime_largest in Hhi. lia.
Qed.

(** A year lasts longer than a second. *)
Lemma TimeFromYear_step y :
  Date.TimeFromYear y + 1000 < Date.TimeFromYear (y + 1).
Proof.
  pose proof (DayFromYear_step y).
  unfold Date.TimeFromYear, Date.msPerDay. lia.
Qed.

(** * Properties of utils/storage.js *)
Section StorageFacts.
Context {F : Type}.
Variable quota_ok : gmap jsstring jsstring → jsstring → jsstring → bool.
Variable JSON_stringify : list (Message F) → option jsstring.
Variable JSON_parse : jsstring → option (list (Message F)).
Variable Date_parse : jsstring → option Z.
Variable LocalTZA : Z → Z.

Local Abbreviation getAllMessages := (Storage.getAllMessages JSON_parse).
Local Abbreviation saveMessage :=
  (Storage.saveMessage quota_ok JSON_stringify JSON_parse).
Local Abbreviation getMessageById := (Storage.getMessageById JSON_parse).
Local Abbreviation getMessageCount := (Storage.getMessageCount JSON_parse).
Local Abbreviation getMessagesForYear :=
  (Storage.getMessagesForYear JSON_parse Date_parse LocalTZA).
Local Abbreviation stored := (persisted JSON_parse).

Lemma getAllMessages_stored st : getAllMessages st = Normal (stored st) st.
Proof.
  unfold Storage.getAllMessages, persisted, try_catch, bind, Storage.getItem.
  destruct (Storage.accessible st); [|done].
  destruct (Storage.items st !! Storage.STORAGE_KEY) as [[|c text]|]; try done.
  unfold Storage.host. by destruct (JSON_parse (c :: text)).
Qed.

(** What [saveMessage] does, by the answers of the host. *)
Lemma saveMessage_cases m st :
  match JSON_stringify (stored st ++ [m]) with
  | Some text =>
      if Storage.accessible st
         && quota_ok (Storage.items st) Storage.STORAGE_KEY text
      then saveMessage m st
           = Normal true
               {| Storage.items :=
                    <[Storage.STORAGE_KEY := text]> (Storage.items st);
                  Storage.accessible := Storage.accessible st |}
      else saveMessage m st = Normal false st
  | None => saveMessage m st = Normal false st
  end.
Proof.
  unfold Storage.saveMessage, try_catch.
  rewrite (bind_Normal _ _ _ _ _ (getAllMessages_stored st)).
  unfold Storage.host.
  destruct (JSON_stringify (stored st ++ [m])) as [text|]; [|done].
  unfold bind, ret, Storage.setItem.
  by destruct (Storage.accessible st && quota_ok _ _ text).
Qed.

Lemma saveMessage_Normal m st :
  ∃ ok st', saveMessage m st = Normal ok st' ∧ (ok = false → st' = st).
Proof.
  pose proof (saveMessage_cases m st) as Hcases.
  destruct (JSON_stringify (stored st ++ [m])) as [text|].
  - destruct (Storage.accessible st && quota_ok _ _ text).
    + do 2 eexists. split; [exact Hcases|done].
    + do 2 eexists. split; [exact Hcases|done].
  - do 2 eexists. split; [exact Hcases|done].
Qed.

Lemma find_app_fresh {A} (test : A → bool) l a :
  (∀ b, b ∈ l → test b = false) → test a = true →
  Storage.find test (l ++ [a]) = Some a.
Proof.
  intros Hl Ha. induction l as [|b l IH]; simpl.
  - by rewrite Ha.
  - rewrite (Hl b) by apply list_elem_of_here. apply IH. intros c Hc. apply Hl. by apply list_elem_of_further.
Qed.

Lemma filter_decide {A} (P : A → Prop) `{∀ a, Decision (P a)}
    (test : A → bool) l :
  (∀ a, test a = true ↔ P a) →
  Storage.filter test l = filter P l.
Proof.
  intros Htest. induction l as [|a l IH]; [done|]. simpl.
  destruct (decide (P a)) as [Ha|Ha].
  - rewrite filter_cons_True by done.
    rewrite (proj2 (Htest a) Ha). by f_equal.
  - rewrite filter_cons_False by done.
    destruct (test a) eqn:E; [|done]. by apply Htest in E.
Qed.

Lemma strict_eq_year s year :
  Storage.strict_eq (Date.getFullYear Date_parse LocalTZA s) year = true ↔
  match Date_parse s with
  | Some t =>
      Date.TimeFromYear year ≤ Date.LocalTime LocalTZA t
        < Date.TimeFromYear (year + 1)
  | None => False
  end.
Proof.
  unfold Date.getFullYear, Storage.strict_eq.
  destruct (Date_parse s) as [t|]; [|done].
  rewrite bool_decide_eq_true. apply YearFromTime_spec.
Qed.

(** C7. Year filter: [getMessagesForYear(year)] returns exactly the
    messages of [getAllMessages()] whose timestamp lies in calendar year
    [year] of local time, in stored order.  At the boundary, a message
    stamped 31 December of [year], 23:59:59, belongs to [year] and not to
    the next year, and a message stamped 1 January, 00:00:00, of the next
    year belongs to the next year and not to [year]. *)
Theorem getMessagesForYear_correct (st : Storage.LocalStorage) :
  ∃ all : list (Message F),
    getAllMessages st = Normal all st ∧
    (∀ year,
       getMessagesForYear year st
       = Normal (filter (falls_in_year Date_parse LocalTZA year) all) st) ∧
    (∀ year m t,
       m ∈ all → Date_parse (Msg.timestamp m) = Some t →
       Date.LocalTime LocalTZA t = Date.TimeFromYear (year + 1) - 1000 →
       m ∈ filter (falls_in_year Date_parse LocalTZA year) all ∧
       m ∉ filter (falls_in_year Date_parse LocalTZA (year + 1)) all) ∧
    (∀ year m t,
       m ∈ all → Date_parse (Msg.timestamp m) = Some t →
       Date.LocalTime LocalTZA t = Date.TimeFromYear (year + 1) →
       m ∈ filter (falls_in_year Date_parse LocalTZA (year + 1)) all ∧
       m ∉ filter (falls_in_year Date_parse LocalTZA year) all).
Proof.
  exists (stored st). split; [apply getAllMessages_stored|]. split.
  - intros year. unfold Storage.getMessagesForYear.
    rewrite (bind_Normal _ _ _ _ _ (getAllMessages_stored st)).
    unfold ret. f_equal. apply filter_decide.
    intros m. apply strict_eq_year.
  - pose proof TimeFromYear_step as Hstep.
    split; intros year m t Hm Ht Hlocal;
      rewrite !list_elem_of_filter; unfold falls_in_year; rewrite Ht, Hlocal;
      pose proof (Hstep year); pose proof (Hstep (year + 1)).
    + split; [split; [lia|done]|]. intros [Hin _]. lia.
    + split; [split; [lia|done]|]. intros [Hin _]. lia.
Qed.

(** [getMessageById], [getMessageCount] and [getMessagesForYear] return
    without touching the storage. *)
Lemma readers_Normal st :
  (∀ id, ∃ r, getMessageById id st = Normal r st) ∧
  (∃ n, getMessageCount st = Normal n st) ∧
  (∀ year, ∃ l, getMessagesForYear year st = Normal l st).
Proof.
  unfold Storage.getMessageById, Storage.getMessageCount,
    Storage.getMessagesForYear.
  repeat split; intros;
    rewrite (bind_Normal _ _ _ _ _ (getAllMessages_stored st)); by eexists.
Qed.

Section RoundTrip.
(** [JSON.parse] reads back what [JSON.stringify] wrote, which is never the
    empty string. *)
Hypothesis parse_stringify :
  ∀ l text, JSON_stringify l = Some text →
            text ≠ [] ∧ JSON_parse text = Some l.

(** A successful [saveMessage] appends the message to the stored
    sequence; a failed one changes nothing. *)
Lemma saveMessage_stored m st ok st' :
  saveMessage m st = Normal ok st' →
  stored st' = if ok then stored st ++ [m] else stored st.
Proof.
  intros Hsave. pose proof (saveMessage_cases m st) as Hcases.
  destruct (JSON_stringify (stored st ++ [m])) as [text|] eqn:Htext.
  - destruct (Storage.accessible st && quota_ok _ _ text) eqn:Hok;
      rewrite Hsave in Hcases; injection Hcases as -> ->; [|done].
    apply andb_prop in Hok as [Hacc _].
    destruct (parse_stringify _ _ Htext) as [Hne Hparse].
    unfold persisted at 1. simpl. rewrite Hacc, lookup_insert_eq.
    destruct text; [done|]. by rewrite Hparse.
  - rewrite Hsave in Hcases. by injection Hcases as -> ->.
Qed.

(** C3, as amended. Append and look-up round trip: after a successful
    [saveMessage(m)], [getMessageById(m.message_id)] returns [m], provided
    that no message already in the store has the id of [m]. *)
Theorem saveMessage_getMessageById (m : Message F) (st st' : Storage.LocalStorage) :
  saveMessage m st = Normal true st' →
  (∀ all m', getAllMessages st = Normal all st → m' ∈ all →
             Msg.message_id m' ≠ Msg.message_id m) →
  getMessageById (Msg.message_id m) st' = Normal (Some m) st'.
Proof.
  intros Hsave Hfresh. unfold Storage.getMessageById.
  rewrite (bind_Normal _ _ _ _ _ (getAllMessages_stored st')).
  rewrite (saveMessage_stored _ _ _ _ Hsave). unfold ret. do 2 f_equal.
  apply find_app_fresh.
  - intros m' Hm'. apply bool_decide_eq_false.
    by apply (Hfresh (stored st)); [apply getAllMessages_stored|].
  - by apply bool_decide_eq_true.
Qed.

Lemma saveAll_stored ms st :
  ∃ oks st',
    saveAll quota_ok JSON_stringify JSON_parse ms st = Normal oks st' ∧
    length oks = length ms ∧
    stored st' = stored st ++ accepted ms oks.
Proof.
  revert st. induction ms as [|m ms IH]; intros st; simpl.
  - exists [], st. by rewrite app_nil_r.
  - destruct (saveMessage_Normal m st) as (ok & st1 & Hsave & _).
    destruct (IH st1) as (oks & st' & Hrun & Hlen & Hstored).
    exists (ok :: oks), st'.
    rewrite (bind_Normal _ _ _ _ _ Hsave), (bind_Normal _ _ _ _ _ Hrun).
    split; [done|]. split; [simpl; by rewrite Hlen|].
    rewrite Hstored, (saveMessage_stored _ _ _ _ Hsave).
    destruct ok; [by rewrite <- app_assoc|done].
Qed.

Lemma accepted_sublist {A} (ms : list A) oks : accepted ms oks `sublist_of` ms.
Proof.
  revert oks. induction ms as [|m ms IH]; intros [|[] oks]; simpl;
    try apply sublist_nil_l.
  - by apply sublist_skip.
  - by apply sublist_cons.
Qed.

(** C6, as amended. The store is an ordered, append-only sequence: after
    any run of [saveMessage] calls from the empty store, the stored
    sequence consists of the messages whose call succeeded, in the order of
    the calls.  The store does not compare ids: the stored ids are pairwise
    distinct when the ids of the messages saved are. *)
Theorem saveAll_append_only (ms : list (Message F)) (st : Storage.LocalStorage) :
  getAllMessages st = Normal [] st →
  ∃ oks st',
    saveAll quota_ok JSON_stringify JSON_parse ms st = Normal oks st' ∧
    length oks = length ms ∧
    getAllMessages st' = Normal (accepted ms oks) st' ∧
    accepted ms oks `sublist_of` ms ∧
    (NoDup (Msg.message_id <$> ms) →
     NoDup (Msg.message_id <$> accepted ms oks)).
Proof.
  intros Hempty. rewrite getAllMessages_stored in Hempty.
  injection Hempty as Hempty.
  destruct (saveAll_stored ms st) as (oks & st' & Hrun & Hlen & Hstored).
  exists oks, st'. split; [done|]. split; [done|].
  split; [by rewrite getAllMessages_stored, Hstored, Hempty|].
  split; [apply accepted_sublist|].
  intros Hnodup. eapply sublist_NoDup; [exact Hnodup|].
  apply fmap_sublist, accepted_sublist.

Qed.

End RoundTrip.

(** [getProgressToNextTier] computes [progressFor] of the number of stored
    messages, and leaves the storage alone. *)
Lemma getProgressToNextTier_count (st : Storage.LocalStorage) :
  Yearfruit.getProgressToNextTier JSON_parse st
  = Normal (Yearfruit.progressFor (Z.of_nat (length (stored st)))) st.
Proof.
  unfold Yearfruit.getProgressToNextTier, Storage.getMessageCount, bind.
  by rewrite getAllMessages_stored.
Qed.

End StorageFacts.

(** * utils/storage.js on whatever text the storage holds *)
Section JSONStorageFacts.
Context {F : Type} `{JSNumber F}.
Variable quota_ok : gmap jsstring jsstring → jsstring → jsstring → bool.
Variable JSON_stringify : JSON.Value F → option jsstring.
Variable JSON_parse : jsstring → option (JSON.Value F).
Variable new_Date : option (JSON.Value F) → option Z.
Variable LocalTZA : Z → Z.

Local Abbreviation getAllMessages := (JSONStorage.getAllMessages JSON_parse).
Local Abbreviation saveMessage :=
  (JSONStorage.saveMessage quota_ok JSON_stringify JSON_parse).
Local Abbreviation getMessageById := (JSONStorage.getMessageById JSON_parse).
Local Abbreviation getMessageCount :=
  (JSONStorage.getMessageCount JSON_parse).
Local Abbreviation getMessagesForYear :=
  (JSONStorage.getMessagesForYear JSON_parse new_Date LocalTZA).
Local Abbreviation value := (persisted_value JSON_parse).

Lemma getAllMessages_value st : getAllMessages st = Normal (value st) st.
Proof.
  unfold JSONStorage.getAllMessages, persisted_value, try_catch, bind,
    Storage.getItem.
  destruct (Storage.accessible st); [|done].
  destruct (Storage.items st !! Storage.STORAGE_KEY) as [[|c text]|]; try done.
  unfold Storage.host. by destruct (JSON_parse (c :: text)).
Qed.

(** What [saveMessage] does when the storage holds an array. *)
Lemma saveMessage_array m elements st :
  value st = JSON.Array elements →
  match JSON_stringify (JSON.Array (elements ++ [m])) with
  | Some text =>
      if Storage.accessible st
         && quota_ok (Storage.items st) Storage.STORAGE_KEY text
      then saveMessage m st
           = Normal true
               {| Storage.items :=
                    <[Storage.STORAGE_KEY := text]> (Storage.items st);
                  Storage.accessible := Storage.accessible st |}
      else saveMessage m st = Normal false st
  | None => saveMessage m st = Normal false st
  end.
Proof.
  intros Hvalue. unfold JSONStorage.saveMessage, try_catch.
  rewrite (bind_Normal _ _ _ _ _ (getAllMessages_value st)), Hvalue.
  unfold JSONStorage.push.
  rewrite (bind_Normal (ret _) _ st _ _ eq_refl).
  unfold bind, Storage.host.
  destruct (JSON_stringify _) as [text|]; [|done].
  unfold ret, Storage.setItem.
  by destruct (Storage.accessible st && quota_ok _ _ text).
Qed.

(** When the storage holds another value, [push] throws and the handler
    returns [false]. *)
Lemma saveMessage_other m st :
  (∀ elements, value st ≠ JSON.Array elements) →
  saveMessage m st = Normal false st.
Proof.
  intros Hvalue. unfold JSONStorage.saveMessage, try_catch.
  rewrite (bind_Normal _ _ _ _ _ (getAllMessages_value st)).
  unfold JSONStorage.push, bind.
  destruct (value st) as [| | | |elements|]; try done.
  by destruct (Hvalue elements).
Qed.

Lemma saveMessage_contained m st :
  ∃ ok st', saveMessage m st = Normal ok st' ∧ (ok = false → st' = st).
Proof.
  destruct (value st) as [| | | |elements|] eqn:Hvalue;
    try (exists false, st; split; [|done]; apply saveMessage_other;
         intros elements; rewrite Hvalue; discriminate).
  pose proof (saveMessage_array m elements st Hvalue) as Hcases.
  destruct (JSON_stringify _) as [text|].
  - destruct (Storage.accessible st && quota_ok _ _ text);
      do 2 eexists; (split; [exact Hcases|done]).
  - do 2 eexists. split; [exact Hcases|done].
Qed.

Lemma property_Normal (m : JSON.Value F) key (st : Storage.LocalStorage) :
  m ≠ JSON.Null → ∃ v, JSON.property m key st = Normal v st.
Proof. intros Hm. destruct m; by eauto. Qed.

Lemma find_Normal id (elements : list (JSON.Value F)) st :
  Forall (λ m, m ≠ JSON.Null) elements →
  ∃ found, JSONStorage.find id elements st = Normal found st.
Proof.
  induction 1 as [|m elements Hm _ IH]; [by eexists|].
  change (JSONStorage.find id (m :: elements))
    with (bind (JSON.property m (js "message_id"))
            (λ v, if JSONStorage.has_id id v
                  then ret (S := Storage.LocalStorage) (Some m)
                  else JSONStorage.find id elements)).
  destruct (property_Normal m (js "message_id") st Hm) as [v E].
  rewrite (bind_Normal _ _ _ _ _ E).
  destruct (JSONStorage.has_id id v); [by eexists|exact IH].
Qed.

Lemma filter_Normal year (elements : list (JSON.Value F)) st :
  Forall (λ m, m ≠ JSON.Null) elements →
  ∃ kept, JSONStorage.filter new_Date LocalTZA year elements st
          = Normal kept st.
Proof.
  induction 1 as [|m elements Hm _ [kept IH]]; [by eexists|].
  change (JSONStorage.filter new_Date LocalTZA year (m :: elements))
    with (bind (JSON.property m (js "timestamp"))
            (λ v,
               bind (JSONStorage.filter new_Date LocalTZA year elements)
                 (λ kept,
                    ret (S := Storage.LocalStorage)
                      (if Storage.strict_eq
                            (JSONStorage.getFullYear new_Date LocalTZA v)
                            year
                       then m :: kept else kept)))).
  destruct (property_Normal m (js "timestamp") st Hm) as [v E].
  rewrite (bind_Normal _ _ _ _ _ E), (bind_Normal _ _ _ _ _ IH).
  by eexists.
Qed.

(** The callbacks of [find] and [filter] throw on an element [null]. *)
Lemma find_null id elements st :
  JSONStorage.find (F := F) id (JSON.Null :: elements) st = Abrupt st.
Proof. reflexivity. Qed.



(** A successful [saveMessage] found an array and has written the text of
    the array with the message appended. *)
Lemma saveMessage_true m st st' :
  saveMessage m st = Normal true st' →
  ∃ elements text,
    value st = JSON.Array elements ∧
    JSON_stringify (JSON.Array (elements ++ [m])) = Some text ∧
    Storage.accessible st = true ∧
    st' = {| Storage.items :=
               <[Storage.STORAGE_KEY := text]> (Storage.items st);
             Storage.accessible := true |}.
Proof.
  intros Hsave.
  destruct (value st) as [| | | |elements|] eqn:Hvalue;
    try (rewrite saveMessage_other in Hsave
           by (intros elements; rewrite Hvalue; discriminate);
         by apply Normal_inj in Hsave as [? _]).
  pose proof (saveMessage_array m elements st Hvalue) as Hcases.
  destruct (JSON_stringify _) as [text|] eqn:Htext.
  - destruct (Storage.accessible st && quota_ok _ _ text) eqn:Hok;
      rewrite Hsave in Hcases; apply Normal_inj in Hcases as [? ->];
      [|done].
    apply andb_prop in Hok as [Hacc _]. rewrite Hacc.
    by exists elements, text.
  - rewrite Hsave in Hcases. by apply Normal_inj in Hcases as [? _].
Qed.

Lemma saveMessage_appends m st st' :
  saveMessage m st = Normal true st' →
  ∃ elements,
    value st = JSON.Array elements ∧
    (round_trip JSON_stringify JSON_parse (JSON.Array (elements ++ [m])) →
     value st' = JSON.Array (elements ++ [m])).
Proof.
  intros Hsave.
  destruct (saveMessage_true m st st' Hsave)
    as (elements & text & Hvalue & Htext & _ & ->).
  exists elements. split; [exact Hvalue|]. intros Hround.
  destruct (Hround text Htext) as [Hne Hparse].
  unfold persisted_value. simpl. rewrite lookup_insert_eq.
  destruct text; [done|]. by rewrite Hparse.
Qed.

Lemma to_message_of_message (m : Message F) :
  JSON.to_message (JSON.of_message m) = Some m.
Proof.
  destruct m as [id userName message timestamp [emotion|] [node_position|]
                   [treePart|] [position|] [glowIntensity|]];
    try destruct node_position; try destruct position; reflexivity.
Qed.

(** ** The two readings of the storage agree on message arrays *)
Section MessageStores.
Variable stringify_messages : list (Message F) → option jsstring.
Variable parse_messages : jsstring → option (list (Message F)).
Variable Date_parse : jsstring → option Z.

Lemma property_message_id (m : Message F) (st : Storage.LocalStorage) :
  JSON.property (JSON.of_message m) (js "message_id") st
  = Normal (Some (JSON.String (Msg.message_id m))) st.
Proof. reflexivity. Qed.

Lemma property_timestamp (m : Message F) (st : Storage.LocalStorage) :
  JSON.property (JSON.of_message m) (js "timestamp") st
  = Normal (Some (JSON.String (Msg.timestamp m))) st.
Proof. reflexivity. Qed.

Lemma find_messages id (l : list (Message F)) st :
  JSONStorage.find id (JSON.of_message <$> l) st
  = Normal
      (JSON.of_message
         <$> Storage.find (λ m, bool_decide (Msg.message_id m = id)) l) st.
Proof.
  induction l as [|m l IH]; [done|].
  rewrite fmap_cons.
  change (JSONStorage.find id (JSON.of_message m :: (JSON.of_message <$> l)))
    with (bind (JSON.property (JSON.of_message m) (js "message_id"))
            (λ v, if JSONStorage.has_id id v
                  then ret (S := Storage.LocalStorage)
                         (Some (JSON.of_message m))
                  else JSONStorage.find id (JSON.of_message <$> l))).
  rewrite (bind_Normal _ _ _ _ _ (property_message_id m st)).
  cbn [JSONStorage.has_id Storage.find].
  by destruct (bool_decide (Msg.message_id m = id)).
Qed.

Lemma filter_messages year (l : list (Message F)) st :
  (∀ s, new_Date (Some (JSON.String s)) = Date_parse s) →
  JSONStorage.filter new_Date LocalTZA year (JSON.of_message <$> l) st
  = Normal
      (JSON.of_message
         <$> Storage.filter
               (λ m,
                  Storage.strict_eq
                    (Date.getFullYear Date_parse LocalTZA (Msg.timestamp m))
                    year) l) st.
Proof.
  intros Hdate. induction l as [|m l IH]; [done|].
  rewrite fmap_cons.
  change (JSONStorage.filter new_Date LocalTZA year
            (JSON.of_message m :: (JSON.of_message <$> l)))
    with (bind (JSON.property (JSON.of_message m) (js "timestamp"))
            (λ v,
               bind (JSONStorage.filter new_Date LocalTZA year
                       (JSON.of_message <$> l))
                 (λ kept,
                    ret (S := Storage.LocalStorage)
                      (if Storage.strict_eq
                            (JSONStorage.getFullYear new_Date LocalTZA v)
                            year
                       then JSON.of_message m :: kept else kept)))).
  rewrite (bind_Normal _ _ _ _ _ (property_timestamp m st)).
  rewrite (bind_Normal _ _ _ _ _ IH).
  unfold JSONStorage.getFullYear, Date.getFullYear. rewrite Hdate.
  cbn [Storage.filter]. unfold Date.getFullYear.
  by destruct (Storage.strict_eq _ year).
Qed.

Lemma message_store_value st :
  message_store parse_messages JSON_parse st →
  value st = JSON.Array (JSON.of_message <$> persisted parse_messages st).
Proof.
  intros Hstore. unfold persisted_value, persisted.
  destruct (Storage.accessible st); [|done].
  destruct (Storage.items st !! Storage.STORAGE_KEY) as [[|c text]|] eqn:Hitem;
    try done.
  specialize (Hstore _ Hitem).
  destruct (parse_messages (c :: text)) as [l|]; by rewrite Hstore.
Qed.

(** X1. The functions of [Storage], which take the stored text to hold
    a message array, compute what the code computes on such a storage:
    where [Storage.getAllMessages] returns messages,
    [JSONStorage.getAllMessages] returns the array of their JSON values,
    and [getMessageById], [getMessageCount], [getMessagesForYear] and
    [saveMessage] correspond in the same way ([null] for a message that is
    not found). *)
Theorem Storage_on_message_store (st : Storage.LocalStorage) :
  message_store parse_messages JSON_parse st →
  (∀ s, new_Date (Some (JSON.String s)) = Date_parse s) →
  ∃ l : list (Message F),
    Storage.getAllMessages parse_messages st = Normal l st ∧
    getAllMessages st = Normal (JSON.Array (JSON.of_message <$> l)) st ∧
    (∀ id, ∃ r,
       Storage.getMessageById parse_messages id st = Normal r st ∧
       getMessageById id st
       = Normal (default JSON.Null (JSON.of_message <$> r)) st) ∧
    (∃ n,
       Storage.getMessageCount parse_messages st = Normal n st ∧
       getMessageCount st = Normal (Some (JSON.Number (of_Z n))) st) ∧
    (∀ year, ∃ of_year,
       Storage.getMessagesForYear parse_messages Date_parse LocalTZA year st
       = Normal of_year st ∧
       getMessagesForYear year st
       = Normal (JSON.of_message <$> of_year) st) ∧
    (∀ m,
       JSON_stringify (JSON.Array (JSON.of_message <$> (l ++ [m])))
       = stringify_messages (l ++ [m]) →
       saveMessage (JSON.of_message m) st
       = Storage.saveMessage quota_ok stringify_messages parse_messages m
           st).
Proof.
  intros Hstore Hdate.
  pose proof (message_store_value st Hstore) as Hvalue.
  pose proof (getAllMessages_stored parse_messages st) as Htyped.
  assert (Hall : getAllMessages st
                 = Normal (JSON.Array (JSON.of_message
                                         <$> persisted parse_messages st)) st)
    by by rewrite getAllMessages_value, Hvalue.
  exists (persisted parse_messages st).
  split; [exact Htyped|]. split; [exact Hall|].
  unfold Storage.getMessageById, Storage.getMessageCount,
    Storage.getMessagesForYear, JSONStorage.getMessageById,
    JSONStorage.getMessageCount, JSONStorage.getMessagesForYear.
  split; [|split; [|split]].
  - intros id. eexists.
    rewrite (bind_Normal _ _ _ _ _ Htyped), (bind_Normal _ _ _ _ _ Hall).
    split; [reflexivity|].
    by rewrite (bind_Normal _ _ _ _ _ (find_messages id _ st)).
  - eexists.
    rewrite (bind_Normal _ _ _ _ _ Htyped), (bind_Normal _ _ _ _ _ Hall).
    split; [reflexivity|]. simpl. by rewrite length_fmap.
  - intros year. eexists.
    rewrite (bind_Normal _ _ _ _ _ Htyped), (bind_Normal _ _ _ _ _ Hall).
    split; [reflexivity|]. by apply filter_messages.
  - intros m Hstringify.
    pose proof (saveMessage_array (JSON.of_message m) _ st Hvalue) as Hraw.
    pose proof (saveMessage_cases quota_ok stringify_messages parse_messages
                  m st) as Hcases.
    rewrite fmap_app in Hstringify. simpl in Hstringify.
    rewrite Hstringify in Hraw.
    destruct (stringify_messages _) as [text|]; [|congruence].
    destruct (Storage.accessible st && quota_ok _ _ text); congruence.
Qed.

End MessageStores.

End JSONStorageFacts.

(** * Properties of scene/Nodes.js *)
Section NodeFacts.
Context {F : Type} `{JSNumber F}.
Variable Math_random_stream : nat → F.
Variable performance_now_stream : nat → F.

Lemma same_nodes_refl (w : Scene.World F) : same_nodes w w.
Proof. by repeat split. Qed.

Lemma same_nodes_trans (w1 w2 w3 : Scene.World F) :
  same_nodes w1 w2 → same_nodes w2 w3 → same_nodes w1 w3.
Proof.
  intros (? & ? & ? & ?) (? & ? & ? & ?). repeat split; congruence.
Qed.

Lemma same_nodes_length (w w' : Scene.World F) :
  same_nodes w w' → length (Scene.objects w') = length (Scene.objects w).
Proof.
  intros (_ & _ & _ & Hdata).
  by rewrite <- (length_fmap Scene.userData), Hdata, length_fmap.
Qed.

Lemma Math_random_effect (w : Scene.World F) :
  ∃ v w', Scene.Math_random Math_random_stream w = Normal v w' ∧
          same_nodes w w'.
Proof. do 2 eexists. split; [reflexivity|]. by repeat split. Qed.

Lemma performance_now_effect (w : Scene.World F) :
  ∃ v w', Scene.performance_now performance_now_stream w = Normal v w' ∧
          same_nodes w w'.
Proof. do 2 eexists. split; [reflexivity|]. by repeat split. Qed.

Lemma with_cells_effect {A} (m : JS (list F) A) a c' (w : Scene.World F) :
  m (Scene.cells w) = Normal a c' →
  ∃ w', Scene.with_cells m w = Normal a w' ∧ same_nodes w w'.
Proof.
  intros E. unfold Scene.with_cells. rewrite E.
  eexists. split; [reflexivity|]. by repeat split.
Qed.

Lemma setScalar_effect mesh s (w : Scene.World F) :
  (mesh < length (Scene.objects w))%nat →
  ∃ w', Scene.setScalar mesh s w = Normal () w' ∧ same_nodes w w'.
Proof.
  intros Hlt. destruct (lookup_lt_is_Some_2 _ _ Hlt) as [o Ho].
  unfold Scene.setScalar. rewrite Ho.
  eexists. split; [reflexivity|]. repeat split. simpl.
  rewrite list_fmap_insert. simpl. apply list_insert_id.
  by rewrite list_lookup_fmap, Ho.
Qed.

Lemma requestAnimationFrame_effect mesh start (w : Scene.World F) :
  ∃ w', Scene.requestAnimationFrame mesh start w = Normal () w' ∧
        same_nodes w w'.
Proof. eexists. split; [reflexivity|]. by repeat split. Qed.

Lemma animateBirth_effect mesh (w : Scene.World F) :
  (mesh < length (Scene.objects w))%nat →
  ∃ w', Scene.animateBirth performance_now_stream mesh w = Normal () w' ∧
        same_nodes w w'.
Proof.
  intros Hlt. unfold Scene.animateBirth, Scene.animate.
  destruct (performance_now_effect w) as (start & w1 & E1 & S1).
  rewrite (bind_Normal _ _ _ _ _ E1).
  destruct (setScalar_effect mesh (lit 0.1) w1) as (w2 & E2 & S2).
  { by rewrite (same_nodes_length _ _ S1). }
  rewrite (bind_Normal _ _ _ _ _ E2).
  destruct (performance_now_effect w2) as (now & w3 & E3 & S3).
  rewrite (bind_Normal _ _ _ _ _ E3).
  match goal with
  | |- context [Scene.setScalar mesh ?s] =>
      destruct (setScalar_effect mesh s w3) as (w4 & E4 & S4)
  end.
  { by rewrite (same_nodes_length _ _ S3), (same_nodes_length _ _ S2),
      (same_nodes_length _ _ S1). }
  rewrite (bind_Normal _ _ _ _ _ E4).
  assert (S04 : same_nodes w w4) by eauto using same_nodes_trans.
  match goal with
  | |- context [if ?test then _ else _] => destruct test
  end.
  - destruct (requestAnimationFrame_effect mesh start w4) as (w5 & E5 & S5).
    rewrite E5. eauto using same_nodes_trans.
  - unfold ret. eauto.
Qed.

(** The live nodes after one more mesh has been constructed and added to
    the scene. *)
Lemma live_nodes_extend (w w1 : Scene.World F) u id :
  (∀ mesh, mesh ∈ Scene.scene w → (mesh < length (Scene.objects w))%nat) →
  Scene.scene w1 = Scene.scene w ++ [length (Scene.objects w)] →
  Scene.userData <$> Scene.objects w1
    = (Scene.userData <$> Scene.objects w) ++ [Some u] →
  live_nodes w1 id
  = live_nodes w id
      ++ (if decide (Scene.messageId u = id)
          then [length (Scene.objects w)] else []).
Proof.
  intros Hvalid Hscene Hdata.
  assert (Hlookup : ∀ mesh,
            Scene.userData <$> Scene.objects w1 !! mesh
            = ((Scene.userData <$> Scene.objects w) ++ [Some u]) !! mesh).
  { intros mesh. by rewrite <- list_lookup_fmap, Hdata. }
  unfold live_nodes. rewrite Hscene, List.filter_app. f_equal.
  - apply filter_ext_in. intros mesh Hin.
    apply list_elem_of_In, Hvalid in Hin.
    pose proof (Hlookup mesh) as E.
    rewrite lookup_app_l, list_lookup_fmap in E by by rewrite length_fmap.
    destruct (Scene.objects w1 !! mesh), (Scene.objects w !! mesh);
      simpl in E; try done. by injection E as ->.
  - simpl. pose proof (Hlookup (length (Scene.objects w))) as E.
    rewrite list_lookup_middle in E by by rewrite length_fmap.
    destruct (Scene.objects w1 !! length (Scene.objects w)) as [o|];
      simpl in E; [|done]. injection E as ->.
    by destruct (decide (Scene.messageId u = id));
      [rewrite bool_decide_eq_true_2|rewrite bool_decide_eq_false_2].
Qed.

(** What a call that constructs and registers a mesh for [id] does to a
    consistent world in which [id] has no node yet. *)
Lemma consistent_extend (w w1 : Scene.World F) u (node : Message F) id :
  consistent w →
  Scene.meshes w !! id = None →
  Scene.messageId u = id →
  Scene.scene w1 = Scene.scene w ++ [length (Scene.objects w)] →
  Scene.meshes w1 = <[id := length (Scene.objects w)]> (Scene.meshes w) →
  Scene.userData <$> Scene.objects w1
    = (Scene.userData <$> Scene.objects w) ++ [Some u] →
  consistent w1 ∧
  Scene.meshes w1 !! id = Some (length (Scene.objects w)) ∧
  live_nodes w1 id = [length (Scene.objects w)].
Proof.
  intros [Hvalid Hlive] Hnew Hu Hscene Hmeshes Hdata.
  assert (Hlen : length (Scene.objects w1) = S (length (Scene.objects w))).
  { rewrite <- (length_fmap Scene.userData), Hdata, length_app, length_fmap.
    simpl. lia. }
  assert (Hext := live_nodes_extend w w1 u).
  split; [split|split].
  - intros mesh. rewrite Hscene, Hlen, elem_of_app, list_elem_of_singleton.
    intros [Hin| ->]; [apply Hvalid in Hin|]; lia.
  - intros id'. rewrite (Hext id') by done. rewrite Hlive, Hmeshes.
    destruct (decide (id = id')) as [<-|Hne].
    + rewrite lookup_insert_eq, Hnew, decide_True by done. done.
    + rewrite lookup_insert_ne, decide_False by congruence.
      by rewrite app_nil_r.
  - by rewrite Hmeshes, lookup_insert_eq.
  - rewrite (Hext id) by done. rewrite Hlive, Hnew, decide_True by done. done.
Qed.

Local Abbreviation emotion_addNode :=
  (EmotionNodes.addNode Math_random_stream performance_now_stream).
Local Abbreviation inscription_addNode :=
  (InscriptionNodes.addNode Math_random_stream performance_now_stream).

Lemma config_of_emotions k :
  k ∈ emotions →
  ∃ config : EmotionNodes.Config F,
    EmotionNodes.config_of (Some k) = Some config.
Proof.
  unfold emotions. intros Hk.
  repeat (apply elem_of_cons in Hk as [->|Hk]; [eexists; reflexivity|]).
  by apply elem_of_nil in Hk.
Qed.

Lemma createGeometry_Normal emotion (config : EmotionNodes.Config F) :
  EmotionNodes.config_of emotion = Some config →
  ∃ g, ∀ w, EmotionNodes.createGeometry emotion w = Normal g w.
Proof.
  intros E. unfold EmotionNodes.createGeometry. rewrite E.
  repeat case_decide; eexists; intros w; reflexivity.
Qed.

Lemma createMaterial_effect emotion (config : EmotionNodes.Config F) w :
  EmotionNodes.config_of emotion = Some config →
  ∃ material w',
    EmotionNodes.createMaterial Math_random_stream emotion w
    = Normal material w' ∧ same_nodes w w'.
Proof.
  intros E. unfold EmotionNodes.createMaterial. rewrite E.
  destruct (Math_random_effect w) as (v & w' & E' & S').
  rewrite (bind_Normal _ _ _ _ _ E'). unfold ret. eauto.
Qed.

Lemma canopy_position_effect (m : Message F) (w : Scene.World F) :
  ∃ p w',
    match Msg.node_position m with
    | Some p => ret p
    | None =>
        Scene.with_cells
          (Canopy.getNodePosition (Msg.userName m) (Msg.message_id m))
    end w = Normal p w' ∧ same_nodes w w'.
Proof.
  destruct (Msg.node_position m) as [p|].
  - exists p, w. split; [done|apply same_nodes_refl].
  - destruct (getNodePosition_agree (Msg.userName m) (Msg.message_id m)
                (Scene.cells w) (Scene.cells w)) as (p & c & _ & E & _).
    destruct (with_cells_effect _ _ _ w E) as (w' & E' & S'). eauto.
Qed.

(** The emotion variant, first call for an id: when the emotion has a
    configuration, a mesh is constructed, added to the scene and recorded. *)
Lemma emotion_addNode_new (m : Message F) (w : Scene.World F) config :
  Scene.meshes w !! Msg.message_id m = None →
  EmotionNodes.config_of (Msg.emotion m) = Some config →
  ∃ w1 u,
    emotion_addNode m w = Normal (Some (length (Scene.objects w))) w1 ∧
    Scene.messageId u = Msg.message_id m ∧
    Scene.scene w1 = Scene.scene w ++ [length (Scene.objects w)] ∧
    Scene.meshes w1
    = <[Msg.message_id m := length (Scene.objects w)]> (Scene.meshes w) ∧
    Scene.userData <$> Scene.objects w1
    = (Scene.userData <$> Scene.objects w) ++ [Some u].
Proof.
  intros Hnew Hconfig. unfold EmotionNodes.addNode.
  rewrite (bind_Normal get _ w w w eq_refl).
  rewrite decide_False by (rewrite Hnew; by intros [? ?]).
  destruct (canopy_position_effect m w) as (p & w1 & E1 & S1).
  rewrite (bind_Normal _ _ _ _ _ E1).
  destruct (createGeometry_Normal _ _ Hconfig) as (g & Eg).
  rewrite (bind_Normal _ _ _ _ _ (Eg w1)).
  destruct (createMaterial_effect _ _ w1 Hconfig) as (mat & w2 & E2 & S2).
  rewrite (bind_Normal _ _ _ _ _ E2).
  rewrite (bind_Normal get _ w2 w2 w2 eq_refl).
  destruct (Math_random_effect w2) as (r1 & w3 & E3 & S3).
  rewrite (bind_Normal _ _ _ _ _ E3).
  destruct (Math_random_effect w3) as (r2 & w4 & E4 & S4).
  rewrite (bind_Normal _ _ _ _ _ E4).
  rewrite Hconfig.
  assert (S04 : same_nodes w w4) by eauto using same_nodes_trans.
  pose proof (same_nodes_length _ _ S04) as Hlen.
  destruct S04 as (Hscene & Hmeshes & Hnodes & Hdata).
  unfold Scene.new_Mesh at 1. unfold bind at 1.
  unfold Scene.register at 1. unfold bind at 1.
  match goal with
  | |- context [bind (Scene.animateBirth _ _) _ ?w5] =>
      destruct (animateBirth_effect (length (Scene.objects w4)) w5)
        as (w6 & E6 & S6)
  end.
  { simpl. rewrite length_app. simpl. lia. }
  unfold bind. rewrite E6. unfold ret.
  destruct S6 as (Hscene6 & Hmeshes6 & Hnodes6 & Hdata6).
  simpl in Hscene6, Hmeshes6, Hdata6.
  rewrite Hlen. do 2 eexists. split; [reflexivity|].
  split; [|split; [|split]].
  4: by rewrite Hdata6, fmap_app, Hdata.
  - reflexivity.
  - by rewrite Hscene6, Hscene, Hlen.
  - by rewrite Hmeshes6, Hmeshes, Hlen.
Qed.

Lemma emotion_addNode_present (m : Message F) (w : Scene.World F) mesh :
  Scene.meshes w !! Msg.message_id m = Some mesh →
  emotion_addNode m w = Normal None w.
Proof.
  intros Hold. unfold EmotionNodes.addNode.
  rewrite (bind_Normal get _ w w w eq_refl).
  by rewrite decide_True by (rewrite Hold; eauto).
Qed.

(** The emotion variant, a first call whose emotion has no configuration:
    [createGeometry] throws, and no node has been made. *)
Lemma emotion_addNode_throws (m : Message F) (w : Scene.World F) :
  Scene.meshes w !! Msg.message_id m = None →
  EmotionNodes.config_of (Msg.emotion m) = None →
  ∃ w', emotion_addNode m w = Abrupt w' ∧ same_nodes w w'.
Proof.
  intros Hnew Hconfig. unfold EmotionNodes.addNode.
  rewrite (bind_Normal get _ w w w eq_refl).
  rewrite decide_False by (rewrite Hnew; by intros [? ?]).
  destruct (canopy_position_effect m w) as (p & w1 & E1 & S1).
  rewrite (bind_Normal _ _ _ _ _ E1).
  exists w1. split; [|done].
  apply bind_Abrupt. unfold EmotionNodes.createGeometry.
  by rewrite Hconfig.
Qed.

Lemma createMaterial_inscription_effect intensity (w : Scene.World F) :
  ∃ material w',
    InscriptionNodes.createMaterial Math_random_stream intensity w
    = Normal material w' ∧ same_nodes w w'.
Proof.
  unfold InscriptionNodes.createMaterial.
  destruct (Math_random_effect w) as (v & w' & E' & S').
  rewrite (bind_Normal _ _ _ _ _ E'). unfold ret. eauto.
Qed.

(** The inscription variant, first call for an id: a mesh is always
    constructed, added to the scene and recorded. *)
Lemma inscription_addNode_new (m : Message F) (w : Scene.World F) :
  Scene.meshes w !! Msg.message_id m = None →
  ∃ w1 u,
    inscription_addNode m w = Normal (Some (length (Scene.objects w))) w1 ∧
    Scene.messageId u = Msg.message_id m ∧
    Scene.scene w1 = Scene.scene w ++ [length (Scene.objects w)] ∧
    Scene.meshes w1
    = <[Msg.message_id m := length (Scene.objects w)]> (Scene.meshes w) ∧
    Scene.userData <$> Scene.objects w1
    = (Scene.userData <$> Scene.objects w) ++ [Some u].
Proof.
  intros Hnew. unfold InscriptionNodes.addNode.
  rewrite (bind_Normal get _ w w w eq_refl).
  rewrite decide_False by (rewrite Hnew; by intros [? ?]).
  assert (∃ pos part glow w1,
            match Msg.position m with
            | Some _ =>
                ret (Msg.position m, Msg.treePart m, Msg.glowIntensity m)
            | None =>
                (let* p :=
                   Scene.with_cells
                     (Hash.getMessagePlacement (Msg.userName m)
                        (Msg.message_id m)) in
                 ret (Some (Hash.position p), Hash.treePart p,
                      Some (Hash.glowIntensity p)))%js
            end w = Normal (pos, part, glow) w1 ∧
            same_nodes w w1 ∧
            is_Some (InscriptionNodes.or_object (Msg.position m) pos))
    as (pos & part & glow & w1 & E1 & S1 & [p Hp]).
  { destruct (Msg.position m) as [p|] eqn:Hpos.
    - exists (Some p), (Msg.treePart m), (Msg.glowIntensity m), w.
      split; [done|]. split; [apply same_nodes_refl|by eexists].
    - destruct (getMessagePlacement_agree (Msg.userName m) (Msg.message_id m)
                  (Scene.cells w) (Scene.cells w)) as (p & c & _ & E & _).
      destruct (with_cells_effect _ _ _ w E) as (w' & E' & S').
      exists (Some (Hash.position p)), (Hash.treePart p),
        (Some (Hash.glowIntensity p)), w'.
      rewrite (bind_Normal _ _ _ _ _ E'). split; [done|].
      split; [done|by eexists]. }
  rewrite (bind_Normal _ _ _ _ _ E1). cbv beta iota zeta.
  match goal with
  | |- context [InscriptionNodes.createMaterial _ ?i] =>
      destruct (createMaterial_inscription_effect i w1)
        as (mat & w2 & E2 & S2)
  end.
  rewrite (bind_Normal _ _ _ _ _ E2).
  rewrite (bind_Normal get _ w2 w2 w2 eq_refl).
  rewrite Hp.
  destruct (Math_random_effect w2) as (r1 & w3 & E3 & S3).
  rewrite (bind_Normal _ _ _ _ _ E3).
  destruct (Math_random_effect w3) as (r2 & w4 & E4 & S4).
  rewrite (bind_Normal _ _ _ _ _ E4).
  assert (S04 : same_nodes w w4) by eauto using same_nodes_trans.
  pose proof (same_nodes_length _ _ S04) as Hlen.
  destruct S04 as (Hscene & Hmeshes & Hnodes & Hdata).
  unfold Scene.new_Mesh at 1. unfold bind at 1.
  unfold Scene.register at 1. unfold bind at 1.
  match goal with
  | |- context [bind (Scene.animateBirth _ _) _ ?w5] =>
      destruct (animateBirth_effect (length (Scene.objects w4)) w5)
        as (w6 & E6 & S6)
  end.
  { simpl. rewrite length_app. simpl. lia. }
  unfold bind. rewrite E6. unfold ret.
  destruct S6 as (Hscene6 & Hmeshes6 & Hnodes6 & Hdata6).
  simpl in Hscene6, Hmeshes6, Hdata6.
  rewrite Hlen. do 2 eexists. split; [reflexivity|].
  split; [|split; [|split]].
  4: by rewrite Hdata6, fmap_app, Hdata.
  - reflexivity.
  - by rewrite Hscene6, Hscene, Hlen.
  - by rewrite Hmeshes6, Hmeshes, Hlen.
Qed.

Lemma inscription_addNode_present (m : Message F) (w : Scene.World F) mesh :
  Scene.meshes w !! Msg.message_id m = Some mesh →
  inscription_addNode m w = Normal None w.
Proof.
  intros Hold. unfold InscriptionNodes.addNode.
  rewrite (bind_Normal get _ w w w eq_refl).
  by rewrite decide_True by (rewrite Hold; eauto).
Qed.

Lemma repeat_call_settled (add : JS (Scene.World F) (option nat)) w1 r :
  add w1 = Normal None w1 →
  ∀ n, repeat_call n r add w1
       = Normal (match n with O => r | S _ => None end) w1.
Proof.
  intros Hadd.
  assert (Hnone : ∀ n, repeat_call n None add w1 = Normal None w1).
  { induction n as [|n IH]; [done|]. simpl.
    by rewrite (bind_Normal _ _ _ _ _ Hadd). }
  intros [|n]; [done|]. simpl.
  rewrite (bind_Normal _ _ _ _ _ Hadd), Hnone. by destruct n.
Qed.

(** C8, as amended. Idempotent node creation: in a consistent world, once
    [addNode] has returned for a message, the id of the message has exactly
    one live node, and every later call with that id (any number of them)
    returns [undefined] and changes nothing: no mesh is constructed, no map
    entry written, no other resource used.  In the inscription variant
    [addNode] always returns; in the emotion variant it returns when the
    emotion of the message has a configuration (see C10). *)
Theorem addNode_idempotent (m : Message F) (w : Scene.World F) :
  consistent w →
  (∀ r w1, emotion_addNode m w = Normal r w1 →
           exactly_one_node emotion_addNode m r w1) ∧
  (∃ r w1, inscription_addNode m w = Normal r w1 ∧
           exactly_one_node inscription_addNode m r w1).
Proof.
  intros Hw.
  assert (Hold : ∀ mesh, Scene.meshes w !! Msg.message_id m = Some mesh →
                         live_nodes w (Msg.message_id m) = [mesh]).
  { intros mesh E. destruct Hw as [_ Hlive]. by rewrite Hlive, E. }
  split.
  - intros r w1 Hadd.
    destruct (Scene.meshes w !! Msg.message_id m) as [mesh|] eqn:Hid.
    + rewrite (emotion_addNode_present _ _ _ Hid) in Hadd.
      injection Hadd as <- <-. split; [done|]. exists mesh.
      split; [done|]. split; [by apply Hold|]. split.
      * intros m' Hm'. eapply emotion_addNode_present. by rewrite Hm'.
      * apply repeat_call_settled. by eapply emotion_addNode_present.
    + destruct (EmotionNodes.config_of (Msg.emotion m)) as [config|] eqn:Hc.
      * destruct (emotion_addNode_new m w config Hid Hc)
          as (w1' & u & E & Hu & Hscene & Hmeshes & Hdata).
        rewrite E in Hadd. injection Hadd as <- <-.
        destruct (consistent_extend w w1' u m _ Hw Hid Hu Hscene Hmeshes Hdata)
          as (Hw1 & Hmesh & Hlive).
        split; [done|]. exists (length (Scene.objects w)).
        split; [done|]. split; [done|]. split.
        -- intros m' Hm'. eapply emotion_addNode_present. by rewrite Hm'.
        -- apply repeat_call_settled. by eapply emotion_addNode_present.
      * destruct (emotion_addNode_throws m w Hid Hc) as (w' & E & _).
        by rewrite E in Hadd.
  - destruct (Scene.meshes w !! Msg.message_id m) as [mesh|] eqn:Hid.
    + exists None, w. split; [by eapply inscription_addNode_present|].
      split; [done|]. exists mesh.
      split; [done|]. split; [by apply Hold|]. split.
      * intros m' Hm'. eapply inscription_addNode_present. by rewrite Hm'.
      * apply repeat_call_settled. by eapply inscription_addNode_present.
    + destruct (inscription_addNode_new m w Hid)
        as (w1 & u & E & Hu & Hscene & Hmeshes & Hdata).
      destruct (consistent_extend w w1 u m _ Hw Hid Hu Hscene Hmeshes Hdata)
        as (Hw1 & Hmesh & Hlive).
      exists (Some (length (Scene.objects w))), w1. split; [done|].
      split; [done|]. exists (length (Scene.objects w)).
      split; [done|]. split; [done|]. split.
      * intros m' Hm'. eapply inscription_addNode_present. by rewrite Hm'.
      * apply repeat_call_settled. by eapply inscription_addNode_present.
Qed.

Lemma own_None {A} (key : jsstring) (object : list (jsstring * A)) :
  EmotionNodes.own key object = None ↔ key ∉ object.*1.
Proof.
  induction object as [|[k v] object IH]; simpl.
  - split; [intros _; apply not_elem_of_nil|done].
  - rewrite not_elem_of_cons. case_decide as Hk.
    + split; [done|]. by intros [? _].
    + rewrite IH. split; [by intros ?; split|by intros [_ ?]].
Qed.

(** An emotion yields no configuration exactly when its property key is
    neither one of the seven keys nor a name of [Object.prototype]. *)
Lemma config_of_None (emotion : option jsstring) :
  EmotionNodes.config_of (F := F) emotion = None
  ↔ default (js "undefined") emotion
      ∉ emotions ++ EmotionNodes.Object_prototype.
Proof.
  unfold EmotionNodes.config_of.
  generalize (default (js "undefined") emotion). intros key.
  rewrite not_elem_of_app.
  change emotions with (@EmotionNodes.EMOTION_CONFIG F _).*1.
  rewrite <- own_None.
  destruct (EmotionNodes.own key EmotionNodes.EMOTION_CONFIG) as [config|].
  - split; [done|]. by intros [? _].
  - case_decide as Hproto; [|done]. split; [done|]. by intros [_ ?].
Qed.

(** C10, as amended. The safety precondition of node creation in the
    emotion variant: for a message whose emotion is one of the seven keys of
    [EMOTION_CONFIG], [addNode] returns, from any world.  A precondition is
    needed: [createGeometry] reads [config.geometry] unguarded, so a first
    call for an id returns exactly when [EMOTION_CONFIG[emotion]] is not
    [undefined], and it is [undefined] exactly when the emotion (or
    ['undefined'], when the message has none) is neither one of the seven
    keys nor a name inherited from [Object.prototype].  The inscription
    variant needs no precondition: its [createGeometry] has a default case,
    and its [addNode] returns for every message. *)
Theorem addNode_emotion_precondition (m : Message F) (w : Scene.World F) :
  emotions = (@EmotionNodes.EMOTION_CONFIG F _).*1 ∧
  (∀ emotion,
     Msg.emotion m = Some emotion →
     emotion ∈ emotions →
     completes (emotion_addNode m w)) ∧
  (Scene.meshes w !! Msg.message_id m = None →
   (completes (emotion_addNode m w)
    ↔ EmotionNodes.config_of (F := F) (Msg.emotion m) ≠ None)) ∧
  (EmotionNodes.config_of (F := F) (Msg.emotion m) = None
   ↔ default (js "undefined") (Msg.emotion m)
       ∉ emotions ++ EmotionNodes.Object_prototype) ∧
  completes (inscription_addNode m w).
Proof.
  split; [reflexivity|]. split; [|split; [|split]].
  - intros emotion Hm Hin.
    destruct (config_of_emotions _ Hin) as [config Hc]. rewrite <- Hm in Hc.
    destruct (Scene.meshes w !! Msg.message_id m) as [mesh|] eqn:Hid.
    + by rewrite (emotion_addNode_present _ _ _ Hid).
    + destruct (emotion_addNode_new m w config Hid Hc) as (w1 & u & E & _).
      by rewrite E.
  - intros Hid.
    destruct (EmotionNodes.config_of (Msg.emotion m)) as [config|] eqn:Hc.
    + destruct (emotion_addNode_new m w config Hid Hc) as (w1 & u & E & _).
      by rewrite E.
    + destruct (emotion_addNode_throws m w Hid Hc) as (w1 & E & _).
      rewrite E. simpl. tauto.
  - apply config_of_None.
  - destruct (Scene.meshes w !! Msg.message_id m) as [mesh|] eqn:Hid.
    + by rewrite (inscription_addNode_present _ _ _ Hid).
    + destruct (inscription_addNode_new m w Hid) as (w1 & u & E & _).
      by rewrite E.
Qed.

End NodeFacts.

(** * Examples and counterexamples on concrete hosts *)

Lemma Example_parse_stringify (l : list (Message Z)) (text : jsstring) :
  Example.stringify l = Some text →
  text ≠ [] ∧ Example.parse text = Some l.
Proof.
  unfold Example.stringify. intros [= <-]. split; [done|].
  simpl. apply decode_encode.
Qed.

Lemma Example_persisted (l : list (Message Z)) :
  persisted Example.parse (Example.storage_of l) = l.
Proof.
  unfold persisted, Example.storage_of. simpl.
  rewrite lookup_singleton_eq. simpl. by rewrite decode_encode.
Qed.

Lemma Example_persisted_empty :
  persisted Example.parse Example.empty_storage = [].
Proof. unfold persisted. simpl. by rewrite lookup_empty. Qed.

(** Saving into the empty storage, and into one that holds messages. *)
Lemma Example_save_first (m : Message Z) :
  Storage.saveMessage Example.unlimited Example.stringify Example.parse m
    Example.empty_storage
  = Normal true (Example.storage_of [m]).
Proof.
  pose proof (saveMessage_cases Example.unlimited Example.stringify
                Example.parse m Example.empty_storage) as Hsave.
  rewrite Example_persisted_empty in Hsave. simpl in Hsave.
  rewrite Hsave. unfold Example.storage_of. by rewrite insert_empty.
Qed.

Lemma Example_save_next (l : list (Message Z)) (m : Message Z) :
  Storage.saveMessage Example.unlimited Example.stringify Example.parse m
    (Example.storage_of l)
  = Normal true (Example.storage_of (l ++ [m])).
Proof.
  pose proof (saveMessage_cases Example.unlimited Example.stringify
                Example.parse m (Example.storage_of l)) as Hsave.
  rewrite Example_persisted in Hsave. simpl in Hsave.
  rewrite Hsave. unfold Example.storage_of. by rewrite insert_singleton_eq.
Qed.

Lemma Example_consistent : consistent Example.empty_world.
Proof.
  split.
  - intros mesh Hin. by apply elem_of_nil in Hin.
  - intros id. unfold live_nodes. simpl. by rewrite lookup_empty.
Qed.

(** C3, counterexample. A store that holds a message with id [m1] accepts
    a second message with that id; [getMessageById('m1')] then returns the
    first message, not the one just saved. *)
Lemma saveMessage_getMessageById_shadowed :
  Storage.saveMessage Example.unlimited Example.stringify Example.parse
    Example.new_message (Example.storage_of [Example.old_message])
  = Normal true
      (Example.storage_of [Example.old_message; Example.new_message]) ∧
  Storage.getMessageById Example.parse (Msg.message_id Example.new_message)
    (Example.storage_of [Example.old_message; Example.new_message])
  = Normal (Some Example.old_message)
      (Example.storage_of [Example.old_message; Example.new_message]) ∧
  Some Example.old_message ≠ Some Example.new_message.
Proof.
  split; [apply Example_save_next|]. split; [|done].
  unfold Storage.getMessageById.
  rewrite (bind_Normal _ _ _ _ _ (getAllMessages_stored _ _)).
  by rewrite Example_persisted.
Qed.

(** C3, example: the first message saved into the empty store is found
    under its id. *)
Lemma saveMessage_getMessageById_example :
  Storage.getMessageById Example.parse (js "m1")
    (Example.storage_of [Example.old_message])
  = Normal (Some Example.old_message)
      (Example.storage_of [Example.old_message]).
Proof.
  apply (saveMessage_getMessageById Example.unlimited Example.stringify
           Example.parse Example_parse_stringify Example.old_message
           Example.empty_storage).
  - apply Example_save_first.
  - intros all m' Hall Hin.
    rewrite getAllMessages_stored, Example_persisted_empty in Hall.
    injection Hall as <-. by apply elem_of_nil in Hin.
Defined.

(** C4, example. *)
Lemma calculateTier_monotone_example :
  tier_le (Storage.calculateTier 5) (Storage.calculateTier 200000).
Proof.
  apply (calculateTier_monotone_thresholds 5 200000). lia.
Defined.

(** What [getAllMessages] returns from a storage of the examples. *)
Lemma JSONExample_stored (text : string) (v : JSON.Value Z) :
  match js text with
  | [] => None
  | c :: rest => JSONExample.parse (c :: rest)
  end = Some v →
  JSONStorage.getAllMessages JSONExample.parse
    (JSONExample.storage_with text)
  = Normal v (JSONExample.storage_with text).
Proof.
  intros Hparse. rewrite getAllMessages_value. f_equal.
  unfold persisted_value, JSONExample.storage_with.
  cbn [Storage.accessible Storage.items]. rewrite lookup_singleton_eq.
  destruct (js text); [done|]. by rewrite Hparse.
Qed.



(** C6, counterexample. Two messages with the same id, saved one after the
    other into the empty store, are both stored. *)
Lemma saveAll_duplicate_ids :
  saveAll Example.unlimited Example.stringify Example.parse
    [Example.old_message; Example.new_message] Example.empty_storage
  = Normal [true; true]
      (Example.storage_of [Example.old_message; Example.new_message]) ∧
  Storage.getAllMessages Example.parse
    (Example.storage_of [Example.old_message; Example.new_message])
  = Normal [Example.old_message; Example.new_message]
      (Example.storage_of [Example.old_message; Example.new_message]) ∧
  ¬ NoDup (Msg.message_id <$> [Example.old_message; Example.new_message]).
Proof.
  split; [|split].
  - cbn [saveAll]. unfold bind.
    rewrite (Example_save_first Example.old_message). cbv beta iota.
    rewrite (Example_save_next [Example.old_message] Example.new_message).
    reflexivity.
  - by rewrite getAllMessages_stored, Example_persisted.
  - intros Hnodup. apply NoDup_cons in Hnodup as [Hnotin _].
    apply Hnotin. simpl. apply list_elem_of_here.
Qed.

(** C6, example: one message saved into the empty store. *)
Lemma saveAll_append_only_example :
  ∃ oks st',
    saveAll Example.unlimited Example.stringify Example.parse
      [Example.old_message] Example.empty_storage = Normal oks st' ∧
    length oks = 1%nat ∧
    Storage.getAllMessages Example.parse st'
    = Normal (accepted [Example.old_message] oks) st' ∧
    accepted [Example.old_message] oks `sublist_of` [Example.old_message] ∧
    (NoDup (Msg.message_id <$> [Example.old_message]) →
     NoDup (Msg.message_id <$> accepted [Example.old_message] oks)).
Proof.
  apply (saveAll_append_only Example.unlimited Example.stringify
           Example.parse Example_parse_stringify [Example.old_message]
           Example.empty_storage).
  by rewrite getAllMessages_stored, Example_persisted_empty.
Defined.

(** C7, example: of two messages stamped one second apart around new year
    (UTC), the year 2024 has the first and the year 2025 the second. *)
Lemma getMessagesForYear_example :
  Storage.getMessagesForYear Example.parse Example.Date_parse Example.UTC
    2024 (Example.storage_of [Example.old_message; Example.new_message])
  = Normal [Example.old_message]
      (Example.storage_of [Example.old_message; Example.new_message]) ∧
  Storage.getMessagesForYear Example.parse Example.Date_parse Example.UTC
    2025 (Example.storage_of [Example.old_message; Example.new_message])
  = Normal [Example.new_message]
      (Example.storage_of [Example.old_message; Example.new_message]).
Proof.
  destruct (getMessagesForYear_correct Example.parse Example.Date_parse
              Example.UTC
              (Example.storage_of [Example.old_message; Example.new_message]))
    as (all & Hall & Hyear & _).
  rewrite getAllMessages_stored, Example_persisted in Hall.
  apply Normal_inj in Hall as [<- _].
  rewrite !Hyear.
  assert (H2024 : filter (falls_in_year Example.Date_parse Example.UTC 2024)
                    [Example.old_message; Example.new_message]
                  = [Example.old_message]) by (vm_compute; reflexivity).
  assert (H2025 : filter (falls_in_year Example.Date_parse Example.UTC 2025)
                    [Example.old_message; Example.new_message]
                  = [Example.new_message]) by (vm_compute; reflexivity).
  rewrite H2024, H2025. split; reflexivity.
Defined.

(** C8, counterexample (emotion variant). For a message whose emotion has
    no configuration, two calls of [addNode] throw twice and leave no live
    node for its id. *)
Lemma addNode_unconfigured_emotion :
  let addNode :=
    EmotionNodes.addNode (H := Example.numbers) Example.Math_random_stream
      Example.performance_now_stream in
  let m := Example.emotion_message "m1" (Some "happy") in
  let w1 := state_of (addNode m Example.empty_world) in
  let w2 := state_of (addNode m w1) in
  consistent Example.empty_world ∧
  ¬ completes (addNode m Example.empty_world) ∧
  ¬ completes (addNode m w1) ∧
  live_nodes w2 (Msg.message_id m) = [].
Proof.
  split; [apply Example_consistent|].
  split; [|split]; vm_compute; tauto.
Qed.

(** C8, example: a message with a configured emotion in the empty world. *)
Lemma addNode_idempotent_example :
  let addNode :=
    EmotionNodes.addNode (H := Example.numbers) Example.Math_random_stream
      Example.performance_now_stream in
  let m := Example.emotion_message "m1" (Some "joy") in
  exactly_one_node addNode m (Some 0%nat)
    (state_of (addNode m Example.empty_world)).
Proof.
  intros addNode m.
  apply (addNode_idempotent (H := Example.numbers) Example.Math_random_stream
           Example.performance_now_stream m Example.empty_world
           Example_consistent).
  vm_compute. reflexivity.
Defined.

(** C9, example. *)
Lemma getProgressToNextTier_example :
  ∃ p : Yearfruit.Progress,
    Yearfruit.progressFor 250000 = Some p ∧
    Yearfruit.currentTier p = js "Silver" ∧
    Yearfruit.nextTier p = Some (js "Gold") ∧
    (Yearfruit.progress p == 1 # 6)%Q ∧
    Yearfruit.remaining p = 750000.
Proof.
  destruct (getProgressToNextTier_spec 250000 ltac:(lia))
    as (p & Hp & Hcur & Hbounds & Hbelow & _).
  exists p. split; [exact Hp|].
  injection Hp as <-. repeat split; reflexivity.
Defined.

(** C10, counterexample. ['constructor'] is not one of the seven keys, yet
    [addNode] returns for a message with that emotion:
    [EMOTION_CONFIG['constructor']] is the function [Object], whose
    [geometry] is [undefined], and [createGeometry] takes its default
    case. *)
Lemma addNode_inherited_emotion :
  (js "constructor" ∉ emotions) ∧
  completes
    (EmotionNodes.addNode (H := Example.numbers) Example.Math_random_stream
       Example.performance_now_stream
       (Example.emotion_message "m1" (Some "constructor"))
       Example.empty_world).
Proof.
  split.
  - unfold emotions. intros Hin.
    repeat (apply elem_of_cons in Hin as [Hin|Hin]; [discriminate Hin|]).
    by apply elem_of_nil in Hin.
  - vm_compute. exact I.
Qed.

(** C10, examples: [joy] has a configuration, [happy] has none. *)
Lemma addNode_emotion_precondition_example :
  completes
    (EmotionNodes.addNode (H := Example.numbers) Example.Math_random_stream
       Example.performance_now_stream
       (Example.emotion_message "m1" (Some "joy")) Example.empty_world) ∧
  ¬ completes
      (EmotionNodes.addNode (H := Example.numbers) Example.Math_random_stream
         Example.performance_now_stream
         (Example.emotion_message "m1" (Some "happy")) Example.empty_world).
Proof.
  split.
  - destruct (addNode_emotion_precondition (H := Example.numbers)
                Example.Math_random_stream Example.performance_now_stream
                (Example.emotion_message "m1" (Some "joy"))
                Example.empty_world) as (_ & Hkeys & _).
    apply (Hkeys (js "joy")).
    + reflexivity.
    + apply list_elem_of_here.
  - destruct (addNode_emotion_precondition (H := Example.numbers)
                Example.Math_random_stream Example.performance_now_stream
                (Example.emotion_message "m1" (Some "happy"))
                Example.empty_world) as (_ & _ & Hiff & Hnone & _).
    rewrite (Hiff (lookup_empty _)). intros Hconfig. apply Hconfig.
    reflexivity.
Defined.

(** * Further properties of utils/hash.js *)

(** One round of the loop multiplies by 31 and adds the unit, modulo
    [2^32]. *)
Lemma hash_step_31 h c : Hash.hash_step h c = ToInt32 (31 * h + Z.of_N c).
Proof.
  unfold Hash.hash_step. rewrite band_diag. unfold shl.
  change (Z.land 5 31) with 5. rewrite Z.shiftl_mul_pow2 by lia.
  generalize (Z.of_N c). intros n. unfold ToInt32.
  change (2 ^ 5) with 32. change (2 ^ 31) with 2147483648.
  change (2 ^ 32) with 4294967296.
  Z.div_mod_to_equations. lia.
Qed.

Lemma hash_loop_poly str h h' :
  ToInt32 h = ToInt32 h' →
  ToInt32 (fold_left Hash.hash_step str h)
  = ToInt32 (fold_left (λ h c, 31 * h + Z.of_N c) str h').
Proof.
  revert h h'. induction str as [|c str IH]; intros h h' E; simpl; [done|].
  apply IH. rewrite hash_step_31.
  rewrite (ToInt32_id (ToInt32 _)) by apply ToInt32_range.
  revert E. generalize (Z.of_N c). intros n. unfold ToInt32.
  change (2 ^ 31) with 2147483648. change (2 ^ 32) with 4294967296.
  Z.div_mod_to_equations. lia.
Qed.

(** X2. [hashCode] is the absolute value of the polynomial hash in 31 of
    the code units, reduced to a signed 32-bit integer; it lies between 0
    and 2^31, both included. *)
Theorem hashCode_polynomial (str : jsstring) :
  Hash.hashCode str = Z.abs (ToInt32 (poly31 str)) ∧
  0 ≤ Hash.hashCode str ≤ 2 ^ 31.
Proof.
  split; [|apply hashCode_range].
  unfold Hash.hashCode, poly31. f_equal.
  rewrite <- (hash_loop_poly str 0 0 eq_refl).
  symmetry. apply ToInt32_id, hash_loop_range. lia.
Qed.

(** X3. On a string of 16-bit code units every number that the loop of
    [hashCode] computes is an integer of magnitude below 2^53: the shifted
    accumulator is a 32-bit integer and the sum stays exact in a double. *)
Theorem hashCode_exact_arithmetic (before after : jsstring) (char : N) :
  wf_string (before ++ char :: after) →
  let hash := fold_left Hash.hash_step before 0 in
  - 2 ^ 31 ≤ hash < 2 ^ 31 ∧
  - 2 ^ 31 ≤ shl hash 5 < 2 ^ 31 ∧
  - 2 ^ 53 < shl hash 5 - hash + Z.of_N char < 2 ^ 53.
Proof.
  intros Hwf hash.
  assert (Hrange : - 2 ^ 31 ≤ hash < 2 ^ 31)
    by (apply hash_loop_range; lia).
  assert (Hchar : (char < 65536)%N).
  { unfold wf_string in Hwf. rewrite Forall_app, Forall_cons in Hwf.
    by destruct Hwf as (_ & ? & _). }
  split; [exact Hrange|]. split; [apply ToInt32_range|].
  by apply hash_step_exact.
Qed.

Section MoreHashFacts.
Context {F : Type} `{JSNumber F}.

(** A call of the newest closure changes its variable only. *)
Lemma call_last (cells : list F) s :
  ∃ v s', Hash.call (length cells) (cells ++ [s])
          = Normal v (cells ++ [s']).
Proof.
  unfold Hash.call. rewrite list_lookup_middle by done.
  do 2 eexists. f_equal.
  rewrite insert_app_r_alt by lia. by rewrite Nat.sub_diag.
Qed.

Ltac draw_last :=
  match goal with
  | |- context [bind (Hash.call (length ?cells)) _ (?cells ++ [?s])] =>
      let v := fresh "v" in
      let s' := fresh "s" in
      let E := fresh "E" in
      destruct (call_last cells s) as (v & s' & E);
      rewrite (bind_Normal _ _ _ _ _ E); clear E
  end.

Lemma getPositionForTreePart_last part seed (cells : list F) s :
  ∃ v s', Hash.getPositionForTreePart part (length cells) seed (cells ++ [s])
          = Normal v (cells ++ [s']).
Proof.
  unfold Hash.getPositionForTreePart.
  repeat case_decide; repeat draw_last; unfold ret; eauto.
Qed.

(** X4. [getMessagePlacement] creates one closure and leaves the variables
    of all closures created before as they were: after the call the store
    is the old one followed by the variable of the new closure. *)
Theorem getMessagePlacement_allocates_one (userName messageId : jsstring)
    (cells : list F) :
  ∃ p s, Hash.getMessagePlacement userName messageId cells
         = Normal p (cells ++ [s]).
Proof.
  unfold Hash.getMessagePlacement.
  rewrite (bind_Normal (Hash.seededRandom _) _ cells _ _ eq_refl).
  match goal with
  | |- context [Hash.getPositionForTreePart ?part _ ?seed] =>
      destruct (getPositionForTreePart_last part seed cells (of_Z seed))
        as (pos & s1 & E)
  end.
  rewrite (bind_Normal _ _ _ _ _ E). draw_last. unfold ret. eauto.
Qed.

(** X5. Two generators do not disturb each other: calls of two different
    closures return the same numbers and leave the same store in either
    order. *)
Theorem call_commute (rand1 rand2 : nat) (cells : list F) :
  rand1 ≠ rand2 →
  (rand1 < length cells)%nat →
  (rand2 < length cells)%nat →
  ∃ v1 v2 cells',
    (let* a := Hash.call rand1 in
     let* b := Hash.call rand2 in ret (a, b))%js cells
    = Normal (v1, v2) cells' ∧
    (let* b := Hash.call rand2 in
     let* a := Hash.call rand1 in ret (a, b))%js cells
    = Normal (v1, v2) cells'.
Proof.
  intros Hne H1 H2.
  destruct (lookup_lt_is_Some_2 _ _ H1) as [s1 E1].
  destruct (lookup_lt_is_Some_2 _ _ H2) as [s2 E2].
  unfold bind, Hash.call, ret. rewrite E1, E2.
  rewrite !list_lookup_insert_ne by done. rewrite E1, E2.
  do 3 eexists. split; [reflexivity|].
  f_equal. symmetry. by apply list_insert_insert_ne.
Qed.

End MoreHashFacts.

(** * Further properties of utils/storage.js, on a storage that holds a
    message array *)
Section MoreStorageFacts.
Context {F : Type}.
Variable quota_ok : gmap jsstring jsstring → jsstring → jsstring → bool.
Variable JSON_stringify : list (Message F) → option jsstring.
Variable JSON_parse : jsstring → option (list (Message F)).
Variable Date_parse : jsstring → option Z.
Variable LocalTZA : Z → Z.

Local Abbreviation getAllMessages := (Storage.getAllMessages JSON_parse).
Local Abbreviation saveMessage :=
  (Storage.saveMessage quota_ok JSON_stringify JSON_parse).
Local Abbreviation getMessageById := (Storage.getMessageById JSON_parse).
Local Abbreviation getMessageCount := (Storage.getMessageCount JSON_parse).
Local Abbreviation getMessagesForYear :=
  (Storage.getMessagesForYear JSON_parse Date_parse LocalTZA).
Local Abbreviation stored := (persisted JSON_parse).

Lemma find_first {A} (test : A → bool) (l : list A) :
  match Storage.find test l with
  | Some a =>
      ∃ before after,
        l = before ++ a :: after ∧ test a = true ∧
        ∀ b, b ∈ before → test b = false
  | None => ∀ b, b ∈ l → test b = false
  end.
Proof.
  induction l as [|a l IH]; simpl.
  - intros b Hb. by apply elem_of_nil in Hb.
  - destruct (test a) eqn:Ha.
    + exists [], l. split; [done|]. split; [done|].
      intros b Hb. by apply elem_of_nil in Hb.
    + destruct (Storage.find test l) as [a'|].
      * destruct IH as (before & after & -> & Ha' & Hbefore).
        exists (a :: before), after. split; [done|]. split; [done|].
        intros b [->|Hb]%elem_of_cons; [done|by apply Hbefore].
      * intros b [->|Hb]%elem_of_cons; [done|by apply IH].
Qed.

(** X6. On a storage that holds a message array, [getMessageById(id)]
    returns the first stored message with that id, and [null] exactly when
    no stored message has it. *)
Theorem getMessageById_first (id : jsstring) (st : Storage.LocalStorage) :
  ∃ all : list (Message F),
    getAllMessages st = Normal all st ∧
    ((∃ m before after,
        getMessageById id st = Normal (Some m) st ∧
        all = before ++ m :: after ∧
        Msg.message_id m = id ∧
        ∀ m', m' ∈ before → Msg.message_id m' ≠ id) ∨
     (getMessageById id st = Normal None st ∧
      ∀ m', m' ∈ all → Msg.message_id m' ≠ id)).
Proof.
  exists (stored st). split; [apply getAllMessages_stored|].
  unfold Storage.getMessageById.
  rewrite (bind_Normal _ _ _ _ _ (getAllMessages_stored _ st)). unfold ret.
  pose proof (find_first (λ m : Message F, bool_decide (Msg.message_id m = id))
                (stored st)) as Hfind.
  destruct (Storage.find _ (stored st)) as [m|].
  - left. destruct Hfind as (before & after & E & Hm & Hbefore).
    exists m, before, after. split; [done|]. split; [done|].
    split; [by apply bool_decide_eq_true in Hm|].
    intros m' Hm'. by apply (bool_decide_eq_false_1 _), Hbefore.
  - right. split; [done|].
    intros m' Hm'. by apply (bool_decide_eq_false_1 _), Hfind.
Qed.

(** X7. [clearAllMessages] on an accessible storage empties the store:
    afterwards [getAllMessages] returns the empty array, the count is 0 and
    every id is unknown. *)
Theorem clearAllMessages_empties (st : Storage.LocalStorage) :
  Storage.accessible st = true →
  ∃ st',
    Storage.clearAllMessages st = Normal () st' ∧
    getAllMessages st' = Normal [] st' ∧
    getMessageCount st' = Normal 0 st' ∧
    (∀ id, getMessageById id st' = Normal None st') ∧
    (∀ year, getMessagesForYear year st' = Normal [] st').
Proof.
  intros Hacc. unfold Storage.clearAllMessages, Storage.removeItem.
  rewrite Hacc. eexists. split; [reflexivity|].
  match goal with |- context [getAllMessages ?st'] => set (st1 := st') end.
  assert (Hempty : stored st1 = []).
  { unfold persisted, st1. simpl. by rewrite lookup_delete_eq. }
  assert (Hall : getAllMessages st1 = Normal [] st1).
  { by rewrite getAllMessages_stored, Hempty. }
  split; [exact Hall|].
  unfold Storage.getMessageCount, Storage.getMessageById,
    Storage.getMessagesForYear.
  split; [|split]; intros; by rewrite (bind_Normal _ _ _ _ _ Hall).
Qed.

Section RoundTrips.
Hypothesis parse_stringify :
  ∀ l text, JSON_stringify l = Some text →
            text ≠ [] ∧ JSON_parse text = Some l.

(** X8. On a storage that holds a message array, a successful
    [saveMessage] raises [getMessageCount()] by one; a failed one leaves it
    as it was. *)
Theorem saveMessage_count (m : Message F) (st st' : Storage.LocalStorage)
    (ok : bool) :
  saveMessage m st = Normal ok st' →
  ∃ n : Z,
    0 ≤ n ∧
    getMessageCount st = Normal n st ∧
    getMessageCount st' = Normal (if ok then n + 1 else n) st'.
Proof.
  intros Hsave. exists (Z.of_nat (length (stored st))).
  split; [lia|].
  unfold Storage.getMessageCount.
  rewrite !(bind_Normal _ _ _ _ _ (getAllMessages_stored _ _)).
  split; [done|]. unfold ret. f_equal.
  rewrite (saveMessage_stored quota_ok JSON_stringify JSON_parse
             parse_stringify _ _ _ _ Hsave).
  destruct ok; [|done]. rewrite length_app. simpl. lia.
Qed.

End RoundTrips.

Lemma getMessagesForYear_correct_aux st :
  ∃ all : list (Message F),
    getAllMessages st = Normal all st ∧
    ∀ year,
      getMessagesForYear year st
      = Normal (filter (falls_in_year Date_parse LocalTZA year) all) st.
Proof.
  exists (stored st). split; [apply getAllMessages_stored|].
  intros year. unfold Storage.getMessagesForYear.
  rewrite (bind_Normal _ _ _ _ _ (getAllMessages_stored _ st)).
  unfold ret. f_equal. apply filter_decide.
  intros m. apply strict_eq_year.
Qed.

Lemma progressFor_current count :
  0 ≤ count →
  ∃ p, Yearfruit.progressFor count = Some p ∧
       Yearfruit.currentTier p = Storage.tier (Storage.calculateTier count).
Proof.
  intros Hcount.
  unfold Yearfruit.progressFor, Yearfruit.getTierInfo.
  cbn [Yearfruit.scan Yearfruit.threshold Yearfruit.tier].
  destruct (calculateTier_cases count)
    as [[Hc ->]|[[Hc ->]|[[Hc ->]|[[Hc ->]|[Hc ->]]]]].
  - rewrite decide_True by lia. by eexists.
  - rewrite decide_False, decide_True by lia. by eexists.
  - rewrite !decide_False, decide_True by lia. by eexists.
  - rewrite !decide_False, decide_True by lia. by eexists.
  - rewrite !decide_False by lia. by eexists.
Qed.

Lemma calculateTier_mono count1 count2 :
  count1 ≤ count2 →
  tier_le (Storage.calculateTier count1) (Storage.calculateTier count2).
Proof.
  intros Hle. unfold tier_le.
  destruct (calculateTier_cases count1)
    as [[H1 ->]|[[H1 ->]|[[H1 ->]|[[H1 ->]|[H1 ->]]]]];
  destruct (calculateTier_cases count2)
    as [[H2 ->]|[[H2 ->]|[[H2 ->]|[[H2 ->]|[H2 ->]]]]];
  try lia;
  do 2 eexists; (split; [reflexivity|]); (split; [reflexivity|]); lia.
Qed.

(** X9. On a storage that holds a message array, the messages of a year
    are a subsequence of all messages, and two different years share no
    message: a stored message belongs to at most one year. *)
Theorem getMessagesForYear_partition (st : Storage.LocalStorage) :
  ∃ all : list (Message F),
    getAllMessages st = Normal all st ∧
    (∀ year, ∃ of_year,
       getMessagesForYear year st = Normal of_year st ∧
       of_year `sublist_of` all ∧
       (length of_year ≤ length all)%nat) ∧
    (∀ year1 year2 l1 l2 m,
       year1 ≠ year2 →
       getMessagesForYear year1 st = Normal l1 st →
       getMessagesForYear year2 st = Normal l2 st →
       m ∈ l1 → m ∉ l2).
Proof.
  destruct (getMessagesForYear_correct_aux st) as (all & Hall & Hyear).
  exists all. split; [exact Hall|]. split.
  - intros year. eexists. split; [apply Hyear|].
    assert (Hsub : filter (falls_in_year Date_parse LocalTZA year) all
                   `sublist_of` all) by apply sublist_filter.
    split; [exact Hsub|by apply sublist_length].
  - intros year1 year2 l1 l2 m Hne H1 H2.
    rewrite Hyear in H1, H2.
    apply Normal_inj in H1 as [<- _]. apply Normal_inj in H2 as [<- _].
    rewrite !list_elem_of_filter. unfold falls_in_year.
    intros [Hin1 _] [Hin2 _].
    destruct (Date_parse (Msg.timestamp m)) as [t|]; [|done].
    apply YearFromTime_spec in Hin1. apply YearFromTime_spec in Hin2.
    congruence.
Qed.

(** X10. The tier that [Yearfruit.update] shows is computed from the
    messages of the current year, while [getProgressToNextTier] counts all
    messages: the tier shown is never above the current tier of the
    progress report. *)
Theorem update_tier_below_progress (currentYear : Z)
    (st : Storage.LocalStorage) :
  ∃ count shown p r1 r2,
    YearfruitDisplay.update_tier JSON_parse Date_parse LocalTZA currentYear st
    = Normal (count, shown) st ∧
    Yearfruit.getProgressToNextTier JSON_parse st = Normal (Some p) st ∧
    rank (Storage.tier shown) = Some r1 ∧
    rank (Yearfruit.currentTier p) = Some r2 ∧
    (r1 ≤ r2)%nat.
Proof.
  destruct (getMessagesForYear_correct_aux st) as (all & Hall & Hyear).
  unfold YearfruitDisplay.update_tier.
  rewrite (bind_Normal _ _ _ _ _ (Hyear currentYear)).
  rewrite getProgressToNextTier_count.
  rewrite getAllMessages_stored in Hall. apply Normal_inj in Hall as [<- _].
  set (of_year := filter _ _).
  assert (Hlen : (length of_year ≤ length (stored st))%nat)
    by apply sublist_length, sublist_filter.
  destruct (progressFor_current (Z.of_nat (length (stored st))) ltac:(lia))
    as (p & Hp & Hcur).
  destruct (calculateTier_mono (Z.of_nat (length of_year))
              (Z.of_nat (length (stored st))) ltac:(lia))
    as (r1 & r2 & Hr1 & Hr2 & Hle).
  exists (Z.of_nat (length of_year)),
    (Storage.calculateTier (Z.of_nat (length of_year))), p, r1, r2.
  split; [done|]. split; [by rewrite Hp|]. split; [done|].
  split; [by rewrite Hcur|done].
Qed.

End MoreStorageFacts.

(** * Properties of the settings of utils/storage.js *)
Section SettingsFacts.
Context {F : Type}.
Variable quota_ok : gmap jsstring jsstring → jsstring → jsstring → bool.
Variable JSON_stringify : JSON.Value F → option jsstring.
Variable JSON_parse : jsstring → option (JSON.Value F).

Local Abbreviation getSettings := (Settings.getSettings JSON_parse).
Local Abbreviation saveSettings :=
  (Settings.saveSettings quota_ok JSON_stringify).
Local Abbreviation getAllMessages := (JSONStorage.getAllMessages JSON_parse).
Local Abbreviation saveMessage :=
  (JSONStorage.saveMessage quota_ok JSON_stringify JSON_parse).
Local Abbreviation settings := (persisted_settings JSON_parse).

(** What [getSettings] returns, by the state of the storage. *)
Lemma getSettings_stored st : getSettings st = Normal (settings st) st.
Proof.
  unfold Settings.getSettings, persisted_settings, try_catch, bind,
    Storage.getItem.
  destruct (Storage.accessible st); [|done].
  destruct (Storage.items st !! Storage.SETTINGS_KEY) as [[|c text]|];
    try done.
  unfold Storage.host. by destruct (JSON_parse (c :: text)).
Qed.

(** What [saveSettings] does, by the answers of the host. *)
Lemma saveSettings_cases s st :
  match JSON_stringify s with
  | Some text =>
      if Storage.accessible st
         && quota_ok (Storage.items st) Storage.SETTINGS_KEY text
      then saveSettings s st
           = Normal ()
               {| Storage.items :=
                    <[Storage.SETTINGS_KEY := text]> (Storage.items st);
                  Storage.accessible := Storage.accessible st |}
      else saveSettings s st = Normal () st
  | None => saveSettings s st = Normal () st
  end.
Proof.
  unfold Settings.saveSettings, try_catch, bind, Storage.host.
  destruct (JSON_stringify s) as [text|]; [|done].
  unfold ret, Storage.setItem.
  by destruct (Storage.accessible st && quota_ok _ _ text).
Qed.

Lemma keys_differ : Storage.STORAGE_KEY ≠ Storage.SETTINGS_KEY.
Proof. by vm_compute. Qed.

(** [saveMessage] writes under the key of the messages only. *)
Lemma saveMessage_writes m st ok st' :
  saveMessage m st = Normal ok st' →
  Storage.accessible st' = Storage.accessible st ∧
  ∀ key, key ≠ Storage.STORAGE_KEY →
         Storage.items st' !! key = Storage.items st !! key.
Proof.
  intros Hsave.
  destruct (persisted_value JSON_parse st) as [| | | |elements|] eqn:Hvalue;
    try (rewrite saveMessage_other in Hsave
           by (intros elements; rewrite Hvalue; discriminate);
         by apply Normal_inj in Hsave as [_ <-]).
  pose proof (saveMessage_array quota_ok JSON_stringify JSON_parse m elements
                st Hvalue) as Hcases.
  destruct (JSON_stringify _) as [text|].
  - destruct (Storage.accessible st && quota_ok _ _ text);
      rewrite Hsave in Hcases; apply Normal_inj in Hcases as [_ ->];
      [|done].
    split; [done|]. intros key Hkey. simpl.
    by rewrite lookup_insert_ne.
  - rewrite Hsave in Hcases. by apply Normal_inj in Hcases as [_ ->].
Qed.

(** X11. The messages and the settings do not disturb each other:
    [saveSettings] leaves the persisted value of the messages as it was,
    and [saveMessage] and [clearAllMessages] leave the persisted settings
    as they were, whether or not the call could write. *)
Theorem settings_messages_independent (st : Storage.LocalStorage) :
  (∀ s st', saveSettings s st = Normal () st' →
            getAllMessages st'
            = Normal (persisted_value JSON_parse st) st') ∧
  (∀ m ok st', saveMessage m st = Normal ok st' →
               getSettings st' = Normal (settings st) st') ∧
  (∀ st', Storage.clearAllMessages st = Normal () st' →
          getSettings st' = Normal (settings st) st').
Proof.
  split; [|split].
  - intros s st' Hsave. rewrite getAllMessages_value. f_equal.
    pose proof (saveSettings_cases s st) as Hcases.
    destruct (JSON_stringify s) as [text|].
    + destruct (Storage.accessible st && quota_ok _ _ text);
        rewrite Hsave in Hcases; apply Normal_inj in Hcases as [_ ->];
        [|done].
      unfold persisted_value. simpl.
      rewrite lookup_insert_ne by (apply not_eq_sym, keys_differ). done.
    + rewrite Hsave in Hcases. by apply Normal_inj in Hcases as [_ ->].
  - intros m ok st' Hsave. rewrite getSettings_stored. f_equal.
    destruct (saveMessage_writes m st ok st' Hsave) as [Hacc Hitems].
    unfold persisted_settings.
    by rewrite Hacc, Hitems by (apply not_eq_sym, keys_differ).
  - intros st' Hclear. rewrite getSettings_stored. f_equal.
    unfold Storage.clearAllMessages, Storage.removeItem in Hclear.
    destruct (Storage.accessible st) eqn:Hacc; [|done].
    apply Normal_inj in Hclear as [_ <-].
    unfold persisted_settings. simpl. rewrite Hacc.
    rewrite lookup_delete_ne by apply keys_differ. done.
Qed.

(** X12. The settings round trip: [saveSettings] never throws; when its
    text was written and the settings survive serialisation, [getSettings]
    returns the settings saved; when the text was not written, the storage
    is unchanged.  [getSettings] never throws, and returns
    [{ weather: 'clear', autoWeather: false }] when the storage cannot be
    read, holds no settings or holds a text that is not JSON. *)
Theorem saveSettings_getSettings (s : JSON.Value F)
    (st : Storage.LocalStorage) :
  (∀ text, JSON_stringify s = Some text →
           text ≠ [] ∧ JSON_parse text = Some s) →
  (∃ st',
     saveSettings s st = Normal () st' ∧
     ((∃ text, JSON_stringify s = Some text ∧
               Storage.setItem quota_ok Storage.SETTINGS_KEY text st
               = Normal () st' ∧
               getSettings st' = Normal s st') ∨
      ((JSON_stringify s = None ∨
        ∃ text, JSON_stringify s = Some text ∧
                Storage.setItem quota_ok Storage.SETTINGS_KEY text st
                = Abrupt st) ∧
       st' = st))) ∧
  (∃ current, getSettings st = Normal current st) ∧
  (Storage.accessible st = false ∨
   Storage.items st !! Storage.SETTINGS_KEY = None ∨
   (∃ text, Storage.items st !! Storage.SETTINGS_KEY = Some text ∧
            JSON_parse text = None) →
   getSettings st = Normal Settings.defaults st).
Proof.
  intros Hround. split; [|split].
  - pose proof (saveSettings_cases s st) as Hcases.
    unfold Storage.setItem.
    destruct (JSON_stringify s) as [text|] eqn:Htext.
    + destruct (Storage.accessible st && quota_ok _ _ text) eqn:Hok.
      * eexists. split; [exact Hcases|]. left. exists text.
        split; [done|]. split; [by rewrite Hok|].
        rewrite getSettings_stored. f_equal.
        apply andb_prop in Hok as [Hacc _].
        destruct (Hround _ eq_refl) as [Hne Hparse].
        unfold persisted_settings. simpl. rewrite Hacc, lookup_insert_eq.
        destruct text; [done|]. by rewrite Hparse.
      * exists st. split; [exact Hcases|]. right. split; [|done].
        right. exists text. by rewrite Hok.
    + exists st. split; [exact Hcases|]. right. split; [by left|done].
  - eexists. apply getSettings_stored.
  - intros Hnone. rewrite getSettings_stored. f_equal.
    unfold persisted_settings.
    destruct (Storage.accessible st); [|done].
    destruct Hnone as [?|[->|(text & -> & Hparse)]]; [done|done|].
    destruct text; [done|]. by rewrite Hparse.
Qed.

End SettingsFacts.

(** * Properties of the pointer of scene/Nodes.js *)
Section HoverFacts.
Context {F : Type}.
Variable w : Scene.World F.

Lemma clearTimeout_own (t : Hover.Timer F) :
  Hover.clearTimeout (Some (Hover.timer_id t)) [t] = [].
Proof. simpl. by rewrite Nat.eqb_refl. Qed.

(** Entering another mesh clears what was pending. *)
Lemma enter_clears (p : Hover.Pointer F) :
  Hover.at_most_one_pending p →
  (if Hover.is_set (Hover.hoverTimeout p)
   then Hover.clearTimeout (Hover.hoverTimeout p) (Hover.timers p)
   else Hover.timers p) = [].
Proof.
  intros [->|(t & -> & -> & _ & Hpos)].
  - destruct (Hover.is_set _); [|done]. by destruct (Hover.hoverTimeout p).
  - destruct (Hover.timer_id t) as [|id] eqn:Hid; [lia|].
    simpl. rewrite Hid. by rewrite Nat.eqb_refl.
Qed.

Lemma onMouseMove_pending hit x y (p : Hover.Pointer F) :
  Hover.at_most_one_pending p →
  Hover.at_most_one_pending (Hover.onMouseMove hit x y p).
Proof.
  intros Hp. unfold Hover.onMouseMove.
  destruct hit as [mesh|].
  - case_decide; [done|]. right.
    rewrite (enter_clears p Hp). eexists.
    split; [reflexivity|]. simpl. repeat split. lia.
  - destruct (Hover.hoveredNode p) as [mesh|] eqn:Hhover; [|done].
    left. simpl. destruct Hp as [->|(t & -> & -> & _)].
    + by destruct (Hover.hoverTimeout p).
    + apply clearTimeout_own.
Qed.

Lemma elapse_pending elapsed (p : Hover.Pointer F) :
  Hover.at_most_one_pending p →
  Hover.at_most_one_pending (Hover.elapse w elapsed p).
Proof.
  intros [Hp|(t & Hp & Hid & Htarget & Hpos)]; unfold Hover.elapse.
  - left. simpl. by rewrite Hp.
  - destruct (Hover.due t <=? Hover.now p + elapsed) eqn:Hdue.
    + left. simpl. rewrite Hp. simpl. by rewrite Hdue.
    + right. exists t. simpl. rewrite Hp. simpl. by rewrite Hdue.
Qed.

Lemma run_pending events (p : Hover.Pointer F) :
  Hover.at_most_one_pending p →
  Hover.at_most_one_pending (Hover.run w p events).
Proof.
  revert p. induction events as [|e events IH]; intros p Hp; [done|].
  apply IH. destruct e; [by apply onMouseMove_pending|by apply elapse_pending].
Qed.

Lemma run_onNodeHover events (p : Hover.Pointer F) :
  Hover.onNodeHover (Hover.run w p events) = Hover.onNodeHover p.
Proof.
  revert p. induction events as [|e events IH]; intros p; [done|].
  simpl. rewrite IH. destruct e as [[mesh|] x y|elapsed]; simpl; try done.
  - unfold Hover.onMouseMove. by case_decide.
  - unfold Hover.onMouseMove. by destruct (Hover.hoveredNode p).
Qed.

(** X13. The hover timer: whatever mouse events and delays the page has
    seen since the [NodeSystem] was constructed, at most one timeout is
    pending, it is the one whose id [hoverTimeout] holds, and it is for the
    mesh in [hoveredNode]. *)
Theorem hover_at_most_one_pending (registered : bool)
    (events : list (@Hover.Event F)) :
  let p := Hover.run w (Hover.initial registered) events in
  (length (Hover.timers p) ≤ 1)%nat ∧
  ∀ t, t ∈ Hover.timers p →
       Hover.hoverTimeout p = Some (Hover.timer_id t) ∧
       Hover.hoveredNode p = Some (Hover.target t).
Proof.
  intros p.
  assert (Hp : Hover.at_most_one_pending p).
  { apply run_pending. by left. }
  destruct Hp as [->|(t & -> & Hid & Htarget & _)].
  - split; [simpl; lia|]. intros t Ht. by apply elem_of_nil in Ht.
  - split; [simpl; lia|]. intros t' ->%list_elem_of_singleton. done.
Qed.

(** Without a pending timeout and without mouse events nothing is called. *)
Lemma run_quiet events (p : Hover.Pointer F) :
  Hover.timers p = [] →
  Forall Hover.idle events →
  Hover.calls (Hover.run w p events) = Hover.calls p.
Proof.
  revert p. induction events as [|e events IH]; intros p Hp Hidle; [done|].
  apply Forall_cons in Hidle as [He Hidle].
  destruct e as [hit x y|elapsed]; [done|]. simpl.
  rewrite IH; [|by simpl; rewrite Hp|done].
  simpl. rewrite Hp. simpl. by rewrite app_nil_r.
Qed.

(** X14. Leaving cancels the reveal: when the pointer moves off every node,
    no timeout remains pending, so however long the page then waits without
    a mouse event, the label of the node just left is not revealed; the only
    call made is [onNodeHover(null)], and only if a node was hovered. *)
Theorem hover_leave_cancels (registered : bool)
    (events later : list (@Hover.Event F)) (x y : F) :
  Forall Hover.idle later →
  let p := Hover.run w (Hover.initial registered) events in
  let left := Hover.onMouseMove None x y p in
  Hover.timers left = [] ∧
  Hover.hoveredNode left = None ∧
  Hover.calls left
  = Hover.calls p
      ++ match Hover.hoveredNode p with
         | Some _ => if registered then [Hover.Hide] else []
         | None => []
         end ∧
  Hover.calls (Hover.run w left later) = Hover.calls left.
Proof.
  intros Hidle p left.
  assert (Hp : Hover.at_most_one_pending p).
  { apply run_pending. by left. }
  assert (Hreg : Hover.onNodeHover p = registered).
  { unfold p. by rewrite run_onNodeHover. }
  assert (Hleft : Hover.timers left = []).
  { unfold left, Hover.onMouseMove.
    destruct (Hover.hoveredNode p) as [mesh|] eqn:Hhover; simpl.
    - destruct Hp as [->|(t & -> & -> & _)];
        [by destruct (Hover.hoverTimeout p)|apply clearTimeout_own].
    - destruct Hp as [->|(t & _ & _ & Htarget & _)]; [done|congruence]. }
  split; [exact Hleft|]. split; [|split].
  - unfold left, Hover.onMouseMove.
    by destruct (Hover.hoveredNode p) eqn:Hhover.
  - unfold left, Hover.onMouseMove.
    destruct (Hover.hoveredNode p); simpl; [|by rewrite app_nil_r].
    rewrite Hreg. destruct registered; [done|by rewrite app_nil_r].
  - by apply run_quiet.
Qed.

Lemma duration_nonneg mesh (events : list (@Hover.Event F)) :
  Forall (Hover.stays_on mesh) events → 0 ≤ Hover.duration events.
Proof.
  induction 1 as [|e events He _ IH]; simpl; [done|].
  destruct e; simpl in He; lia.
Qed.

(** Once the timeout has run, staying on the mesh calls nothing more. *)
Lemma run_revealed mesh events (p : Hover.Pointer F) :
  Hover.timers p = [] →
  Hover.hoveredNode p = Some mesh →
  Forall (Hover.stays_on mesh) events →
  Hover.calls (Hover.run w p events) = Hover.calls p.
Proof.
  revert p. induction events as [|e events IH]; intros p Hp Hhover Hstay;
    [done|].
  apply Forall_cons in Hstay as [He Hstay].
  destruct e as [hit x y|elapsed]; simpl in He; simpl.
  - subst hit. unfold Hover.onMouseMove.
    rewrite decide_True by done. by apply IH.
  - rewrite IH; [|by simpl; rewrite Hp|done|done].
    simpl. rewrite Hp. simpl. by rewrite app_nil_r.
Qed.

Lemma run_pending_reveal mesh events (p : Hover.Pointer F) t :
  Hover.timers p = [t] →
  Hover.hoveredNode p = Some mesh →
  Hover.now p < Hover.due t →
  Forall (Hover.stays_on mesh) events →
  Hover.calls (Hover.run w p events)
  = Hover.calls p
      ++ (if decide (Hover.due t ≤ Hover.now p + Hover.duration events)
          then Hover.reveal w (Hover.onNodeHover p) t else []).
Proof.
  revert p. induction events as [|e events IH];
    intros p Hp Hhover Hdue Hstay.
  - simpl. rewrite decide_False by lia. by rewrite app_nil_r.
  - apply Forall_cons in Hstay as [He Hstay].
    pose proof (duration_nonneg _ _ Hstay) as Hrest.
    destruct e as [hit x y|elapsed]; simpl in He; simpl.
    + subst hit. unfold Hover.onMouseMove.
      rewrite decide_True by done. by apply IH.
    + destruct (Hover.due t <=? Hover.now p + elapsed) eqn:Hready.
      * pose proof (proj1 (Z.leb_le _ _) Hready) as Hle.
        rewrite (run_revealed mesh);
          [|by simpl; rewrite Hp; simpl; rewrite Hready|done|done].
        simpl. rewrite Hp. simpl. rewrite Hready. simpl.
        rewrite decide_True by lia. by rewrite app_nil_r.
      * pose proof (proj1 (Z.leb_gt _ _) Hready) as Hgt.
        rewrite IH; [| |done|simpl; lia|done].
        -- simpl. rewrite Hp. simpl. rewrite Hready. simpl.
           rewrite app_nil_r.
           destruct (decide (Hover.due t ≤ Hover.now p + elapsed
                                           + Hover.duration events));
             [rewrite decide_True by lia|rewrite decide_False by lia]; done.
        -- simpl. rewrite Hp. simpl. by rewrite Hready.
Qed.

(** X15. The reveal is debounced: when the pointer enters a mesh and stays
    on it (moving over it or resting), [onNodeHover] is called with the
    message of the mesh and the coordinates of the entering event once 250
    milliseconds have passed, and not before; it is called once, however
    long the pointer stays. *)
Theorem hover_reveals_once (registered : bool)
    (events later : list (@Hover.Event F)) (mesh : nat) (x y : F) :
  let p := Hover.run w (Hover.initial registered) events in
  Hover.hoveredNode p ≠ Some mesh →
  Forall (Hover.stays_on mesh) later →
  Hover.calls (Hover.run w (Hover.onMouseMove (Some mesh) x y p) later)
  = Hover.calls p
      ++ (if decide (250 ≤ Hover.duration later)
          then Hover.reveal w registered
                 {| Hover.timer_id := S (Hover.timers_set p);
                    Hover.due := Hover.now p + 250;
                    Hover.target := mesh;
                    Hover.clientX := x; Hover.clientY := y |}
          else []).
Proof.
  intros p Hnew Hstay.
  assert (Hp : Hover.at_most_one_pending p).
  { apply run_pending. by left. }
  assert (Hreg : Hover.onNodeHover p = registered).
  { unfold p. by rewrite run_onNodeHover. }
  set (t := {| Hover.timer_id := S (Hover.timers_set p);
               Hover.due := Hover.now p + 250; Hover.target := mesh;
               Hover.clientX := x; Hover.clientY := y |}).
  set (entered := Hover.onMouseMove (Some mesh) x y p).
  assert (Htimers : Hover.timers entered = [t]).
  { unfold entered, Hover.onMouseMove. rewrite decide_False by done. simpl.
    by rewrite (enter_clears p Hp). }
  assert (Hentered : Hover.hoveredNode entered = Some mesh
                     ∧ Hover.now entered = Hover.now p
                     ∧ Hover.calls entered = Hover.calls p
                     ∧ Hover.onNodeHover entered = registered).
  { unfold entered, Hover.onMouseMove. by rewrite decide_False by done. }
  destruct Hentered as (Hhover & Hnow & Hcalls & Hreg').
  rewrite (run_pending_reveal mesh later entered t Htimers Hhover);
    [|rewrite Hnow; simpl; lia|done].
  rewrite Hcalls, Hnow, Hreg'. f_equal.
  destruct (decide (250 ≤ Hover.duration later));
    [rewrite decide_True by (simpl; lia)|rewrite decide_False by (simpl; lia)];
    done.
Qed.

End HoverFacts.

(** * Further properties of scene/Nodes.js *)
Section MoreNodeFacts.
Context {F : Type} `{JSNumber F}.
Variable Math_random_stream : nat → F.
Variable performance_now_stream : nat → F.

Local Abbreviation emotion_addNode :=
  (EmotionNodes.addNode Math_random_stream performance_now_stream).
Local Abbreviation inscription_addNode :=
  (InscriptionNodes.addNode Math_random_stream performance_now_stream).
Local Abbreviation emotion_loadNodes :=
  (EmotionNodes.loadNodes Math_random_stream performance_now_stream).
Local Abbreviation inscription_loadNodes :=
  (InscriptionNodes.loadNodes Math_random_stream performance_now_stream).

(** The inscription variant, first call for an id, with what the node
    records: the part and the position stored in the message, or those of
    [getMessagePlacement] when the message stores no position. *)
Lemma inscription_addNode_new_data (m : Message F) (w : Scene.World F) :
  Scene.meshes w !! Msg.message_id m = None →
  ∃ w1 u pl,
    inscription_addNode m w = Normal (Some (length (Scene.objects w))) w1 ∧
    (∀ cells : list F,
       ∃ cells',
         Hash.getMessagePlacement (Msg.userName m) (Msg.message_id m) cells
         = Normal pl cells') ∧
    Scene.messageId u = Msg.message_id m ∧
    Scene.message F u
    = InscriptionNodes.with_treePart m
        (match Msg.position m with
         | Some _ => Msg.treePart m
         | None =>
             InscriptionNodes.or_string (Msg.treePart m) (Hash.treePart pl)
         end) ∧
    Scene.originalPosition F u
    = default (Hash.position pl) (Msg.position m) ∧
    Scene.scene w1 = Scene.scene w ++ [length (Scene.objects w)] ∧
    Scene.meshes w1
    = <[Msg.message_id m := length (Scene.objects w)]> (Scene.meshes w) ∧
    Scene.nodes w1
    = <[Msg.message_id m := Scene.message F u]> (Scene.nodes w) ∧
    Scene.userData <$> Scene.objects w1
    = (Scene.userData <$> Scene.objects w) ++ [Some u].
Proof.
  intros Hnew.
  destruct (getMessagePlacement_agree (Msg.userName m) (Msg.message_id m)
              (Scene.cells w) (Scene.cells w)) as (pl & c & _ & Epl & _ & _).
  assert (Hpl : ∀ cells : list F,
            ∃ cells',
              Hash.getMessagePlacement (Msg.userName m) (Msg.message_id m)
                cells = Normal pl cells').
  { intros cells.
    destruct (getMessagePlacement_agree (Msg.userName m) (Msg.message_id m)
                (Scene.cells w) cells) as (q & d & cells' & D & D' & _).
    rewrite Epl in D. apply Normal_inj in D as [<- _]. eauto. }
  unfold InscriptionNodes.addNode.
  rewrite (bind_Normal get _ w w w eq_refl).
  rewrite decide_False by (rewrite Hnew; by intros [? ?]).
  assert (∃ w1,
            match Msg.position m with
            | Some _ =>
                ret (Msg.position m, Msg.treePart m, Msg.glowIntensity m)
            | None =>
                (let* p :=
                   Scene.with_cells
                     (Hash.getMessagePlacement (Msg.userName m)
                        (Msg.message_id m)) in
                 ret (Some (Hash.position p), Hash.treePart p,
                      Some (Hash.glowIntensity p)))%js
            end w
            = Normal
                (Some (default (Hash.position pl) (Msg.position m)),
                 match Msg.position m with
                 | Some _ => Msg.treePart m
                 | None => Hash.treePart pl
                 end,
                 match Msg.position m with
                 | Some _ => Msg.glowIntensity m
                 | None => Some (Hash.glowIntensity pl)
                 end) w1 ∧
            same_nodes w w1) as (w1 & E1 & S1).
  { destruct (Msg.position m) as [p|].
    - exists w. split; [done|apply same_nodes_refl].
    - destruct (with_cells_effect _ _ _ w Epl) as (w' & E' & S').
      exists w'. by rewrite (bind_Normal _ _ _ _ _ E'). }
  rewrite (bind_Normal _ _ _ _ _ E1). cbv beta iota zeta.
  match goal with
  | |- context [InscriptionNodes.createMaterial _ ?i] =>
      destruct (createMaterial_inscription_effect Math_random_stream i w1)
        as (mat & w2 & E2 & S2)
  end.
  rewrite (bind_Normal _ _ _ _ _ E2).
  rewrite (bind_Normal get _ w2 w2 w2 eq_refl).
  assert (Hpos : InscriptionNodes.or_object (Msg.position m)
                   (Some (default (Hash.position pl) (Msg.position m)))
                 = Some (default (Hash.position pl) (Msg.position m)))
    by by destruct (Msg.position m).
  rewrite Hpos.
  destruct (Math_random_effect Math_random_stream w2)
    as (r1 & w3 & E3 & S3).
  rewrite (bind_Normal _ _ _ _ _ E3).
  destruct (Math_random_effect Math_random_stream w3)
    as (r2 & w4 & E4 & S4).
  rewrite (bind_Normal _ _ _ _ _ E4).
  assert (S04 : same_nodes w w4) by eauto using same_nodes_trans.
  pose proof (same_nodes_length _ _ S04) as Hlen.
  destruct S04 as (Hscene & Hmeshes & Hnodes & Hdata).
  unfold Scene.new_Mesh at 1. unfold bind at 1.
  unfold Scene.register at 1. unfold bind at 1.
  match goal with
  | |- context [bind (Scene.animateBirth _ _) _ ?w5] =>
      destruct (animateBirth_effect performance_now_stream
                  (length (Scene.objects w4)) w5) as (w6 & E6 & S6)
  end.
  { simpl. rewrite length_app. simpl. lia. }
  unfold bind. rewrite E6. unfold ret.
  destruct S6 as (Hscene6 & Hmeshes6 & Hnodes6 & Hdata6).
  simpl in Hscene6, Hmeshes6, Hnodes6, Hdata6.
  rewrite Hlen. eexists _, _, pl. split; [reflexivity|].
  split; [exact Hpl|].
  split; [|split; [|split; [|split; [|split; [|split]]]]].
  7: by rewrite Hdata6, fmap_app, Hdata.
  - reflexivity.
  - simpl. f_equal. by destruct (Msg.position m), (Msg.treePart m) as [[|]|].
  - reflexivity.
  - by rewrite Hscene6, Hscene, Hlen.
  - by rewrite Hmeshes6, Hmeshes, Hlen.
  - by rewrite Hnodes6, Hnodes.
Qed.

(** The frame of a call that adds a node for a new id. *)
Lemma extend_others (m : Message F) (w w1 : Scene.World F) u node :
  consistent w →
  Scene.meshes w !! Msg.message_id m = None →
  Scene.messageId u = Msg.message_id m →
  Scene.scene w1 = Scene.scene w ++ [length (Scene.objects w)] →
  Scene.meshes w1
  = <[Msg.message_id m := length (Scene.objects w)]> (Scene.meshes w) →
  Scene.nodes w1 = <[Msg.message_id m := node]> (Scene.nodes w) →
  Scene.userData <$> Scene.objects w1
  = (Scene.userData <$> Scene.objects w) ++ [Some u] →
  consistent w1 ∧
  live_nodes w1 (Msg.message_id m) = [length (Scene.objects w)] ∧
  others_untouched m w (Some (length (Scene.objects w))) w1.
Proof.
  intros Hw Hnew Hu Hscene Hmeshes Hnodes Hdata.
  destruct (consistent_extend w w1 u m _ Hw Hnew Hu Hscene Hmeshes Hdata)
    as (Hw1 & Hmesh & Hlive).
  split; [done|]. split; [done|]. split; [|split].
  - intros mesh [= <-]. split; [done|].
    unfold Scene.getNodeByMessageId. by rewrite Hmesh.
  - done.
  - intros id Hid. unfold Scene.getNodeByMessageId.
    rewrite Hmeshes, Hnodes, !lookup_insert_ne by done.
    split; [done|]. split; [done|].
    destruct Hw as [_ Hlive0]. destruct Hw1 as [_ Hlive1].
    by rewrite Hlive0, Hlive1, Hmeshes, lookup_insert_ne.
Qed.

Lemma present_others (m : Message F) (w : Scene.World F) :
  others_untouched m w None w.
Proof.
  split; [done|]. split; [done|]. intros id _.
  by unfold Scene.getNodeByMessageId.
Qed.

(** The emotion variant with the node map: [nodes] records the message. *)
Lemma emotion_addNode_new_nodes (m : Message F) (w : Scene.World F) config :
  Scene.meshes w !! Msg.message_id m = None →
  EmotionNodes.config_of (Msg.emotion m) = Some config →
  ∃ w1 u,
    emotion_addNode m w = Normal (Some (length (Scene.objects w))) w1 ∧
    Scene.messageId u = Msg.message_id m ∧
    Scene.scene w1 = Scene.scene w ++ [length (Scene.objects w)] ∧
    Scene.meshes w1
    = <[Msg.message_id m := length (Scene.objects w)]> (Scene.meshes w) ∧
    Scene.nodes w1 = <[Msg.message_id m := m]> (Scene.nodes w) ∧
    Scene.userData <$> Scene.objects w1
    = (Scene.userData <$> Scene.objects w) ++ [Some u].
Proof.
  intros Hnew Hconfig. unfold EmotionNodes.addNode.
  rewrite (bind_Normal get _ w w w eq_refl).
  rewrite decide_False by (rewrite Hnew; by intros [? ?]).
  destruct (canopy_position_effect m w) as (p & w1 & E1 & S1).
  rewrite (bind_Normal _ _ _ _ _ E1).
  destruct (createGeometry_Normal _ _ Hconfig) as (g & Eg).
  rewrite (bind_Normal _ _ _ _ _ (Eg w1)).
  destruct (createMaterial_effect Math_random_stream _ _ w1 Hconfig)
    as (mat & w2 & E2 & S2).
  rewrite (bind_Normal _ _ _ _ _ E2).
  rewrite (bind_Normal get _ w2 w2 w2 eq_refl).
  destruct (Math_random_effect Math_random_stream w2)
    as (r1 & w3 & E3 & S3).
  rewrite (bind_Normal _ _ _ _ _ E3).
  destruct (Math_random_effect Math_random_stream w3)
    as (r2 & w4 & E4 & S4).
  rewrite (bind_Normal _ _ _ _ _ E4).
  rewrite Hconfig.
  assert (S04 : same_nodes w w4) by eauto using same_nodes_trans.
  pose proof (same_nodes_length _ _ S04) as Hlen.
  destruct S04 as (Hscene & Hmeshes & Hnodes & Hdata).
  unfold Scene.new_Mesh at 1. unfold bind at 1.
  unfold Scene.register at 1. unfold bind at 1.
  match goal with
  | |- context [bind (Scene.animateBirth _ _) _ ?w5] =>
      destruct (animateBirth_effect performance_now_stream
                  (length (Scene.objects w4)) w5) as (w6 & E6 & S6)
  end.
  { simpl. rewrite length_app. simpl. lia. }
  unfold bind. rewrite E6. unfold ret.
  destruct S6 as (Hscene6 & Hmeshes6 & Hnodes6 & Hdata6).
  simpl in Hscene6, Hmeshes6, Hnodes6, Hdata6.
  rewrite Hlen. do 2 eexists. split; [reflexivity|].
  split; [|split; [|split; [|split]]].
  5: by rewrite Hdata6, fmap_app, Hdata.
  - reflexivity.
  - by rewrite Hscene6, Hscene, Hlen.
  - by rewrite Hmeshes6, Hmeshes, Hlen.
  - by rewrite Hnodes6, Hnodes.
Qed.

(** X16. A call of [addNode] that returns leaves the other nodes alone:
    for every other id the mesh found by [getNodeByMessageId], the recorded
    message and the live nodes are what they were; when it returns a mesh,
    the id was new and [getNodeByMessageId] now finds that mesh; when it
    returns [undefined], nothing has changed.  This holds in both
    variants. *)
Theorem addNode_others_untouched (m : Message F) (w : Scene.World F) :
  consistent w →
  (∀ r w1, emotion_addNode m w = Normal r w1 →
           consistent w1 ∧ others_untouched m w r w1) ∧
  (∀ r w1, inscription_addNode m w = Normal r w1 →
           consistent w1 ∧ others_untouched m w r w1).
Proof.
  intros Hw. split; intros r w1 Hadd;
    destruct (Scene.meshes w !! Msg.message_id m) as [mesh|] eqn:Hid.
  - rewrite (emotion_addNode_present _ _ _ _ _ Hid) in Hadd.
    apply Normal_inj in Hadd as [<- <-]. split; [done|apply present_others].
  - destruct (EmotionNodes.config_of (Msg.emotion m)) as [config|] eqn:Hc.
    + destruct (emotion_addNode_new_nodes m w config Hid Hc)
        as (w1' & u & E & Hu & Hscene & Hmeshes & Hnodes & Hdata).
      rewrite E in Hadd. apply Normal_inj in Hadd as [<- <-].
      destruct (extend_others m w w1' u m Hw Hid Hu Hscene Hmeshes Hnodes
                  Hdata) as (? & _ & ?). done.
    + destruct (emotion_addNode_throws Math_random_stream
                  performance_now_stream m w Hid Hc) as (w' & E & _).
      by rewrite E in Hadd.
  - rewrite (inscription_addNode_present _ _ _ _ _ Hid) in Hadd.
    apply Normal_inj in Hadd as [<- <-]. split; [done|apply present_others].
  - destruct (inscription_addNode_new_data m w Hid)
      as (w1' & u & pl & E & _ & Hu & _ & _ & Hscene & Hmeshes & Hnodes
          & Hdata).
    rewrite E in Hadd. apply Normal_inj in Hadd as [<- <-].
    destruct (extend_others m w w1' u _ Hw Hid Hu Hscene Hmeshes Hnodes
                Hdata) as (? & _ & ?). done.
Qed.

(** X17. What the node of an inscription records: when [addNode] makes a
    node for a message that stores a position, the node keeps that position
    and the stored tree part; when the message stores none, the node gets
    the position and (unless the message names one) the tree part of
    [getMessagePlacement(userName, message_id)].  The message recorded in
    [nodes] and in the user data of the mesh carries that tree part. *)
Theorem inscription_node_records (m : Message F) (w : Scene.World F) :
  consistent w →
  Scene.meshes w !! Msg.message_id m = None →
  ∃ mesh w1 u pl,
    inscription_addNode m w = Normal (Some mesh) w1 ∧
    (∀ cells : list F,
       ∃ cells',
         Hash.getMessagePlacement (Msg.userName m) (Msg.message_id m) cells
         = Normal pl cells') ∧
    Scene.userData <$> Scene.objects w1 !! mesh = Some (Some u) ∧
    Scene.nodes w1 !! Msg.message_id m = Some (Scene.message F u) ∧
    live_nodes w1 (Msg.message_id m) = [mesh] ∧
    Scene.originalPosition F u
    = match Msg.position m with
      | Some p => p
      | None => Hash.position pl
      end ∧
    Scene.message F u
    = InscriptionNodes.with_treePart m
        (match Msg.position m with
         | Some _ => Msg.treePart m
         | None =>
             InscriptionNodes.or_string (Msg.treePart m) (Hash.treePart pl)
         end).
Proof.
  intros Hw Hid.
  destruct (inscription_addNode_new_data m w Hid)
    as (w1 & u & pl & E & Hpl & Hu & Hmsg & Hpos & Hscene & Hmeshes & Hnodes
        & Hdata).
  destruct (extend_others m w w1 u _ Hw Hid Hu Hscene Hmeshes Hnodes Hdata)
    as (_ & Hlive & _).
  exists (length (Scene.objects w)), w1, u, pl.
  split; [done|]. split; [done|]. split.
  { rewrite <- list_lookup_fmap, Hdata.
    apply list_lookup_middle. by rewrite length_fmap. }
  split; [by rewrite Hnodes, lookup_insert_eq|].
  split; [done|]. split; [|done].
  rewrite Hpos. by destruct (Msg.position m).
Qed.

Lemma inscription_addNode_step (m : Message F) (w : Scene.World F) :
  consistent w →
  ∃ r w1 mesh,
    inscription_addNode m w = Normal r w1 ∧
    consistent w1 ∧
    Scene.meshes w1 !! Msg.message_id m = Some mesh ∧
    (∀ id mesh', Scene.meshes w !! id = Some mesh' →
                 Scene.meshes w1 !! id = Some mesh') ∧
    (∀ id, id ≠ Msg.message_id m →
           Scene.meshes w1 !! id = Scene.meshes w !! id).
Proof.
  intros Hw.
  destruct (Scene.meshes w !! Msg.message_id m) as [mesh|] eqn:Hid.
  - exists None, w, mesh.
    split; [by eapply inscription_addNode_present|].
    split; [exact Hw|]. by split; [|split].
  - destruct (inscription_addNode_new_data m w Hid)
      as (w1 & u & pl & E & _ & Hu & _ & _ & Hscene & Hmeshes & Hnodes
          & Hdata).
    destruct (extend_others m w w1 u _ Hw Hid Hu Hscene Hmeshes Hnodes Hdata)
      as (Hw1 & _ & _).
    exists (Some (length (Scene.objects w))), w1, (length (Scene.objects w)).
    split; [done|]. split; [done|].
    split; [by rewrite Hmeshes, lookup_insert_eq|]. split.
    + intros id mesh' Hold. rewrite Hmeshes, lookup_insert_ne; [done|].
      intros <-. congruence.
    + intros id Hne. by rewrite Hmeshes, lookup_insert_ne.
Qed.

(** [loadNodes] of the inscription variant, by induction on the array. *)
Lemma inscription_loadNodes_each (messages : list (Message F))
    (w : Scene.World F) :
  consistent w →
  ∃ w',
    inscription_loadNodes messages w = Normal () w' ∧
    consistent w' ∧
    (∀ m, m ∈ messages →
          ∃ mesh, Scene.meshes w' !! Msg.message_id m = Some mesh ∧
                  live_nodes w' (Msg.message_id m) = [mesh]) ∧
    (∀ id mesh, Scene.meshes w !! id = Some mesh →
                Scene.meshes w' !! id = Some mesh) ∧
    (∀ id, id ∉ Msg.message_id <$> messages →
           Scene.meshes w' !! id = Scene.meshes w !! id).
Proof.
  revert w. induction messages as [|m messages IH]; intros w Hw.
  - exists w. split; [done|]. split; [done|]. split; [|done].
    intros m Hm. by apply elem_of_nil in Hm.
  - destruct (inscription_addNode_step m w Hw)
      as (r & w1 & mesh & E & Hw1 & Hmesh & Hkeep & Hother).
    destruct (IH w1 Hw1) as (w' & E' & Hw' & Hall & Hkeep' & Hother').
    exists w'. cbn [InscriptionNodes.loadNodes].
    rewrite (bind_Normal _ _ _ _ _ E). split; [exact E'|].
    split; [done|]. split; [|split].
    + intros m' [->|Hm']%elem_of_cons; [|by apply Hall].
      exists mesh. split; [by apply Hkeep'|].
      destruct Hw' as [_ Hlive]. by rewrite Hlive, (Hkeep' _ _ Hmesh).
    + intros id mesh' Hold. by apply Hkeep', Hkeep.
    + intros id Hid. rewrite fmap_cons, not_elem_of_cons in Hid.
      destruct Hid as [Hne Hid]. by rewrite Hother', Hother.
Qed.

(** X18. [loadNodes] of the inscription variant always returns: from a
    consistent world it leaves a consistent world in which every message of
    the array has exactly one live node, whatever ids repeat in the array,
    and the nodes of ids outside the array are the ones that were there. *)
Theorem inscription_loadNodes_all (messages : list (Message F))
    (w : Scene.World F) :
  consistent w →
  ∃ w',
    inscription_loadNodes messages w = Normal () w' ∧
    consistent w' ∧
    (∀ m, m ∈ messages →
          ∃ mesh, Scene.meshes w' !! Msg.message_id m = Some mesh ∧
                  live_nodes w' (Msg.message_id m) = [mesh]) ∧
    (∀ id mesh, Scene.meshes w !! id = Some mesh →
                Scene.meshes w' !! id = Some mesh) ∧
    (∀ id, id ∉ Msg.message_id <$> messages →
           Scene.meshes w' !! id = Scene.meshes w !! id).
Proof. apply inscription_loadNodes_each. Qed.

Lemma emotion_loadNodes_app (l1 l2 : list (Message F)) (w : Scene.World F) :
  emotion_loadNodes (l1 ++ l2) w
  = bind (emotion_loadNodes l1) (λ _, emotion_loadNodes l2) w.
Proof.
  revert w. induction l1 as [|m l1 IH]; intros w; [done|].
  cbn [app EmotionNodes.loadNodes]. rewrite bind_assoc.
  destruct (emotion_addNode m w) as [r w1|w1] eqn:E.
  - rewrite !(bind_Normal _ _ _ _ _ E). apply IH.
  - by rewrite !(bind_Abrupt _ _ _ _ E).
Qed.

(** X19. [loadNodes] of the emotion variant stops at the first message that
    [addNode] cannot handle: when the messages before it have been loaded
    and the next one has a new id and an emotion without configuration,
    [loadNodes] throws, and the nodes are those of the messages before it;
    no message after it gets a node. *)
Theorem emotion_loadNodes_stops (loaded rest : list (Message F))
    (bad : Message F) (w w1 : Scene.World F) :
  emotion_loadNodes loaded w = Normal () w1 →
  Scene.meshes w1 !! Msg.message_id bad = None →
  EmotionNodes.config_of (F := F) (Msg.emotion bad) = None →
  ∃ w2,
    emotion_loadNodes (loaded ++ bad :: rest) w = Abrupt w2 ∧
    same_nodes w1 w2.
Proof.
  intros Hloaded Hid Hc.
  destruct (emotion_addNode_throws Math_random_stream performance_now_stream
              bad w1 Hid Hc) as (w2 & E & S2).
  exists w2. split; [|done].
  rewrite emotion_loadNodes_app, (bind_Normal _ _ _ _ _ Hloaded).
  cbn [EmotionNodes.loadNodes]. by apply bind_Abrupt.
Qed.

End MoreNodeFacts.

(** * Properties of ui/Composer.js and main.js *)
Section ComposerFacts.
Context {F : Type} `{JSNumber F}.
Variable quota_ok : gmap jsstring jsstring → jsstring → jsstring → bool.
Variable JSON_stringify : JSON.Value F → option jsstring.
Variable JSON_parse : jsstring → option (JSON.Value F).
Variable parse_messages : jsstring → option (list (Message F)).
Variable Math_random_stream : nat → F.
Variable performance_now_stream : nat → F.
Variable Date_now_stream : nat → Z.
Variable integer_toString36 : Z → jsstring.
Variable number_toString36 : F → jsstring.
Variable toISOString : Z → jsstring.

Local Abbreviation generateMessageId :=
  (Composer.generateMessageId Math_random_stream Date_now_stream
     integer_toString36 number_toString36).
Local Abbreviation handleSubmit :=
  (Composer.handleSubmit quota_ok JSON_stringify JSON_parse
     Math_random_stream Date_now_stream integer_toString36
     number_toString36 toISOString).
Local Abbreviation onNewMessage :=
  (Composer.onNewMessage Math_random_stream performance_now_stream).
Local Abbreviation loadExistingMessages :=
  (Composer.loadExistingMessages parse_messages Math_random_stream
     performance_now_stream).
Local Abbreviation saveMessage :=
  (JSONStorage.saveMessage quota_ok JSON_stringify JSON_parse).
Local Abbreviation value := (persisted_value JSON_parse).
Local Abbreviation stored := (persisted parse_messages).

Lemma same_app_refl (a : Composer.App F) : same_app a a.
Proof. repeat split. Qed.

Lemma same_app_trans (a1 a2 a3 : Composer.App F) :
  same_app a1 a2 → same_app a2 a3 → same_app a1 a3.
Proof.
  intros (? & ? & ? & ? & ?) (? & ? & ? & ? & ?).
  split; [congruence|]. split; [congruence|]. split; [congruence|].
  split; [congruence|]. by eapply same_nodes_trans.
Qed.

Lemma consistent_same_nodes (w w' : Scene.World F) :
  same_nodes w w' → consistent w → consistent w'.
Proof.
  intros Hsame [Hvalid Hlive].
  pose proof (same_nodes_length _ _ Hsame) as Hlen.
  destruct Hsame as (Hscene & Hmeshes & _ & Hdata). split.
  - intros mesh. rewrite Hscene, Hlen. apply Hvalid.
  - intros id. rewrite Hmeshes, <- Hlive. unfold live_nodes.
    rewrite Hscene. apply filter_ext. intros mesh.
    assert (E : Scene.userData <$> Scene.objects w' !! mesh
                = Scene.userData <$> Scene.objects w !! mesh)
      by by rewrite <- !list_lookup_fmap, Hdata.
    destruct (Scene.objects w' !! mesh), (Scene.objects w !! mesh);
      simpl in E; try done. by injection E as ->.
Qed.

Lemma generateMessageId_effect (a : Composer.App F) :
  ∃ id a1, generateMessageId a = Normal id a1 ∧ same_app a a1.
Proof.
  unfold Composer.generateMessageId, bind, Composer.read_date,
    Composer.in_world, Scene.Math_random, ret.
  do 2 eexists. split; [reflexivity|]. by repeat split.
Qed.

Lemma read_date_effect (a : Composer.App F) :
  ∃ date a1, Composer.read_date Date_now_stream a = Normal date a1 ∧
             same_app a a1.
Proof. do 2 eexists. split; [reflexivity|]. by repeat split. Qed.

Lemma placement_effect userName messageId (a : Composer.App F) :
  ∃ pl a1,
    Composer.in_world
      (Scene.with_cells (Hash.getMessagePlacement userName messageId)) a
    = Normal pl a1 ∧
    same_app a a1 ∧
    ∀ cells : list F,
      ∃ cells', Hash.getMessagePlacement userName messageId cells
                = Normal pl cells'.
Proof.
  destruct (getMessagePlacement_agree userName messageId
              (Scene.cells (Composer.world a)) (Scene.cells (Composer.world a)))
    as (pl & c & _ & E & _ & _).
  destruct (with_cells_effect _ _ _ (Composer.world a) E) as (w1 & E1 & S1).
  unfold Composer.in_world. rewrite E1.
  do 2 eexists. split; [reflexivity|].
  split; [by do 4 (split; [reflexivity|])|].
  intros cells.
  destruct (getMessagePlacement_agree userName messageId
              (Scene.cells (Composer.world a)) cells)
    as (q & d & cells' & D & D' & _).
  rewrite E in D. apply Normal_inj in D as [<- _]. eauto.
Qed.

(** X20. [handleSubmit] rejects a blank form: when the name or the message
    is empty after trimming, it shows an error on that input (the name
    first) and does nothing else: nothing is saved, no id is generated, the
    callback is not called and the inputs keep their text. *)
Theorem handleSubmit_rejects_blank
    (onMessageSubmit : option (Message F → JS (Composer.App F) ()))
    (a : Composer.App F) :
  Composer.trim (Composer.nameInput a) = [] ∨
  Composer.trim (Composer.messageTextarea a) = [] →
  ∃ element text,
    handleSubmit onMessageSubmit a
    = Normal ()
        {| Composer.nameInput := Composer.nameInput a;
           Composer.messageTextarea := Composer.messageTextarea a;
           Composer.localStorage := Composer.localStorage a;
           Composer.world := Composer.world a;
           Composer.date_reads := Composer.date_reads a;
           Composer.feedback :=
             Composer.feedback a ++ [Composer.ShowError element text] |} ∧
    element
    = (if decide (Composer.trim (Composer.nameInput a) = [])
       then Composer.NameInput else Composer.MessageTextarea).
Proof.
  intros Hblank. unfold Composer.handleSubmit.
  rewrite (bind_Normal get _ a a a eq_refl).
  destruct (Composer.trim (Composer.nameInput a)) as [|c name].
  - do 2 eexists. split; [reflexivity|done].
  - destruct Hblank as [Hname | Htext]; [done|]. rewrite Htext.
    do 2 eexists. split; [reflexivity|done].
Qed.

(** The steps of [handleSubmit] on a filled form. *)
Lemma handleSubmit_filled_steps
    (onMessageSubmit : option (Message F → JS (Composer.App F) ()))
    (a : Composer.App F) :
  Composer.trim (Composer.nameInput a) ≠ [] →
  Composer.trim (Composer.messageTextarea a) ≠ [] →
  ∃ (message : Message F) (pl : Hash.Placement F) (a1 : Composer.App F),
    (∃ a0, generateMessageId a = Normal (Msg.message_id message) a0) ∧
    Msg.userName message = Composer.trim (Composer.nameInput a) ∧
    Msg.message message = Composer.trim (Composer.messageTextarea a) ∧
    Msg.treePart message = Hash.treePart pl ∧
    Msg.position message = Some (Hash.position pl) ∧
    Msg.glowIntensity message = Some (Hash.glowIntensity pl) ∧
    (∀ cells : list F,
       ∃ cells',
         Hash.getMessagePlacement (Msg.userName message)
           (Msg.message_id message) cells = Normal pl cells') ∧
    Composer.nameInput a1 = Composer.nameInput a ∧
    Composer.messageTextarea a1 = Composer.messageTextarea a ∧
    Composer.feedback a1 = Composer.feedback a ∧
    same_nodes (Composer.world a) (Composer.world a1) ∧
    ((saveMessage (JSON.of_message message) (Composer.localStorage a)
      = Normal true (Composer.localStorage a1) ∧
      (∃ elements,
         value (Composer.localStorage a) = JSON.Array elements ∧
         (round_trip JSON_stringify JSON_parse
            (JSON.Array (elements ++ [JSON.of_message message])) →
          value (Composer.localStorage a1)
          = JSON.Array (elements ++ [JSON.of_message message]))) ∧
      handleSubmit onMessageSubmit a
      = (let* _ :=
           match onMessageSubmit with
           | Some callback => callback message
           | None => ret ()
           end in
         let* _ := Composer.clear_textarea in
         Composer.show Composer.ShowSuccess)%js a1) ∨
     (saveMessage (JSON.of_message message) (Composer.localStorage a)
      = Normal false (Composer.localStorage a) ∧
      Composer.localStorage a1 = Composer.localStorage a ∧
      handleSubmit onMessageSubmit a
      = Composer.show
          (Composer.ShowError Composer.SubmitButton
             (js "Failed to save message")) a1)).
Proof.
  intros Hname Htext. unfold Composer.handleSubmit.
  rewrite (bind_Normal get _ a a a eq_refl).
  destruct (Composer.trim (Composer.nameInput a)) as [|c name] eqn:En;
    [done|].
  destruct (Composer.trim (Composer.messageTextarea a)) as [|d text] eqn:Et;
    [done|].
  destruct (generateMessageId_effect a) as (id & a0 & E0 & S0).
  rewrite (bind_Normal _ _ _ _ _ E0).
  destruct (read_date_effect a0) as (date & a2 & E2 & S2).
  rewrite (bind_Normal _ _ _ _ _ E2).
  destruct (placement_effect (c :: name) id a2) as (pl & a3 & E3 & S3 & Hpl).
  rewrite (bind_Normal _ _ _ _ _ E3).
  assert (S03 : same_app a a3) by eauto using same_app_trans.
  destruct S03 as (Hn & Hm & Hst & Hf & Hw).
  set (message := Msg.mkMessage id (c :: name) (d :: text) (toISOString date)
                    None None (Hash.treePart pl) (Some (Hash.position pl))
                    (Some (Hash.glowIntensity pl))).
  destruct (saveMessage_contained quota_ok JSON_stringify JSON_parse
              (JSON.of_message message) (Composer.localStorage a3))
    as (ok & st' & Esave & Hfail).
  exists message, pl.
  eexists {| Composer.nameInput := Composer.nameInput a3;
             Composer.messageTextarea := Composer.messageTextarea a3;
             Composer.localStorage := st';
             Composer.world := Composer.world a3;
             Composer.date_reads := Composer.date_reads a3;
             Composer.feedback := Composer.feedback a3 |}.
  split; [by eexists|].
  do 5 (split; [reflexivity|]). split; [exact Hpl|].
  do 3 (split; [done|]). split; [done|].
  assert (Ein : Composer.in_storage
                  (saveMessage (JSON.of_message message)) a3
                = Normal ok
                    {| Composer.nameInput := Composer.nameInput a3;
                       Composer.messageTextarea := Composer.messageTextarea a3;
                       Composer.localStorage := st';
                       Composer.world := Composer.world a3;
                       Composer.date_reads := Composer.date_reads a3;
                       Composer.feedback := Composer.feedback a3 |}).
  { unfold Composer.in_storage. by rewrite Esave. }
  rewrite (bind_Normal _ _ _ _ _ Ein). rewrite Hst in Esave.
  destruct ok.
  - left. split; [done|].
    split; [exact (saveMessage_appends quota_ok JSON_stringify JSON_parse
                     _ _ _ Esave)|].
    reflexivity.
  - right. rewrite (Hfail eq_refl) in Esave. rewrite (Hfail eq_refl).
    rewrite Hst in Esave. split; [done|]. split; [done|]. reflexivity.
Qed.

(** X21. [handleSubmit] on a filled form: the message built has the
    trimmed name and text and the placement of
    [getMessagePlacement(userName, messageId)].  The callback is called, the
    textarea cleared and the success shown exactly when [saveMessage]
    returned [true]; then the storage held an array, and the array with the
    message appended is what it holds now, provided that array survives
    serialisation.  When [saveMessage] returned [false], the storage, the
    nodes and the inputs are what they were and the error is shown on the
    button. *)
Theorem handleSubmit_filled
    (onMessageSubmit : option (Message F → JS (Composer.App F) ()))
    (a : Composer.App F) :
  Composer.trim (Composer.nameInput a) ≠ [] →
  Composer.trim (Composer.messageTextarea a) ≠ [] →
  ∃ (message : Message F) (pl : Hash.Placement F) (a1 : Composer.App F),
    (∃ a0, generateMessageId a = Normal (Msg.message_id message) a0) ∧
    Msg.userName message = Composer.trim (Composer.nameInput a) ∧
    Msg.message message = Composer.trim (Composer.messageTextarea a) ∧
    Msg.treePart message = Hash.treePart pl ∧
    Msg.position message = Some (Hash.position pl) ∧
    Msg.glowIntensity message = Some (Hash.glowIntensity pl) ∧
    (∀ cells : list F,
       ∃ cells',
         Hash.getMessagePlacement (Msg.userName message)
           (Msg.message_id message) cells = Normal pl cells') ∧
    Composer.nameInput a1 = Composer.nameInput a ∧
    Composer.messageTextarea a1 = Composer.messageTextarea a ∧
    Composer.feedback a1 = Composer.feedback a ∧
    same_nodes (Composer.world a) (Composer.world a1) ∧
    ((saveMessage (JSON.of_message message) (Composer.localStorage a)
      = Normal true (Composer.localStorage a1) ∧
      (∃ elements,
         value (Composer.localStorage a) = JSON.Array elements ∧
         (round_trip JSON_stringify JSON_parse
            (JSON.Array (elements ++ [JSON.of_message message])) →
          value (Composer.localStorage a1)
          = JSON.Array (elements ++ [JSON.of_message message]))) ∧
      handleSubmit onMessageSubmit a
      = (let* _ :=
           match onMessageSubmit with
           | Some callback => callback message
           | None => ret ()
           end in
         let* _ := Composer.clear_textarea in
         Composer.show Composer.ShowSuccess)%js a1) ∨
     (saveMessage (JSON.of_message message) (Composer.localStorage a)
      = Normal false (Composer.localStorage a) ∧
      Composer.localStorage a1 = Composer.localStorage a ∧
      handleSubmit onMessageSubmit a
      = Composer.show
          (Composer.ShowError Composer.SubmitButton
             (js "Failed to save message")) a1)).
Proof. apply handleSubmit_filled_steps. Qed.

Lemma with_treePart_same (m : Message F) :
  InscriptionNodes.with_treePart m (Msg.treePart m) = m.
Proof. by destruct m. Qed.


Local Abbreviation inscription_addNode :=
  (InscriptionNodes.addNode Math_random_stream performance_now_stream).
Local Abbreviation inscription_loadNodes :=
  (InscriptionNodes.loadNodes Math_random_stream performance_now_stream).

(** [addNode] for any message keeps the node recorded for an id that has
    one. *)
Lemma inscription_addNode_keeps (m : Message F) (w : Scene.World F) id mesh :
  consistent w →
  Scene.meshes w !! id = Some mesh →
  ∃ r w1,
    inscription_addNode m w = Normal r w1 ∧
    consistent w1 ∧
    Scene.meshes w1 !! id = Some mesh ∧
    Scene.nodes w1 !! id = Scene.nodes w !! id.
Proof.
  intros Hw Hid.
  destruct (Scene.meshes w !! Msg.message_id m) as [mesh'|] eqn:Hm.
  - exists None, w. split; [|done].
    by eapply inscription_addNode_present.
  - assert (Hne : id ≠ Msg.message_id m) by (intros ->; congruence).
    destruct (inscription_addNode_new_data Math_random_stream
                performance_now_stream m w Hm)
      as (w1 & u & pl & E & _ & Hu & _ & _ & Hscene & Hmeshes & Hnodes
          & Hdata).
    destruct (extend_others m w w1 u _ Hw Hm Hu Hscene Hmeshes Hnodes Hdata)
      as (Hw1 & _ & _).
    do 2 eexists. split; [exact E|]. split; [done|].
    by rewrite Hmeshes, Hnodes, !lookup_insert_ne.
Qed.

Lemma inscription_loadNodes_keeps (messages : list (Message F))
    (w : Scene.World F) id mesh :
  consistent w →
  Scene.meshes w !! id = Some mesh →
  ∃ w', inscription_loadNodes messages w = Normal () w' ∧
        Scene.nodes w' !! id = Scene.nodes w !! id.
Proof.
  revert w. induction messages as [|m messages IH]; intros w Hw Hid.
  - by exists w.
  - destruct (inscription_addNode_keeps m w id mesh Hw Hid)
      as (r & w1 & E & Hw1 & Hid1 & Hnodes).
    destruct (IH w1 Hw1 Hid1) as (w' & E' & Hnodes').
    exists w'. cbn [InscriptionNodes.loadNodes].
    rewrite (bind_Normal _ _ _ _ _ E). split; [done|congruence].
Qed.

(** Of the messages of an array that share an id without a node, the first
    is the one that [loadNodes] records. *)
Lemma inscription_loadNodes_first (messages : list (Message F))
    (w : Scene.World F) id (first : Message F) :
  consistent w →
  Scene.meshes w !! id = None →
  Storage.find (λ m, bool_decide (Msg.message_id m = id)) messages
  = Some first →
  ∃ w' part,
    inscription_loadNodes messages w = Normal () w' ∧
    Scene.nodes w' !! id = Some (InscriptionNodes.with_treePart first part).
Proof.
  revert w. induction messages as [|m messages IH]; intros w Hw Hid Hfind;
    [done|].
  cbn [Storage.find] in Hfind. cbn [InscriptionNodes.loadNodes].
  destruct (decide (Msg.message_id m = id)) as [Hm|Hm].
  - rewrite bool_decide_eq_true_2 in Hfind by done.
    injection Hfind as ->. subst id.
    destruct (inscription_addNode_new_data Math_random_stream
                performance_now_stream first w Hid)
      as (w1 & u & pl & E & _ & Hu & Hmsg & _ & Hscene & Hmeshes & Hnodes
          & Hdata).
    destruct (extend_others first w w1 u _ Hw Hid Hu Hscene Hmeshes Hnodes
                Hdata) as (Hw1 & _ & _).
    assert (Hid1 : Scene.meshes w1 !! Msg.message_id first
                   = Some (length (Scene.objects w)))
      by by rewrite Hmeshes, lookup_insert_eq.
    destruct (inscription_loadNodes_keeps messages w1 _ _ Hw1 Hid1)
      as (w' & E' & Hkept).
    exists w'. eexists. rewrite (bind_Normal _ _ _ _ _ E).
    split; [exact E'|].
    by rewrite Hkept, Hnodes, lookup_insert_eq, Hmsg.
  - rewrite bool_decide_eq_false_2 in Hfind by done.
    destruct (inscription_addNode_step Math_random_stream
                performance_now_stream m w Hw)
      as (r & w1 & mesh & E & Hw1 & _ & _ & Hother).
    destruct (IH w1 Hw1) as (w' & part & E' & Hnode); [|done|].
    { rewrite Hother; [done|congruence]. }
    exists w', part. by rewrite (bind_Normal _ _ _ _ _ E).
Qed.

(** X23. [loadExistingMessages] of main.js on a storage that holds a
    message array (or no text, or text that is not JSON, or that cannot be
    read: then the array is empty): it returns; from a consistent world it
    changes nothing but the scene, gives every stored message exactly one
    live node, and where stored messages share an id, the node of the id
    records the first of them, the one that [getMessageById] returns. *)
Theorem loadExistingMessages_nodes (a : Composer.App F) :
  message_store parse_messages JSON_parse (Composer.localStorage a) →
  consistent (Composer.world a) →
  ∃ a',
    JSONStorage.getAllMessages JSON_parse (Composer.localStorage a)
    = Normal (JSON.Array (JSON.of_message
                            <$> stored (Composer.localStorage a)))
        (Composer.localStorage a) ∧
    loadExistingMessages a = Normal () a' ∧
    Composer.nameInput a' = Composer.nameInput a ∧
    Composer.messageTextarea a' = Composer.messageTextarea a ∧
    Composer.localStorage a' = Composer.localStorage a ∧
    Composer.feedback a' = Composer.feedback a ∧
    consistent (Composer.world a') ∧
    (∀ m, m ∈ stored (Composer.localStorage a) →
          ∃ mesh,
            Scene.meshes (Composer.world a') !! Msg.message_id m
            = Some mesh ∧
            live_nodes (Composer.world a') (Msg.message_id m) = [mesh]) ∧
    (∀ id, id ∉ Msg.message_id <$> stored (Composer.localStorage a) →
           Scene.meshes (Composer.world a') !! id
           = Scene.meshes (Composer.world a) !! id) ∧
    (∀ id first,
       Scene.meshes (Composer.world a) !! id = None →
       Storage.getMessageById parse_messages id (Composer.localStorage a)
       = Normal (Some first) (Composer.localStorage a) →
       ∃ part,
         Scene.nodes (Composer.world a') !! id
         = Some (InscriptionNodes.with_treePart first part)).
Proof.
  intros Hstore Hw.
  pose proof (getAllMessages_stored parse_messages (Composer.localStorage a))
    as Eall.
  destruct (inscription_loadNodes_each Math_random_stream
              performance_now_stream (stored (Composer.localStorage a))
              (Composer.world a) Hw)
    as (w' & E & Hw' & Hall & _ & Hother).
  eexists {| Composer.nameInput := Composer.nameInput a;
             Composer.messageTextarea := Composer.messageTextarea a;
             Composer.localStorage := Composer.localStorage a;
             Composer.world := w';
             Composer.date_reads := Composer.date_reads a;
             Composer.feedback := Composer.feedback a |}.
  split.
  { rewrite getAllMessages_value.
    by rewrite (message_store_value JSON_parse parse_messages _ Hstore). }
  split.
  { unfold Composer.loadExistingMessages, bind, Composer.in_storage,
      Composer.in_world. rewrite Eall. simpl. by rewrite E. }
  simpl. do 4 (split; [done|]). split; [done|]. split; [done|].
  split; [done|].
  intros id first Hid Hget. unfold Storage.getMessageById in Hget.
  rewrite (bind_Normal _ _ _ _ _ Eall) in Hget.
  apply Normal_inj in Hget as [Hfind _].
  destruct (inscription_loadNodes_first _ _ _ _ Hw Hid Hfind)
    as (w'' & part & E'' & Hnode).
  rewrite E in E''. apply Normal_inj in E'' as [_ <-]. eauto.
Qed.

End ComposerFacts.

(** * Examples of the further properties *)

Lemma MoreExamples_stringify_json (l : list (Message Z)) :
  MoreExamples.stringify_json (JSON.Array (JSON.of_message <$> l))
  = Example.stringify l.
Proof.
  unfold MoreExamples.stringify_json.
  rewrite (mapM_fmap_Some JSON.to_message JSON.of_message l
             to_message_of_message).
  reflexivity.
Qed.

Lemma MoreExamples_round_trip (l : list (Message Z)) :
  round_trip MoreExamples.stringify_json MoreExamples.parse_json
    (JSON.Array (JSON.of_message <$> l)).
Proof.
  intros text. rewrite MoreExamples_stringify_json. intros Htext.
  destruct (Example_parse_stringify l text Htext) as [Hne Hparse].
  split; [exact Hne|]. unfold MoreExamples.parse_json. by rewrite Hparse.
Qed.

Lemma MoreExamples_message_store (st : Storage.LocalStorage) :
  message_store Example.parse MoreExamples.parse_json st.
Proof.
  intros text _. unfold MoreExamples.parse_json.
  by destruct (Example.parse text).
Qed.

Lemma MoreExamples_value_empty :
  persisted_value MoreExamples.parse_json Example.empty_storage
  = JSON.Array [].
Proof. unfold persisted_value. simpl. by rewrite lookup_empty. Qed.

(** Saving a message object into the empty storage. *)
Lemma MoreExamples_save_first (m : Message Z) :
  JSONStorage.saveMessage Example.unlimited MoreExamples.stringify_json
    MoreExamples.parse_json (JSON.of_message m) Example.empty_storage
  = Normal true (Example.storage_of [m]).
Proof.
  pose proof (saveMessage_array Example.unlimited
                MoreExamples.stringify_json MoreExamples.parse_json
                (JSON.of_message m) [] Example.empty_storage
                MoreExamples_value_empty) as Hsave.
  change ([] ++ [JSON.of_message m]) with (JSON.of_message <$> [m]) in Hsave.
  rewrite (MoreExamples_stringify_json [m]) in Hsave.
  unfold Example.stringify in Hsave. simpl in Hsave.
  rewrite Hsave. unfold Example.storage_of. by rewrite insert_empty.
Qed.

(** X3, example: the string [abc], at its second unit. *)
Lemma hashCode_exact_arithmetic_example :
  let hash := fold_left Hash.hash_step (js "a") 0 in
  - 2 ^ 31 ≤ hash < 2 ^ 31 ∧
  - 2 ^ 31 ≤ shl hash 5 < 2 ^ 31 ∧
  - 2 ^ 53 < shl hash 5 - hash + Z.of_N 98 < 2 ^ 53.
Proof.
  apply (hashCode_exact_arithmetic (js "a") (js "c") 98%N).
  repeat constructor.
Defined.

(** X5, example: two closures whose variables hold 1 and 2. *)
Lemma call_commute_example :
  ∃ v1 v2 cells',
    (let* a := Hash.call (H := Example.numbers) 0 in
     let* b := Hash.call (H := Example.numbers) 1 in ret (a, b))%js [1; 2]
    = Normal (v1, v2) cells' ∧
    (let* b := Hash.call (H := Example.numbers) 1 in
     let* a := Hash.call (H := Example.numbers) 0 in ret (a, b))%js [1; 2]
    = Normal (v1, v2) cells'.
Proof.
  apply (call_commute (H := Example.numbers) 0 1 [1; 2]).
  - done.
  - simpl. lia.
  - simpl. lia.
Defined.

(** X7, example: a store with one message. *)
Lemma clearAllMessages_empties_example :
  ∃ st',
    Storage.clearAllMessages (Example.storage_of [Example.old_message])
    = Normal () st' ∧
    Storage.getAllMessages Example.parse st' = Normal [] st' ∧
    Storage.getMessageCount Example.parse st' = Normal 0 st' ∧
    (∀ id, Storage.getMessageById Example.parse id st' = Normal None st') ∧
    (∀ year,
       Storage.getMessagesForYear Example.parse Example.Date_parse
         Example.UTC year st' = Normal [] st').
Proof.
  apply (clearAllMessages_empties Example.parse Example.Date_parse
           Example.UTC (Example.storage_of [Example.old_message])).
  reflexivity.
Defined.

(** X8, example: the first message saved into the empty store. *)
Lemma saveMessage_count_example :
  ∃ n : Z,
    0 ≤ n ∧
    Storage.getMessageCount Example.parse Example.empty_storage
    = Normal n Example.empty_storage ∧
    Storage.getMessageCount Example.parse
      (Example.storage_of [Example.old_message])
    = Normal (n + 1) (Example.storage_of [Example.old_message]).
Proof.
  apply (saveMessage_count Example.unlimited Example.stringify Example.parse
           Example_parse_stringify Example.old_message Example.empty_storage
           (Example.storage_of [Example.old_message]) true).
  apply Example_save_first.
Defined.

(** X12, example: settings saved into the empty storage are read back, and
    the empty storage yields the defaults. *)
Lemma saveSettings_getSettings_example :
  (∃ st',
     Settings.saveSettings Example.unlimited MoreExamples.settings_stringify
       (MoreExamples.settings "rain" true) Example.empty_storage
     = Normal () st' ∧
     Settings.getSettings MoreExamples.settings_parse st'
     = Normal (MoreExamples.settings "rain" true) st') ∧
  Settings.getSettings MoreExamples.settings_parse Example.empty_storage
  = Normal Settings.defaults Example.empty_storage.
Proof.
  destruct (saveSettings_getSettings Example.unlimited
              MoreExamples.settings_stringify MoreExamples.settings_parse
              (MoreExamples.settings "rain" true) Example.empty_storage)
    as ((st' & Hsave & Hcases) & _ & Hdefaults).
  - intros text [= <-]. split; [discriminate|reflexivity].
  - split.
    + exists st'. split; [exact Hsave|].
      destruct Hcases as [(text & _ & _ & Hget)|([Hnone|Hfull] & _)].
      * exact Hget.
      * discriminate Hnone.
      * destruct Hfull as (text & _ & Hset). discriminate Hset.
    + apply Hdefaults. right. left. apply lookup_empty.
Defined.

(** X14, example: the pointer enters mesh 0 and leaves it before the delay
    has passed; 300 milliseconds later only [onNodeHover(null)] has been
    called. *)
Lemma hover_leave_cancels_example :
  let p :=
    Hover.run Example.empty_world (Hover.initial true)
      [Hover.MouseMove (Some 0%nat) 1 2] in
  let left := Hover.onMouseMove None 3 4 p in
  Hover.timers left = [] ∧
  Hover.hoveredNode left = None ∧
  Hover.calls left = Hover.calls p ++ [Hover.Hide] ∧
  Hover.calls (Hover.run Example.empty_world left [Hover.Elapse 300])
  = Hover.calls left.
Proof.
  apply (hover_leave_cancels Example.empty_world true
           [Hover.MouseMove (Some 0%nat) 1 2] [Hover.Elapse 300] 3 4).
  repeat constructor. simpl. lia.
Defined.

(** X15, example: the pointer enters mesh 0, rests, moves over it and rests
    again, 300 milliseconds in all. *)
Lemma hover_reveals_once_example :
  let p := Hover.run Example.empty_world (Hover.initial true) [] in
  let later :=
    [Hover.Elapse 100; Hover.MouseMove (Some 0%nat) 5 5; Hover.Elapse 200] in
  Hover.calls
    (Hover.run Example.empty_world
       (Hover.onMouseMove (Some 0%nat) 1 2 p) later)
  = Hover.calls p
      ++ (if decide (250 ≤ Hover.duration later)
          then Hover.reveal Example.empty_world true
                 {| Hover.timer_id := S (Hover.timers_set p);
                    Hover.due := Hover.now p + 250;
                    Hover.target := 0%nat;
                    Hover.clientX := 1; Hover.clientY := 2 |}
          else []).
Proof.
  intros p later.
  apply (hover_reveals_once Example.empty_world true [] later 0%nat 1 2).
  - simpl. discriminate.
  - repeat constructor; simpl; lia.
Defined.

(** X16, example: the first node of the empty world. *)
Lemma addNode_others_untouched_example :
  (∀ r w1,
     EmotionNodes.addNode (H := Example.numbers) Example.Math_random_stream
       Example.performance_now_stream Example.old_message Example.empty_world
     = Normal r w1 →
     consistent w1 ∧
     others_untouched Example.old_message Example.empty_world r w1) ∧
  (∀ r w1,
     InscriptionNodes.addNode (H := Example.numbers)
       Example.Math_random_stream Example.performance_now_stream
       Example.old_message Example.empty_world
     = Normal r w1 →
     consistent w1 ∧
     others_untouched Example.old_message Example.empty_world r w1).
Proof.
  apply (addNode_others_untouched (H := Example.numbers)
           Example.Math_random_stream Example.performance_now_stream
           Example.old_message Example.empty_world).
  apply Example_consistent.
Defined.

(** X17, example: a message that stores no position, in the empty world. *)
Lemma inscription_node_records_example :
  ∃ mesh w1 u pl,
    InscriptionNodes.addNode (H := Example.numbers)
      Example.Math_random_stream Example.performance_now_stream
      Example.old_message Example.empty_world = Normal (Some mesh) w1 ∧
    (∀ cells : list Z,
       ∃ cells',
         Hash.getMessagePlacement (H := Example.numbers) (js "Alice")
           (js "m1") cells = Normal pl cells') ∧
    Scene.userData <$> Scene.objects w1 !! mesh = Some (Some u) ∧
    Scene.nodes w1 !! js "m1" = Some (Scene.message Z u) ∧
    live_nodes w1 (js "m1") = [mesh] ∧
    Scene.originalPosition Z u = Hash.position pl ∧
    Scene.message Z u
    = InscriptionNodes.with_treePart Example.old_message
        (InscriptionNodes.or_string None (Hash.treePart pl)).
Proof.
  apply (inscription_node_records (H := Example.numbers)
           Example.Math_random_stream Example.performance_now_stream
           Example.old_message Example.empty_world).
  - apply Example_consistent.
  - apply lookup_empty.
Defined.

(** X18, example: two stored messages with the same id. *)
Lemma inscription_loadNodes_all_example :
  ∃ w',
    InscriptionNodes.loadNodes (H := Example.numbers)
      Example.Math_random_stream Example.performance_now_stream
      [Example.old_message; Example.new_message] Example.empty_world
    = Normal () w' ∧
    consistent w' ∧
    (∀ m, m ∈ [Example.old_message; Example.new_message] →
          ∃ mesh, Scene.meshes w' !! Msg.message_id m = Some mesh ∧
                  live_nodes w' (Msg.message_id m) = [mesh]) ∧
    (∀ id mesh, Scene.meshes Example.empty_world !! id = Some mesh →
                Scene.meshes w' !! id = Some mesh) ∧
    (∀ id,
       id ∉ Msg.message_id <$> [Example.old_message; Example.new_message] →
       Scene.meshes w' !! id = Scene.meshes Example.empty_world !! id).
Proof.
  apply (inscription_loadNodes_all (H := Example.numbers)
           Example.Math_random_stream Example.performance_now_stream
           [Example.old_message; Example.new_message] Example.empty_world).
  apply Example_consistent.
Defined.

(** X19, example: a message with the emotion [happy], which has no
    configuration, followed by one with [joy]. *)
Lemma emotion_loadNodes_stops_example :
  ∃ w2,
    EmotionNodes.loadNodes (H := Example.numbers) Example.Math_random_stream
      Example.performance_now_stream
      [Example.emotion_message "m1" (Some "happy");
       Example.emotion_message "m2" (Some "joy")] Example.empty_world
    = Abrupt w2 ∧
    same_nodes Example.empty_world w2.
Proof.
  apply (emotion_loadNodes_stops (H := Example.numbers)
           Example.Math_random_stream Example.performance_now_stream
           [] [Example.emotion_message "m2" (Some "joy")]
           (Example.emotion_message "m1" (Some "happy"))
           Example.empty_world Example.empty_world).
  - reflexivity.
  - apply lookup_empty.
  - reflexivity.
Defined.

(** X20, example: a name of blanks only. *)
Lemma handleSubmit_rejects_blank_example :
  ∃ text,
    Composer.handleSubmit (H := Example.numbers) Example.unlimited
      MoreExamples.stringify_json MoreExamples.parse_json
      Example.Math_random_stream MoreExamples.Date_now_stream
      MoreExamples.toString36 MoreExamples.toString36
      MoreExamples.toISOString None
      (MoreExamples.app "  " "hello" Example.empty_storage)
    = Normal ()
        {| Composer.nameInput := js "  ";
           Composer.messageTextarea := js "hello";
           Composer.localStorage := Example.empty_storage;
           Composer.world := Example.empty_world;
           Composer.date_reads := 0;
           Composer.feedback :=
             [Composer.ShowError Composer.NameInput text] |}.
Proof.
  destruct (handleSubmit_rejects_blank (H := Example.numbers)
              Example.unlimited MoreExamples.stringify_json
              MoreExamples.parse_json Example.Math_random_stream
              MoreExamples.Date_now_stream MoreExamples.toString36
              MoreExamples.toString36 MoreExamples.toISOString None
              (MoreExamples.app "  " "hello" Example.empty_storage))
    as (element & text & Hsubmit & Helement).
  - left. reflexivity.
  - exists text. rewrite Hsubmit, Helement. reflexivity.
Defined.

(** X21, example: a filled form without a callback. *)
Lemma handleSubmit_filled_example :
  ∃ (message : Message Z) (a1 : Composer.App Z),
    Msg.userName message = js "Ada" ∧
    Msg.message message = js "hello" ∧
    Composer.messageTextarea a1 = js " hello " ∧
    (Composer.handleSubmit (H := Example.numbers) Example.unlimited
       MoreExamples.stringify_json MoreExamples.parse_json
       Example.Math_random_stream MoreExamples.Date_now_stream
       MoreExamples.toString36 MoreExamples.toString36
       MoreExamples.toISOString None
       (MoreExamples.app "Ada " " hello " Example.empty_storage)
     = (let* _ := ret () in
        let* _ := Composer.clear_textarea in
        Composer.show Composer.ShowSuccess)%js a1 ∨
     Composer.handleSubmit (H := Example.numbers) Example.unlimited
       MoreExamples.stringify_json MoreExamples.parse_json
       Example.Math_random_stream MoreExamples.Date_now_stream
       MoreExamples.toString36 MoreExamples.toString36
       MoreExamples.toISOString None
       (MoreExamples.app "Ada " " hello " Example.empty_storage)
     = Composer.show
         (Composer.ShowError Composer.SubmitButton
            (js "Failed to save message")) a1).
Proof.
  destruct (handleSubmit_filled (H := Example.numbers) Example.unlimited
              MoreExamples.stringify_json MoreExamples.parse_json
              Example.Math_random_stream MoreExamples.Date_now_stream
              MoreExamples.toString36 MoreExamples.toString36
              MoreExamples.toISOString None
              (MoreExamples.app "Ada " " hello " Example.empty_storage))
    as (message & pl & a1 & _ & Hname & Htext & _ & _ & _ & _ & _ & Harea
        & _ & _ & Hcases).
  - vm_compute. discriminate.
  - vm_compute. discriminate.
  - exists message, a1. split; [exact Hname|]. split; [exact Htext|].
    split; [exact Harea|].
    destruct Hcases as [(_ & _ & Hsaved)|(_ & _ & Hfailed)];
      [left; exact Hsaved|right; exact Hfailed].
Defined.


(** X23, example: a storage that holds two messages with the same id; the
    node of the id records the first. *)
Lemma loadExistingMessages_nodes_example :
  ∃ a' part,
    Composer.loadExistingMessages (H := Example.numbers) Example.parse
      Example.Math_random_stream Example.performance_now_stream
      (MoreExamples.app "" ""
         (Example.storage_of [Example.old_message; Example.new_message]))
    = Normal () a' ∧
    consistent (Composer.world a') ∧
    Scene.nodes (Composer.world a') !! js "m1"
    = Some (InscriptionNodes.with_treePart Example.old_message part).
Proof.
  destruct (loadExistingMessages_nodes (H := Example.numbers)
              MoreExamples.parse_json Example.parse
              Example.Math_random_stream Example.performance_now_stream
              (MoreExamples.app "" ""
                 (Example.storage_of
                    [Example.old_message; Example.new_message])))
    as (a' & _ & Hload & _ & _ & _ & _ & Hw & _ & _ & Hfirst).
  - apply MoreExamples_message_store.
  - apply Example_consistent.
  - destruct (Hfirst (js "m1") Example.old_message) as [part Hnode].
    + apply lookup_empty.
    + unfold MoreExamples.app. cbn [Composer.localStorage].
      unfold Storage.getMessageById.
      rewrite (bind_Normal _ _ _ _ _ (getAllMessages_stored _ _)).
      rewrite Example_persisted. unfold ret. f_equal.
    + exists a', part. split; [exact Hload|]. split; [exact Hw|exact Hnode].
Defined.

(** X1, example: a storage that holds two messages. *)
Lemma Storage_on_message_store_example :
  ∃ l : list (Message Z),
    Storage.getAllMessages Example.parse
      (Example.storage_of [Example.old_message; Example.new_message])
    = Normal l
        (Example.storage_of [Example.old_message; Example.new_message]) ∧
    JSONStorage.getAllMessages MoreExamples.parse_json
      (Example.storage_of [Example.old_message; Example.new_message])
    = Normal (JSON.Array (JSON.of_message <$> l))
        (Example.storage_of [Example.old_message; Example.new_message]).
Proof.
  destruct (Storage_on_message_store (H := Example.numbers)
              Example.unlimited JSONExample.stringify MoreExamples.parse_json
              JSONExample.new_Date Example.UTC Example.stringify
              Example.parse Example.Date_parse
              (Example.storage_of
                 [Example.old_message; Example.new_message]))
    as (l & Hmessages & Hvalues & _).
  - intros text _. unfold MoreExamples.parse_json.
    destruct (Example.parse text); reflexivity.
  - intros s. reflexivity.
  - exists l. split; [exact Hmessages|exact Hvalues].
Defined.
